(** * Contact Interaction Memory Engine

    A shallow embedding of the contact-memory extension
    (extensions/contact-memory/contact-memory: types.ts, indexer.ts,
    compaction.ts, retrieval.ts, schema.ts, index.ts), of the message
    source it pulls from (extensions/gohighlevel/conversations.ts) and of
    its callers in the voice bridge (extensions/aime-voice/bridge:
    context-provider.ts, transcript-processor.ts), followed by the
    properties of the engine that the specification states and by further
    properties of the code.

    Conventions of the embedding.
    - A JavaScript string is a [string]: each [ascii] is one UTF-16 code unit
      in the range 0..255, so [String.length] is [.length].
    - A timestamp is a [Z] number of milliseconds since the epoch; a date
      string of the message source is taken already parsed.
    - [Date.now()] is an explicit argument, one per call in the source.
    - Floating-point literals and arithmetic of retrieval.ts and of the
      confidences are exact rationals ([Q]).
    - The host's [Date] is read in UTC with the en-US locale, except in
      [getDefaultDueDate], whose loop works on the local calendar: there the
      host's time zone is a parameter. *)

From Stdlib Require Import ZArith String Ascii Bool Lia QArith Qminmax.
From Stdlib Require Import DecimalString Sorted Permutation List.
From Stdlib Require DecimalZ.
Import ListNotations.

Local Open Scope string_scope.
Local Open Scope list_scope.
Local Open Scope Z_scope.

(** String concatenation, as [+] and template literals use it. *)
Infix "+++" := String.append (right associativity, at level 60).

Set Implicit Arguments.

(* ================================================================== *)
(** * Host model: the JavaScript built-ins the engine calls            *)
(* ================================================================== *)

Module JS.

(** Template-literal rendering of an integer. *)
Definition ofZ (z : Z) : string := NilZero.string_of_int (Z.to_int z).

Definition ofNat (n : nat) : string := ofZ (Z.of_nat n).

(** [Array.prototype.join]. *)
Fixpoint join (sep : string) (l : list string) : string :=
  match l with
  | [] => ""
  | [x] => x
  | x :: rest => x +++ sep +++ join sep rest
  end.

(** [Array.prototype.slice(0, n)]. *)
Definition slice0 {A} (n : nat) (l : list A) : list A := firstn n l.

(** [[...new Set(l)]]: the distinct elements in order of first occurrence. *)
Definition setOf {A} (eqb : A -> A -> bool) (l : list A) : list A :=
  fold_left (fun acc x => if existsb (eqb x) acc then acc else acc ++ [x]) l [].

(** [Array.prototype.sort] is stable: [insertBy after x l] puts [x] in
    front of the first element it need not follow.  [after x y] is
    [compare(x, y) > 0]. *)
Fixpoint insertBy {A} (after : A -> A -> bool) (x : A) (l : list A) : list A :=
  match l with
  | [] => [x]
  | y :: l' => if after x y then y :: insertBy after x l' else x :: y :: l'
  end.

Definition sort {A} (after : A -> A -> bool) (l : list A) : list A :=
  fold_right (insertBy after) [] l.

(** ** Code units *)

Definition code (c : ascii) : N := N_of_ascii c.

Definition inRange (lo hi : N) (c : ascii) : bool :=
  ((lo <=? code c) && (code c <=? hi))%N.

Definition isUpper (c : ascii) : bool := inRange 65 90 c.
Definition isLower (c : ascii) : bool := inRange 97 122 c.
Definition isDigit (c : ascii) : bool := inRange 48 57 c.

(** [\w] *)
Definition isWord (c : ascii) : bool :=
  isUpper c || isLower c || isDigit c || (code c =? 95)%N.

(** Line terminators below 256: LF and CR. *)
Definition isLineTerminator (c : ascii) : bool :=
  (code c =? 10)%N || (code c =? 13)%N.

(** [\s] and the characters [trim] strips: TAB, LF, VT, FF, CR, SP, NBSP. *)
Definition isSpace (c : ascii) : bool :=
  inRange 9 13 c || (code c =? 32)%N || (code c =? 160)%N.

(** [toLowerCase] on one code unit: A-Z, and the Latin-1 capitals
    0xC0-0xDE other than the multiplication sign. *)
Definition lowerChar (c : ascii) : ascii :=
  if isUpper c || (inRange 192 222 c && negb (code c =? 215)%N)
  then ascii_of_N (code c + 32) else c.

(** Canonicalisation of the [i] flag for an ASCII pattern character. *)
Definition foldChar (c : ascii) : ascii :=
  if isUpper c then ascii_of_N (code c + 32) else c.

Fixpoint toLowerCase (s : string) : string :=
  match s with
  | EmptyString => EmptyString
  | String c s' => String (lowerChar c) (toLowerCase s')
  end.

(** [s.includes(w)] *)
Fixpoint includes (s w : string) : bool :=
  String.prefix w s ||
  match s with
  | EmptyString => false
  | String _ s' => includes s' w
  end.

Fixpoint trimStart (s : string) : string :=
  match s with
  | EmptyString => EmptyString
  | String c s' => if isSpace c then trimStart s' else s
  end.

Fixpoint rev (s : string) : string :=
  match s with
  | EmptyString => EmptyString
  | String c s' => rev s' +++ String c EmptyString
  end.

Definition trim (s : string) : string := rev (trimStart (rev (trimStart s))).

Definition substring0 (n : nat) (s : string) : string := String.substring 0 n s.

(** ** [Date], read in UTC *)

Definition msPerDay : Z := 24 * 60 * 60 * 1000.

(** Civil date (year, month, day) of a day number counted from the epoch. *)
Definition civil (days : Z) : Z * Z * Z :=
  let z := days + 719468 in
  let era := z / 146097 in
  let doe := z - era * 146097 in
  let yoe := (doe - doe / 1460 + doe / 36524 - doe / 146096) / 365 in
  let doy := doe - (365 * yoe + yoe / 4 - yoe / 100) in
  let mp := (5 * doy + 2) / 153 in
  let d := doy - (153 * mp + 2) / 5 + 1 in
  let m := if mp <? 10 then mp + 3 else mp - 9 in
  let y := yoe + era * 400 + (if m <=? 2 then 1 else 0) in
  (y, m, d).

(** [new Date(ts).getFullYear()] *)
Definition getFullYear (ts : Z) : Z := fst (fst (civil (ts / msPerDay))).

(** [new Date(year, 0, 1).getTime()] *)
Definition yearStart (year : Z) : Z :=
  let y := year - 1 in
  let era := y / 400 in
  let yoe := y - era * 400 in
  let doe := yoe * 365 + yoe / 4 - yoe / 100 + 306 in
  (era * 146097 + doe - 719468) * msPerDay.

(** [new Date(ts).toLocaleDateString()], en-US: M/D/YYYY. *)
Definition toLocaleDateString (ts : Z) : string :=
  let '(y, m, d) := civil (ts / msPerDay) in
  ofZ m +++ "/" +++ ofZ d +++ "/" +++ ofZ y.

(** [Array.prototype.slice(0, end)] for any integer [end]: a negative
    [end] counts from the end of the array. *)
Definition sliceTo {A} (endIndex : Z) (l : list A) : list A :=
  if endIndex <? 0 then firstn (length l - Z.to_nat (- endIndex)) l
  else firstn (Z.to_nat endIndex) l.

(** [s.replace(pattern, replacement)] with a string pattern: the first
    occurrence only.  The replacements of the source hold no [$]. *)
Fixpoint replaceFirst (pattern replacement s : string) : string :=
  if String.prefix pattern s
  then replacement +++ String.substring (String.length pattern)
                                        (String.length s - String.length pattern) s
  else match s with
       | EmptyString => EmptyString
       | String c s' => String c (replaceFirst pattern replacement s')
       end.

(** ** [JSON.stringify] *)

Definition hexDigit (n : N) : ascii :=
  if (n <? 10)%N then ascii_of_N (48 + n) else ascii_of_N (87 + n).

(** One code unit inside a JSON string. *)
Definition quoteChar (c : ascii) : string :=
  if (code c =? 34)%N then "\" +++ String c EmptyString
  else if (code c =? 92)%N then "\\"
  else if (code c =? 8)%N then "\b"
  else if (code c =? 12)%N then "\f"
  else if (code c =? 10)%N then "\n"
  else if (code c =? 13)%N then "\r"
  else if (code c =? 9)%N then "\t"
  else if (code c <? 32)%N
  then "\u00" +++ String (hexDigit (code c / 16)) (String (hexDigit (code c mod 16)) EmptyString)
  else String c EmptyString.

Fixpoint quoteChars (s : string) : string :=
  match s with
  | EmptyString => EmptyString
  | String c s' => quoteChar c +++ quoteChars s'
  end.

Definition quote : string := String (ascii_of_N 34) EmptyString.

(** [JSON.stringify] of a string. *)
Definition stringifyString (s : string) : string := quote +++ quoteChars s +++ quote.

(** [JSON.stringify] of an array of strings. *)
Definition stringifyStrings (l : list string) : string :=
  "[" +++ join "," (map stringifyString l) +++ "]".

(** ** More of [String] and [Date] *)

(** [s.split(sep)] for a separator of one character. *)
Fixpoint split (sep : ascii) (s : string) : list string :=
  match s with
  | EmptyString => [EmptyString]
  | String c s' =>
    if Ascii.eqb c sep then EmptyString :: split sep s'
    else match split sep s' with
         | x :: xs => String c x :: xs
         | [] => [String c EmptyString]
         end
  end.

(** The host's time zone, as [Date] sees it: [offsetAt t] is the offset of
    local time from UTC at the instant [t] (LocalTZA(t, true)), and
    [utcOf t] the instant that the local time [t] stands for (UTC(t)), which
    is the host's choice where local time is repeated or skipped. *)
Record Zone := {
  offsetAt : Z -> Z;
  utcOf : Z -> Z
}.

(** LocalTime(t) *)
Definition localTime (zone : Zone) (t : Z) : Z := t + offsetAt zone t.

(** The zone of a host that keeps UTC. *)
Definition utc : Zone := {| offsetAt := fun _ => 0; utcOf := fun t => t |}.

(** WeekDay(t): 0 is Sunday; the epoch was a Thursday. *)
Definition weekDay (t : Z) : Z := (t / msPerDay + 4) mod 7.

(** [new Date(ts).getDay()] *)
Definition getDay (zone : Zone) (ts : Z) : Z := weekDay (localTime zone ts).

(** [date.setDate(date.getDate() + 1)] on a date of time value [ts]: the
    same local time of day on the next day of the local calendar. *)
Definition setDateNext (zone : Zone) (ts : Z) : Z :=
  utcOf zone (localTime zone ts + msPerDay).

Fixpoint zeros (n : nat) : string :=
  match n with
  | O => EmptyString
  | S n' => String "0" (zeros n')
  end.

(** [String(z).padStart(width, '0')] for a number that is not negative. *)
Definition pad (width : nat) (z : Z) : string :=
  zeros (width - String.length (ofZ z)) +++ ofZ z.

(** [new Date(ts).toISOString()]; a year outside 0..9999 is written with a
    sign and six digits. *)
Definition toISOString (ts : Z) : string :=
  let '(y, m, d) := civil (ts / msPerDay) in
  let ms := ts mod msPerDay in
  (if (0 <=? y) && (y <=? 9999) then pad 4 y
   else (if y <? 0 then "-" else "+") +++ pad 6 (Z.abs y))
  +++ "-" +++ pad 2 m +++ "-" +++ pad 2 d
  +++ "T" +++ pad 2 (ms / 3600000)
  +++ ":" +++ pad 2 (ms / 60000 mod 60)
  +++ ":" +++ pad 2 (ms / 1000 mod 60)
  +++ "." +++ pad 3 (ms mod 1000) +++ "Z".

End JS.

(* ================================================================== *)
(** * types.ts                                                         *)
(* ================================================================== *)

Inductive Sentiment := positive | neutral | negative.

Inductive Channel := phone | sms | email | whatsapp | webchat | other.

Inductive Direction := inbound | outbound.

Inductive EntityType :=
  ETdate | ETtime | ETproduct | ETprice | ETperson | ETlocation | ETother.

Inductive Category := preference | commitment | objection | question | otherFact.

Record ExtractedEntity := {
  etype : EntityType;
  evalue : string;
  econfidence : Q
}.

Record Interaction := {
  id : string;
  timestamp : Z;
  channel : Channel;
  direction : Direction;
  summary : string;
  fullContent : option string;
  entities : list ExtractedEntity;
  sentiment : option Sentiment;
  topics : list string
}.

Record KeyFact := {
  kid : string;
  fact : string;
  source : string;
  confidence : Q;
  ktimestamp : Z;
  category : Category
}.

Record SentimentEntry := {
  htimestamp : Z;
  hsentiment : Sentiment;
  hscore : Z
}.

Record SentimentAnalysis := {
  overall : Sentiment;
  history : list SentimentEntry
}.

Record ContactMetadata := {
  name : string;
  memail : option string;
  mphone : option string;
  tags : list string;
  msource : string;
  firstSeen : Z;
  lastSeen : Z
}.

(** [Record<string, any>], with values kept as their JSON text. *)
Definition Preferences := list (string * string).

Record ContactMemoryEntry := {
  contactId : string;
  locationId : string;
  lastUpdated : Z;
  metadata : ContactMetadata;
  interactions : list Interaction;
  keyFacts : list KeyFact;
  preferences : Preferences;
  esentiment : SentimentAnalysis
}.

Record CompactionResult := {
  originalCount : nat;
  compactedCount : nat;
  summarized : nat;
  removed : Z
}.

Definition Sentiment_eqb (a b : Sentiment) : bool :=
  match a, b with
  | positive, positive | neutral, neutral | negative, negative => true
  | _, _ => false
  end.

Definition Channel_eqb (a b : Channel) : bool :=
  match a, b with
  | phone, phone | sms, sms | email, email
  | whatsapp, whatsapp | webchat, webchat | other, other => true
  | _, _ => false
  end.

Definition channelName (c : Channel) : string :=
  match c with
  | phone => "phone" | sms => "sms" | email => "email"
  | whatsapp => "whatsapp" | webchat => "webchat" | other => "other"
  end.

Definition sentimentName (s : Sentiment) : string :=
  match s with
  | positive => "positive" | neutral => "neutral" | negative => "negative"
  end.

Definition Category_eqb (a b : Category) : bool :=
  match a, b with
  | preference, preference | commitment, commitment | objection, objection
  | question, question | otherFact, otherFact => true
  | _, _ => false
  end.

(** [l.filter(Boolean)] on a list of possibly-undefined values. *)
Definition filterDefined {A} (l : list (option A)) : list A :=
  flat_map (fun o => match o with Some a => [a] | None => [] end) l.

Definition countOf (s : Sentiment) (l : list Sentiment) : nat :=
  length (filter (Sentiment_eqb s) l).

(* ================================================================== *)
(** * compaction.ts                                                    *)
(* ================================================================== *)

Module MemoryCompactor.

Definition maxAge : Z := 90 * 24 * 60 * 60 * 1000.
Definition maxInteractions : nat := 100.
Definition summaryThreshold : Z := 30 * 24 * 60 * 60 * 1000.

(** [getWeekKey] *)
Definition weekOf (ts : Z) : Z :=
  (ts - JS.yearStart (JS.getFullYear ts)) / (7 * 24 * 60 * 60 * 1000).

Definition getWeekKey (ts : Z) : string :=
  JS.ofZ (JS.getFullYear ts) +++ "-W" +++ JS.ofZ (weekOf ts).

(** [determineOverallSentiment] *)
Definition determineOverallSentiment (sentiments : list Sentiment) : Sentiment :=
  match sentiments with
  | [] => neutral
  | _ =>
    let cpos := countOf positive sentiments in
    let cneg := countOf negative sentiments in
    if (cneg <? cpos)%nat then positive
    else if (cpos <? cneg)%nat then negative
    else neutral
  end.

(** The [Map<string, Interaction[]>] of [summarizeInteractions], keys in
    insertion order: [groups.get(weekKey).push(interaction)], after
    [groups.set(weekKey, [])] when the key is new. *)
Definition Groups := list (string * list Interaction).

Fixpoint groupPush (weekKey : string) (i : Interaction) (groups : Groups) : Groups :=
  match groups with
  | [] => [(weekKey, [i])]
  | (k, g) :: rest =>
    if String.eqb k weekKey then (k, g ++ [i]) :: rest
    else (k, g) :: groupPush weekKey i rest
  end.

Definition groupByWeek (l : list Interaction) : Groups :=
  fold_left (fun groups i => groupPush (getWeekKey (timestamp i)) i groups) l [].

(** The summary interaction built for a group of more than one member;
    [first] is [groupInteractions[0]]. *)
Definition makeSummary (weekKey : string) (first : Interaction)
           (groupInteractions : list Interaction) : Interaction :=
  let channels := JS.setOf Channel_eqb (map channel groupInteractions) in
  let tpcs := JS.setOf String.eqb (flat_map topics groupInteractions) in
  let sentiments := filterDefined (map sentiment groupInteractions) in
  let overallSentiment := determineOverallSentiment sentiments in
  {| id := "summary_" +++ weekKey;
     timestamp := timestamp first;
     channel := other;
     direction := inbound;
     summary :=
       "Week of " +++ JS.toLocaleDateString (timestamp first) +++ ": "
       +++ JS.ofNat (length groupInteractions) +++ " interactions across "
       +++ JS.join ", " (map channelName channels) +++ ". Topics: "
       +++ JS.join ", " (JS.slice0 3 tpcs);
     fullContent := None;
     entities := [];
     sentiment := Some overallSentiment;
     topics := tpcs |}.

(** One turn of the loop over the groups: what it pushes on [summaries].
    A group is created by its first push, so it is never empty. *)
Definition summarizeGroup (entry : string * list Interaction) : list Interaction :=
  let '(weekKey, groupInteractions) := entry in
  match groupInteractions with
  | [] => []
  | [single] => [single]
  | first :: _ => [makeSummary weekKey first groupInteractions]
  end.

(** [summarizeInteractions] *)
Definition summarizeInteractions (l : list Interaction) : list Interaction :=
  match l with
  | [] => []
  | _ => flat_map summarizeGroup (groupByWeek l)
  end.

(** [interactions.sort((a, b) => b.timestamp - a.timestamp)] *)
Definition newestFirst (l : list Interaction) : list Interaction :=
  JS.sort (fun a b => 0 <? timestamp b - timestamp a) l.

(** One turn of the loop that fills [recent] and [old]. *)
Definition splitStep (now : Z) (st : list Interaction * list Interaction)
           (i : Interaction) : list Interaction * list Interaction :=
  let '(recent, old) := st in
  let age := now - timestamp i in
  if (age <? summaryThreshold) || (length recent <? 20)%nat
  then (recent ++ [i], old)
  else (recent, old ++ [i]).

Definition splitRecentOld (now : Z) (sorted : list Interaction)
  : list Interaction * list Interaction :=
  fold_left (splitStep now) sorted ([], []).

Definition toKeepOf (now : Z) (old : list Interaction) : list Interaction :=
  filter (fun i => now - timestamp i <? maxAge) old.

(** The locals of [compact], as functions of its argument and of its
    reading of the clock: [recent], [old], [toKeep], the week groups that
    [summarizeInteractions] forms from [toKeep], and [compacted]. *)
Definition recentOf (now : Z) (l : list Interaction) : list Interaction :=
  fst (splitRecentOld now (newestFirst l)).

Definition oldOf (now : Z) (l : list Interaction) : list Interaction :=
  snd (splitRecentOld now (newestFirst l)).

Definition keptOld (now : Z) (l : list Interaction) : list Interaction :=
  toKeepOf now (oldOf now l).

Definition weekGroups (now : Z) (l : list Interaction) : Groups :=
  groupByWeek (keptOld now l).

Definition compacted (now : Z) (l : list Interaction) : list Interaction :=
  let '(recent, old) := splitRecentOld now (newestFirst l) in
  recent ++ summarizeInteractions (toKeepOf now old).

(** The local [final] of [compact]: the set the compaction keeps. *)
Definition final (now : Z) (l : list Interaction) : list Interaction :=
  JS.slice0 maxInteractions (compacted now l).

(** [compact].  The source sorts its argument in place and returns the
    counts alone; the second component is the caller's array after the
    call. *)
Definition compact (now : Z) (l : list Interaction)
  : CompactionResult * list Interaction :=
  let original := length l in
  let sorted := newestFirst l in
  let '(recent, old) := splitRecentOld now sorted in
  let toKeep := toKeepOf now old in
  let removed0 := Z.of_nat (length old) - Z.of_nat (length toKeep) in
  let summaries := summarizeInteractions toKeep in
  let compacted := recent ++ summaries in
  let final := JS.slice0 maxInteractions compacted in
  ({| originalCount := original;
      compactedCount := length final;
      summarized := length summaries;
      removed := removed0
                 + (Z.of_nat (length compacted) - Z.of_nat (length final)) |},
   sorted).

(** [shouldCompact] *)
Definition shouldCompact (now : Z) (l : list Interaction) : bool :=
  if (length l <? maxInteractions)%nat then false
  else
    let old := filter (fun i => summaryThreshold <? now - timestamp i) l in
    (20 <? length old)%nat.

End MemoryCompactor.

(* ================================================================== *)
(** * Host model: regular expressions                                  *)
(* ================================================================== *)

(** A backtracking matcher for the fragment of JavaScript regular
    expressions that indexer.ts uses: literals, the classes [\d], [\s] and
    [.], sequence, alternation, greedy and lazy quantifiers, one capture
    group, [\b], [$], and the flags [g] and [i]. *)
Module Regex.

Inductive re :=
| Lit (c : ascii)
| Class (p : ascii -> bool)
| Empty
| Seq (r1 r2 : re)
| Alt (r1 r2 : re)
| Quant (greedy : bool) (lo : nat) (hi : option nat) (r : re)
| Group (r : re)
| WordBoundary
| EndOfInput.

(** A position of the matcher: the character before it, the input that
    remains and the text captured by the group so far. *)
Record MState := {
  before : option ascii;
  rest : list ascii;
  cap : option (list ascii)
}.

Definition step (s : MState) (c : ascii) (rest' : list ascii) : MState :=
  {| before := Some c; rest := rest'; cap := cap s |}.

Definition sameChar (icase : bool) (c x : ascii) : bool :=
  if icase then Ascii.eqb (JS.foldChar c) (JS.foldChar x) else Ascii.eqb c x.

Definition isWordAt (o : option ascii) : bool :=
  match o with Some c => JS.isWord c | None => false end.

Definition consumed (s s' : MState) : list ascii :=
  firstn (length (rest s) - length (rest s')) (rest s).

Definition belowMax (n : nat) (hi : option nat) : bool :=
  match hi with Some h => (n <? h)%nat | None => true end.

Fixpoint run (icase : bool) (r : re) (s : MState)
         (k : MState -> option MState) {struct r} : option MState :=
  match r with
  | Lit c =>
    match rest s with
    | x :: xs => if sameChar icase c x then k (step s x xs) else None
    | [] => None
    end
  | Class p =>
    match rest s with
    | x :: xs => if p x then k (step s x xs) else None
    | [] => None
    end
  | Empty => k s
  | Seq r1 r2 => run icase r1 s (fun s' => run icase r2 s' k)
  | Alt r1 r2 =>
    match run icase r1 s k with
    | Some m => Some m
    | None => run icase r2 s k
    end
  | Quant greedy lo hi r0 =>
    (fix loop (fuel n : nat) (s : MState) {struct fuel} : option MState :=
       match fuel with
       | O => if (lo <=? n)%nat then k s else None
       | S fuel' =>
         let again (_ : unit) :=
           if belowMax n hi then
             run icase r0 s (fun s' =>
               if (lo <=? n)%nat && (length (rest s) <=? length (rest s'))%nat
               then None
               else loop fuel' (S n) s')
           else None in
         let done (_ : unit) := if (lo <=? n)%nat then k s else None in
         if greedy then
           match again tt with Some m => Some m | None => done tt end
         else
           match done tt with Some m => Some m | None => again tt end
       end) (S (length (rest s)) + lo)%nat O s
  | Group r0 =>
    run icase r0 s (fun s' =>
      k {| before := before s'; rest := rest s'; cap := Some (consumed s s') |})
  | WordBoundary =>
    if xorb (isWordAt (before s)) (isWordAt (hd_error (rest s))) then k s else None
  | EndOfInput =>
    match rest s with
    | [] => k s
    | _ :: _ => None
    end
  end.

(** One element of [matchAll]: [match[0]] and [match[1]]. *)
Record Match := {
  whole : string;
  group1 : option string
}.

Definition matchAt (icase : bool) (r : re) (before : option ascii)
           (rest : list ascii) : option (Match * nat) :=
  let s0 := {| before := before; rest := rest; cap := None |} in
  match run icase r s0 Some with
  | Some s' =>
    Some ({| whole := string_of_list_ascii (consumed s0 s');
             group1 := option_map string_of_list_ascii (cap s') |},
          length (consumed s0 s'))
  | None => None
  end.

(** The [g] flag: the next search starts where the last match ended, one
    character further after an empty match.  [skip] counts the characters
    left inside the last match. *)
Fixpoint scan (icase : bool) (r : re) (before : option ascii)
         (rest : list ascii) (skip : nat) {struct rest} : list Match :=
  match skip with
  | S skip' =>
    match rest with
    | [] => []
    | c :: rest' => scan icase r (Some c) rest' skip'
    end
  | O =>
    match matchAt icase r before rest with
    | Some (m, n) =>
      m :: match rest with
           | [] => []
           | c :: rest' => scan icase r (Some c) rest' (pred n)
           end
    | None =>
      match rest with
      | [] => []
      | c :: rest' => scan icase r (Some c) rest' O
      end
    end
  end.

(** [text.matchAll(pattern)] *)
Definition matchAll (icase : bool) (r : re) (text : string) : list Match :=
  scan icase r None (list_ascii_of_string text) O.

(** ** Pattern builders *)

Fixpoint lit (s : string) : re :=
  match s with
  | EmptyString => Empty
  | String c EmptyString => Lit c
  | String c s' => Seq (Lit c) (lit s')
  end.

Fixpoint alts (l : list string) : re :=
  match l with
  | [] => Empty
  | [s] => lit s
  | s :: rest => Alt (lit s) (alts rest)
  end.

Fixpoint seqs (l : list re) : re :=
  match l with
  | [] => Empty
  | [r] => r
  | r :: rest => Seq r (seqs rest)
  end.

Definition digit : re := Class JS.isDigit.
Definition space : re := Class JS.isSpace.
Definition dot : re := Class (fun c => negb (JS.isLineTerminator c)).
Definition plus (r : re) : re := Quant true 1 None r.
Definition star (r : re) : re := Quant true 0 None r.
Definition lazyPlus (r : re) : re := Quant false 1 None r.
Definition opt (r : re) : re := Quant true 0 (Some 1%nat) r.
Definition times (lo hi : nat) (r : re) : re := Quant true lo (Some hi) r.

End Regex.

(* ================================================================== *)
(** * gohighlevel/types.ts and conversations.ts                        *)
(* ================================================================== *)

(** [GHLMessage]; [dateAdded] holds [new Date(dateAdded).getTime()], and
    the optional attachments, which the engine never reads, are left out. *)
Record GHLMessage := {
  gid : string;
  conversationId : string;
  gtype : string;
  body : string;
  gdirection : Direction;
  status : string;
  dateAdded : Z
}.

(** [GHLContact]; the two dates hold [new Date(...).getTime()]. *)
Record GHLContact := {
  cid : string;
  clocationId : string;
  contactName : option string;
  firstName : option string;
  lastName : option string;
  cemail : option string;
  cphone : option string;
  ctags : option (list string);
  customFields : option Preferences;
  csource : option string;
  cdateAdded : option Z;
  cdateUpdated : option Z
}.

Module GHLConversations.

(** [getAllContactMessages]: the messages of every conversation of the
    contact, as [getMessages] returned them, concatenated and sorted
    newest first.  The [limit] is handed to each [getMessages] call and
    bounds one conversation, not the total. *)
Definition getAllContactMessages (perConversation : list (list GHLMessage))
  : list GHLMessage :=
  JS.sort (fun a b => 0 <? dateAdded b - dateAdded a) (concat perConversation).

End GHLConversations.

(* ================================================================== *)
(** * indexer.ts                                                       *)
(* ================================================================== *)

Module ContactMemoryIndexer.

Import Regex.

Definition weekdays : list string :=
  ["monday"; "tuesday"; "wednesday"; "thursday"; "friday"; "saturday"; "sunday"].

Definition relativeDays : list string :=
  ["tomorrow"; "today"; "next week"; "next month"].

(** The three [datePatterns], each with its [i] flag. *)
Definition datePatterns : list (bool * re) :=
  [ (true, seqs [WordBoundary; alts weekdays; WordBoundary]);
    (true, seqs [WordBoundary; alts relativeDays; WordBoundary]);
    (false, seqs [WordBoundary; times 1 2 digit; Lit "/"; times 1 2 digit;
                  opt (Seq (Lit "/") (times 2 4 digit)); WordBoundary]) ].

Definition timePattern : re :=
  seqs [WordBoundary; times 1 2 digit; Lit ":"; times 2 2 digit; star space;
        opt (alts ["am"; "pm"]); WordBoundary].

Definition pricePattern : re :=
  seqs [Lit "$"; plus digit;
        star (Seq (Lit ",") (times 3 3 digit));
        opt (Seq (Lit ".") (times 2 2 digit))].

Definition entityOf (t : EntityType) (c : Q) (m : Match) : ExtractedEntity :=
  {| etype := t; evalue := whole m; econfidence := c |}.

(** [extractEntities] *)
Definition extractEntities (text : string) : list ExtractedEntity :=
  flat_map (fun p => map (entityOf ETdate (8 # 10)) (matchAll (fst p) (snd p) text))
           datePatterns
  ++ map (entityOf ETtime (8 # 10)) (matchAll true timePattern text)
  ++ map (entityOf ETprice (9 # 10)) (matchAll false pricePattern text).

Definition topicKeywords : list (string * list string) :=
  [ ("pricing", ["price"; "cost"; "pricing"; "quote"; "estimate"; "budget";
                 "expensive"; "cheap"]);
    ("scheduling", ["appointment"; "schedule"; "meeting"; "book"; "calendar";
                    "available"]);
    ("support", ["help"; "issue"; "problem"; "question"; "support"; "assist"]);
    ("product", ["product"; "service"; "feature"; "plan"; "package"]);
    ("billing", ["bill"; "invoice"; "payment"; "charge"; "subscription"]) ].

(** [extractTopics] *)
Definition extractTopics (text : string) : list string :=
  let lowerText := JS.toLowerCase text in
  let found :=
    flat_map (fun e => if existsb (JS.includes lowerText) (snd e)
                       then [fst e] else [])
             topicKeywords in
  JS.setOf String.eqb found.

Definition positiveWords : list string :=
  ["thank"; "great"; "excellent"; "perfect"; "happy"; "love"; "amazing"].

Definition negativeWords : list string :=
  ["bad"; "terrible"; "awful"; "hate"; "frustrated"; "angry"; "disappointed"].

(** [analyzeSentiment] *)
Definition analyzeSentiment (text : string) : Sentiment :=
  let lowerText := JS.toLowerCase text in
  let up := fold_left (fun score w => if JS.includes lowerText w then score + 1 else score)
                      positiveWords 0 in
  let score := fold_left (fun score w => if JS.includes lowerText w then score - 1 else score)
                         negativeWords up in
  if 0 <? score then positive
  else if score <? 0 then negative
  else neutral.

(** [summarizeMessage] *)
Definition summarizeMessage (text : string) : string :=
  if (String.length text <=? 100)%nat then text
  else JS.substring0 97 text +++ "...".

Definition typeMap : list (string * Channel) :=
  [ ("SMS", sms); ("Email", email); ("WhatsApp", whatsapp);
    ("Live_Chat", webchat); ("Custom", other); ("GMB", other);
    ("FB", other); ("Instagram", other) ].

Fixpoint lookup {A} (key : string) (table : list (string * A)) : option A :=
  match table with
  | [] => None
  | (k, v) :: rest => if String.eqb k key then Some v else lookup key rest
  end.

(** [mapChannelType]: [typeMap[ghlType] || 'other'], for the labels of
    [GHLMessage.type] and any other label that names no property of
    [Object.prototype]. *)
Definition mapChannelType (ghlType : string) : Channel :=
  match lookup ghlType typeMap with
  | Some c => c
  | None => other
  end.

(** [`${x}`] for a possibly-undefined string. *)
Definition render (o : option string) : string :=
  match o with
  | Some v => v
  | None => "undefined"
  end.

(** [a || b] on strings: the empty string is falsy. *)
Definition orElse (a : option string) (b : string) : string :=
  match a with
  | Some (String c v) => String c v
  | _ => b
  end.

(** [Partial<ContactMemoryEntry>], as [indexContact] fills it. *)
Record IndexedContact := {
  xContactId : string;
  xLocationId : string;
  xLastUpdated : Z;
  xMetadata : ContactMetadata;
  xPreferences : Preferences
}.

(** The name of [indexContact]:
    [contact.contactName || `${firstName} ${lastName}`.trim() || 'Unknown']. *)
Definition contactDisplayName (contact : GHLContact) : string :=
  orElse (contactName contact)
         (orElse (Some (JS.trim (render (firstName contact) +++ " "
                                 +++ render (lastName contact))))
                 "Unknown").

(** [indexContact]; [now] is its [Date.now()]. *)
Definition indexContact (now : Z) (contact : GHLContact) : IndexedContact :=
  {| xContactId := cid contact;
     xLocationId := clocationId contact;
     xLastUpdated := now;
     xMetadata :=
       {| name := contactDisplayName contact;
          memail := cemail contact;
          mphone := cphone contact;
          tags := match ctags contact with Some t => t | None => [] end;
          msource := orElse (csource contact) "unknown";
          firstSeen := match cdateAdded contact with Some t => t | None => now end;
          lastSeen := match cdateUpdated contact with Some t => t | None => now end |};
     xPreferences := match customFields contact with Some f => f | None => [] end |}.

(** [indexMessage] *)
Definition indexMessage (message : GHLMessage) : Interaction :=
  {| id := gid message;
     timestamp := dateAdded message;
     channel := mapChannelType (gtype message);
     direction := gdirection message;
     summary := summarizeMessage (body message);
     fullContent := Some (body message);
     entities := extractEntities (body message);
     sentiment := Some (analyzeSentiment (body message));
     topics := extractTopics (body message) |}.

(** [indexMessages] *)
Definition indexMessages (messages : list GHLMessage) : list Interaction :=
  map indexMessage messages.

(** The clause after a lead-in phrase, up to the first full stop or the
    end of the text: [(?:a|b|...)\s+(.+?)(?:\.|$)], flags [gi]. *)
Definition clausePattern (leads : list string) : re :=
  seqs [alts leads; plus space; Group (lazyPlus dot); Alt (Lit ".") EndOfInput].

Definition commitmentPatterns : list re :=
  [ clausePattern ["I'll"; "I will"; "let me"; "I can"];
    clausePattern ["we'll"; "we will"] ].

Definition preferencePatterns : list re :=
  [ clausePattern ["I prefer"; "I like"; "I want"; "I need"];
    clausePattern ["prefer"; "like"; "want"; "need"] ].

Definition objectionWords : list string :=
  ["but"; "however"; "concern"; "worried"; "expensive"; "too much"].

(** [interaction.fullContent?.matchAll(pattern) || []], each match
    reduced to [match[1]?.trim()]. *)
Definition clauses (content : option string) (pattern : re) : list string :=
  match content with
  | None => []
  | Some text =>
    flat_map (fun m => match group1 m with
                       | Some c => [JS.trim c]
                       | None => []
                       end)
             (matchAll true pattern text)
  end.

(** [c && c.length > 5 && c.length < 200] *)
Definition acceptable (c : string) : bool :=
  (5 <? String.length c)%nat && (String.length c <? 200)%nat.

(** A fact that still waits for its [nanoid()]. *)
Definition Pending := string -> KeyFact.

Definition pendingFact (prefix text : string) (i : Interaction) (c : Q)
           (cat : Category) : Pending :=
  fun newId =>
    {| kid := newId; fact := prefix +++ text; source := id i; confidence := c;
       ktimestamp := timestamp i; category := cat |}.

Definition commitmentFacts (i : Interaction) : list Pending :=
  flat_map (fun pattern =>
              map (fun c => pendingFact "Commitment: " c i (7 # 10) commitment)
                  (filter acceptable (clauses (fullContent i) pattern)))
           commitmentPatterns.

Definition preferenceFacts (i : Interaction) : list Pending :=
  flat_map (fun pattern =>
              map (fun c => pendingFact "Preference: " c i (6 # 10) preference)
                  (filter acceptable (clauses (fullContent i) pattern)))
           preferencePatterns.

(** The loop over [objectionWords], left by [break] at the first hit. *)
Fixpoint firstObjection (text : string) (words : list string) (i : Interaction)
  : list Pending :=
  match words with
  | [] => []
  | word :: rest =>
    if JS.includes text word
    then [pendingFact "Potential objection mentioned: " word i (5 # 10) objection]
    else firstObjection text rest i
  end.

(** [interaction.fullContent?.toLowerCase() || ''] *)
Definition objectionText (i : Interaction) : string :=
  match fullContent i with
  | Some t => JS.toLowerCase t
  | None => ""
  end.

Definition objectionFacts (i : Interaction) : list Pending :=
  firstObjection (objectionText i) objectionWords i.

(** The body of the loop over the interactions. *)
Definition interactionFacts (i : Interaction) : list Pending :=
  commitmentFacts i ++ preferenceFacts i ++ objectionFacts i.

(** Each push takes the next result of [nanoid()]. *)
Fixpoint assignIds (nanoid : nat -> string) (n : nat) (l : list Pending)
  : list KeyFact :=
  match l with
  | [] => []
  | p :: rest => p (nanoid n) :: assignIds nanoid (S n) rest
  end.

(** [extractKeyFacts]; [nanoid n] is the result of the [n]-th call of
    [nanoid()]. *)
Definition extractKeyFacts (nanoid : nat -> string) (l : list Interaction)
           (contactId : string) : list KeyFact :=
  assignIds nanoid 0 (flat_map interactionFacts l).

End ContactMemoryIndexer.

(* ================================================================== *)
(** * retrieval.ts                                                     *)
(* ================================================================== *)

Module MemoryRetrieval.

Definition maxAge : Z := 90 * 24 * 60 * 60 * 1000.

Definition recency (now : Z) (i : Interaction) : Q :=
  let age := now - timestamp i in
  ((5 # 10) * (1 - Qmin (inject_Z age / inject_Z maxAge) 1))%Q.

Definition overlap (i : Interaction) (currentTopics : list string) : nat :=
  length (filter (fun t => existsb (String.eqb t) currentTopics) (topics i)).

Definition topicScore (i : Interaction) (currentTopics : list string) : Q :=
  if (0 <? length currentTopics)%nat && (0 <? length (topics i))%nat
  then ((3 # 10) * (inject_Z (Z.of_nat (overlap i currentTopics))
                    / inject_Z (Z.of_nat (length currentTopics))))%Q
  else 0%Q.

Definition sentimentScore (i : Interaction) : Q :=
  match sentiment i with
  | Some positive => 2 # 10
  | Some negative => 1 # 10
  | _ => 0
  end.

(** [calculateRelevance] *)
Definition calculateRelevance (now : Z) (i : Interaction)
           (currentTopics : list string) : Q :=
  (0 + recency now i + topicScore i currentTopics + sentimentScore i)%Q.

(** [MemoryQueryOptions]; [None] is a field left [undefined]. *)
Record MemoryQueryOptions := {
  optMaxInteractions : option Z;
  optMaxAge : option Z;
  optChannels : option (list string);
  optIncludeFullContent : option bool;
  optMinConfidence : option Q
}.

(** [options = {}] *)
Definition noOptions : MemoryQueryOptions :=
  {| optMaxInteractions := None; optMaxAge := None; optChannels := None;
     optIncludeFullContent := None; optMinConfidence := None |}.

(** [MemoryContext] *)
Record MemoryContext := {
  cContactId : string;
  cSummary : string;
  recentInteractions : list Interaction;
  cKeyFacts : list KeyFact;
  cPreferences : Preferences;
  cSentiment : SentimentAnalysis;
  recommendations : list string
}.

(** The readings of [Date.now()] during one [assembleContext], in program
    order: in the age filter, in [generateSummary] and in
    [generateRecommendations]. *)
Record ContextClock := {
  atFilter : Z;
  atSummary : Z;
  atRecommendations : Z
}.

Definition msPerDay : Z := 24 * 60 * 60 * 1000.

(** [Math.floor((now - timestamp) / (24 * 60 * 60 * 1000))] *)
Definition daysSince (now : Z) (i : Interaction) : Z :=
  (now - timestamp i) / msPerDay.

Definition factsOf (c : Category) (l : list KeyFact) : list KeyFact :=
  filter (fun f => Category_eqb (category f) c) l.

(** The defaults of the destructured options. *)
Definition maxInteractionsOf (o : MemoryQueryOptions) : Z :=
  match optMaxInteractions o with Some n => n | None => 10 end.

Definition maxAgeOf (o : MemoryQueryOptions) : Z :=
  match optMaxAge o with Some a => a | None => 30 * 24 * 60 * 60 * 1000 end.

Definition minConfidenceOf (o : MemoryQueryOptions) : Q :=
  match optMinConfidence o with Some c => c | None => 5 # 10 end.

(** [if (maxAge) { ... filter(i => i.timestamp >= cutoff) }] *)
Definition filterByAge (now : Z) (o : MemoryQueryOptions) (l : list Interaction)
  : list Interaction :=
  if maxAgeOf o =? 0 then l
  else
    let cutoff := now - maxAgeOf o in
    filter (fun i => cutoff <=? timestamp i) l.

(** [if (channels && channels.length > 0) { ... filter(i => channels.includes(i.channel)) }] *)
Definition filterByChannel (o : MemoryQueryOptions) (l : list Interaction)
  : list Interaction :=
  match optChannels o with
  | Some (c :: cs) =>
    filter (fun i => existsb (String.eqb (channelName (channel i))) (c :: cs)) l
  | _ => l
  end.

(** The interactions of the context: filtered, sorted newest first, and
    cut at [maxInteractions]. *)
Definition selectInteractions (now : Z) (o : MemoryQueryOptions)
           (l : list Interaction) : list Interaction :=
  JS.sliceTo (maxInteractionsOf o)
    (JS.sort (fun a b => 0 <? timestamp b - timestamp a)
             (filterByChannel o (filterByAge now o l))).

(** The key facts of the context. *)
Definition selectKeyFacts (o : MemoryQueryOptions) (l : list KeyFact) : list KeyFact :=
  JS.slice0 10
    (JS.sort (fun a b => match (confidence a ?= confidence b)%Q with
                         | Lt => true
                         | _ => false
                         end)
             (filter (fun f => Qle_bool (minConfidenceOf o) (confidence f)) l)).

(** [generateSummary] *)
Definition generateSummary (now : Z) (memory : ContactMemoryEntry)
           (l : list Interaction) (facts : list KeyFact) : string :=
  let contact :=
    match l with
    | [] => ""
    | lastInteraction :: _ =>
      let daysSinceLastContact := daysSince now lastInteraction in
      (if daysSinceLastContact =? 0 then "contacted you today"
       else if daysSinceLastContact =? 1 then "contacted you yesterday"
       else if daysSinceLastContact <? 7
       then "contacted you " +++ JS.ofZ daysSinceLastContact +++ " days ago"
       else "last contacted you " +++ JS.ofZ (daysSinceLastContact / 7) +++ " weeks ago")
      +++ " via " +++ channelName (channel lastInteraction)
    end in
  let commitments := factsOf commitment facts in
  let open :=
    match facts, commitments with
    | _ :: _, _ :: _ => " " +++ JS.ofNat (length commitments) +++ " open commitment(s)."
    | _, _ => ""
    end in
  name (metadata memory) +++ " " +++ contact
  +++ ". Overall sentiment: " +++ sentimentName (overall (esentiment memory)) +++ "."
  +++ open.

(** The five checks of [generateRecommendations], in the order of the
    source; each gives its recommendation or nothing. *)
Definition commitmentAdvice (facts : list KeyFact) : list string :=
  match factsOf commitment facts with
  | first :: _ =>
    ["Reference previous commitments: "
     +++ JS.replaceFirst "Commitment: " "" (fact first)]
  | [] => []
  end.

Definition objectionAdvice (facts : list KeyFact) : list string :=
  match factsOf objection facts with
  | _ :: _ => ["Address previously mentioned concerns"]
  | [] => []
  end.

Definition preferenceAdvice (facts : list KeyFact) : list string :=
  match factsOf preference facts with
  | first :: _ =>
    ["Align with preferences: " +++ JS.replaceFirst "Preference: " "" (fact first)]
  | [] => []
  end.

Definition negativeCount (h : list SentimentEntry) : nat :=
  length (filter (fun e => Sentiment_eqb (hsentiment e) negative) (JS.slice0 3 h)).

Definition sentimentAdvice (memory : ContactMemoryEntry) : list string :=
  let h := history (esentiment memory) in
  if (3 <=? length h)%nat && (2 <=? negativeCount h)%nat
  then ["Exercise extra care - recent negative sentiment detected"]
  else [].

Definition gapAdvice (now : Z) (l : list Interaction) : list string :=
  match l with
  | first :: _ =>
    if 14 <? daysSince now first
    then ["It has been a while since last contact - acknowledge the gap"]
    else []
  | [] => []
  end.

(** [generateRecommendations] *)
Definition generateRecommendations (now : Z) (memory : ContactMemoryEntry)
           (l : list Interaction) (facts : list KeyFact) : list string :=
  commitmentAdvice facts ++ objectionAdvice facts ++ preferenceAdvice facts
  ++ sentimentAdvice memory ++ gapAdvice now l.

(** [assembleContext].  When no filter applies the source sorts
    [memory.interactions] itself, in place; the context is the same. *)
Definition assembleContext (clock : ContextClock) (memory : ContactMemoryEntry)
           (o : MemoryQueryOptions) : MemoryContext :=
  let l := selectInteractions (atFilter clock) o (interactions memory) in
  let facts := selectKeyFacts o (keyFacts memory) in
  {| cContactId := contactId memory;
     cSummary := generateSummary (atSummary clock) memory l facts;
     recentInteractions := l;
     cKeyFacts := facts;
     cPreferences := preferences memory;
     cSentiment := esentiment memory;
     recommendations :=
       generateRecommendations (atRecommendations clock) memory l facts |}.

End MemoryRetrieval.

(* ================================================================== *)
(** * schema.ts and the SQL statements of index.ts                     *)
(* ================================================================== *)

(** The three tables of [CONTACT_MEMORY_SCHEMA].  A column that holds
    [JSON.stringify] of a value holds the value here, [JSON.parse] giving it
    back.  Rows are kept in insertion (rowid) order. *)
Module Schema.

Record ContactMemoryRow := {
  contact_id : string;
  location_id : string;
  last_updated : Z;
  rmetadata : ContactMetadata;
  rpreferences : Preferences;
  rsentiment : SentimentAnalysis;
  created_at : Z
}.

Record InteractionRow := {
  iid : string;
  icontact_id : string;
  itimestamp : Z;
  ichannel : Channel;
  idirection : Direction;
  isummary : string;
  full_content : option string;
  ientities : list ExtractedEntity;
  isentiment : option Sentiment;
  itopics : list string
}.

Record KeyFactRow := {
  fid : string;
  fcontact_id : string;
  ffact : string;
  fsource : string;
  fconfidence : Q;
  ftimestamp : Z;
  fcategory : Category
}.

(** A connection: the tables, and whether the connection enforces the
    [FOREIGN KEY] clauses of the schema ([PRAGMA foreign_keys]), which
    index.ts leaves as the driver set it. *)
Record Database := {
  foreign_keys : bool;
  contact_memory : list ContactMemoryRow;
  interactionsT : list InteractionRow;
  key_facts : list KeyFactRow
}.

Inductive SqliteError :=
| PrimaryKeyConstraint
| ForeignKeyConstraint.

Definition hasContact (cid : string) (d : Database) : bool :=
  existsb (fun r => String.eqb (contact_id r) cid) (contact_memory d).

(** [INSERT OR REPLACE INTO contact_memory ...]: the row with the same
    primary key, if any, is deleted and the new row inserted. *)
Definition insertOrReplaceContact (row : ContactMemoryRow) (d : Database)
  : SqliteError + Database :=
  inr {| foreign_keys := foreign_keys d;
         contact_memory :=
           filter (fun r => negb (String.eqb (contact_id r) (contact_id row)))
                  (contact_memory d) ++ [row];
         interactionsT := interactionsT d;
         key_facts := key_facts d |}.

(** [DELETE FROM interactions WHERE contact_id = ?] *)
Definition deleteInteractions (cid : string) (d : Database)
  : SqliteError + Database :=
  inr {| foreign_keys := foreign_keys d;
         contact_memory := contact_memory d;
         interactionsT :=
           filter (fun r => negb (String.eqb (icontact_id r) cid)) (interactionsT d);
         key_facts := key_facts d |}.

(** [DELETE FROM key_facts WHERE contact_id = ?] *)
Definition deleteKeyFacts (cid : string) (d : Database)
  : SqliteError + Database :=
  inr {| foreign_keys := foreign_keys d;
         contact_memory := contact_memory d;
         interactionsT := interactionsT d;
         key_facts :=
           filter (fun r => negb (String.eqb (fcontact_id r) cid)) (key_facts d) |}.

(** [INSERT INTO interactions ...]: [id] is the primary key of the table,
    and [contact_id] references [contact_memory]. *)
Definition insertInteraction (row : InteractionRow) (d : Database)
  : SqliteError + Database :=
  if existsb (fun r => String.eqb (iid r) (iid row)) (interactionsT d)
  then inl PrimaryKeyConstraint
  else if foreign_keys d && negb (hasContact (icontact_id row) d)
  then inl ForeignKeyConstraint
  else inr {| foreign_keys := foreign_keys d;
              contact_memory := contact_memory d;
              interactionsT := interactionsT d ++ [row];
              key_facts := key_facts d |}.

(** [INSERT INTO key_facts ...] *)
Definition insertKeyFact (row : KeyFactRow) (d : Database)
  : SqliteError + Database :=
  if existsb (fun r => String.eqb (fid r) (fid row)) (key_facts d)
  then inl PrimaryKeyConstraint
  else if foreign_keys d && negb (hasContact (fcontact_id row) d)
  then inl ForeignKeyConstraint
  else inr {| foreign_keys := foreign_keys d;
              contact_memory := contact_memory d;
              interactionsT := interactionsT d;
              key_facts := key_facts d ++ [row] |}.

(** [UPDATE contact_memory SET last_updated = ? WHERE contact_id = ?] *)
Definition updateLastUpdated (now : Z) (cid : string) (d : Database)
  : SqliteError + Database :=
  inr {| foreign_keys := foreign_keys d;
         contact_memory :=
           map (fun r =>
                  if String.eqb (contact_id r) cid
                  then {| contact_id := contact_id r;
                          location_id := location_id r;
                          last_updated := now;
                          rmetadata := rmetadata r;
                          rpreferences := rpreferences r;
                          rsentiment := rsentiment r;
                          created_at := created_at r |}
                  else r)
               (contact_memory d);
         interactionsT := interactionsT d;
         key_facts := key_facts d |}.

(** [SELECT * FROM contact_memory WHERE contact_id = ?], [.get] *)
Definition selectContact (cid : string) (d : Database) : option ContactMemoryRow :=
  find (fun r => String.eqb (contact_id r) cid) (contact_memory d).

(** [SELECT * FROM interactions WHERE contact_id = ? ORDER BY timestamp DESC] *)
Definition selectInteractions (cid : string) (d : Database) : list InteractionRow :=
  JS.sort (fun a b => itimestamp a <? itimestamp b)
          (filter (fun r => String.eqb (icontact_id r) cid) (interactionsT d)).

(** [SELECT * FROM key_facts WHERE contact_id = ? ORDER BY confidence DESC] *)
Definition selectKeyFacts (cid : string) (d : Database) : list KeyFactRow :=
  JS.sort (fun a b => match (fconfidence a ?= fconfidence b)%Q with
                      | Lt => true
                      | _ => false
                      end)
          (filter (fun r => String.eqb (fcontact_id r) cid) (key_facts d)).

(** The text of the [metadata] column: [JSON.stringify(memory.metadata)],
    the properties in the order in which the source writes them, an
    [undefined] one left out. *)
Definition property (key value : string) : string :=
  JS.stringifyString key +++ ":" +++ value.

Definition optionalProperty (key : string) (value : option string) : list string :=
  match value with
  | Some v => [property key (JS.stringifyString v)]
  | None => []
  end.

Definition metadataText (m : ContactMetadata) : string :=
  "{" +++ JS.join ","
            ([property "name" (JS.stringifyString (name m))]
             ++ optionalProperty "email" (memail m)
             ++ optionalProperty "phone" (mphone m)
             ++ [property "tags" (JS.stringifyStrings (tags m));
                 property "source" (JS.stringifyString (msource m));
                 property "firstSeen" (JS.ofZ (firstSeen m));
                 property "lastSeen" (JS.ofZ (lastSeen m))])
      +++ "}".

(** The [LIKE] operator of SQLite: [%] stands for any run of characters,
    [_] for any one character, and ASCII letters match in either case. *)
Fixpoint like (pattern text : list ascii) {struct pattern} : bool :=
  match pattern with
  | [] => match text with [] => true | _ :: _ => false end
  | p :: pattern' =>
    if (JS.code p =? 37)%N then
      (fix anywhere (t : list ascii) : bool :=
         like pattern' t
         || match t with
            | [] => false
            | _ :: t' => anywhere t'
            end) text
    else
      match text with
      | [] => false
      | c :: text' =>
        ((JS.code p =? 95)%N || Ascii.eqb (JS.foldChar p) (JS.foldChar c))
        && like pattern' text'
      end
  end.

(** [SELECT * FROM contact_memory WHERE metadata LIKE ? ORDER BY
    last_updated DESC LIMIT ?], with the parameters [%query%] and [limit];
    a negative [LIMIT] is no limit. *)
Definition searchRows (query : string) (limit : Z) (d : Database)
  : list ContactMemoryRow :=
  let matching :=
    filter (fun r => like (list_ascii_of_string ("%" +++ query +++ "%"))
                          (list_ascii_of_string (metadataText (rmetadata r))))
           (contact_memory d) in
  let ordered := JS.sort (fun a b => last_updated a <? last_updated b) matching in
  if limit <? 0 then ordered else firstn (Z.to_nat limit) ordered.

End Schema.

(* ================================================================== *)
(** * index.ts                                                         *)
(* ================================================================== *)

Module ContactMemoryManager.

Import Schema.

Inductive Error :=
| DatabaseNotInitialized
| ContactNotFound
| Sqlite (e : SqliteError).

Inductive Outcome (A : Type) :=
| Ok (a : A)
| Throw (e : Error).
Arguments Ok {A} a.
Arguments Throw {A} e.

(** A method of the manager: it runs on [this.db], may change it, and
    returns or throws.  What was written before a throw stays written. *)
Definition M (A : Type) := option Database -> Outcome A * option Database.

Definition ret {A} (a : A) : M A := fun s => (Ok a, s).

Definition bind {A B} (m : M A) (f : A -> M B) : M B :=
  fun s => match m s with
           | (Ok a, s') => f a s'
           | (Throw e, s') => (Throw e, s')
           end.

Definition throw {A} (e : Error) : M A := fun s => (Throw e, s).

Notation "x <- m ;; k" := (bind m (fun x => k))
  (at level 61, m at next level, right associativity).
Notation "m ;;; k" := (bind m (fun _ => k))
  (at level 61, right associativity).

(** [if (!this.db) throw new Error('Database not initialized')] *)
Definition requireDb : M Database :=
  fun s => match s with
           | Some d => (Ok d, s)
           | None => (Throw DatabaseNotInitialized, s)
           end.

(** [this.db.prepare(...).run(...)] *)
Definition run (stmt : Database -> SqliteError + Database) : M unit :=
  fun s => match s with
           | Some d =>
             match stmt d with
             | inr d' => (Ok tt, Some d')
             | inl e => (Throw (Sqlite e), s)
             end
           | None => (Throw DatabaseNotInitialized, s)
           end.

Fixpoint forEach {A} (l : list A) (f : A -> M unit) : M unit :=
  match l with
  | [] => ret tt
  | x :: rest => f x ;;; forEach rest f
  end.

(** [initialize]: [this.db] becomes the handle given, or the one already
    there, or a new connection to [dbPath] holding [onDisk];
    [CREATE TABLE IF NOT EXISTS] keeps the rows. *)
Definition initialize (given : option Database) (onDisk : Database) : M unit :=
  fun s => match given with
           | Some d => (Ok tt, Some d)
           | None =>
             match s with
             | Some d => (Ok tt, Some d)
             | None => (Ok tt, Some onDisk)
             end
           end.

(** [x || null] on an optional string. *)
Definition orNull (o : option string) : option string :=
  match o with
  | Some EmptyString => None
  | _ => o
  end.

Definition interactionRow (cid : string) (i : Interaction) : InteractionRow :=
  {| iid := id i;
     icontact_id := cid;
     itimestamp := timestamp i;
     ichannel := channel i;
     idirection := direction i;
     isummary := summary i;
     full_content := orNull (fullContent i);
     ientities := entities i;
     isentiment := sentiment i;
     itopics := topics i |}.

Definition keyFactRow (cid : string) (f : KeyFact) : KeyFactRow :=
  {| fid := kid f;
     fcontact_id := cid;
     ffact := fact f;
     fsource := source f;
     fconfidence := confidence f;
     ftimestamp := ktimestamp f;
     fcategory := category f |}.

Definition contactRow (memory : ContactMemoryEntry) : ContactMemoryRow :=
  {| contact_id := contactId memory;
     location_id := locationId memory;
     last_updated := lastUpdated memory;
     rmetadata := metadata memory;
     rpreferences := preferences memory;
     rsentiment := esentiment memory;
     created_at := firstSeen (metadata memory) |}.

(** [storeContactMemory] *)
Definition storeContactMemory (memory : ContactMemoryEntry) : M unit :=
  requireDb ;;;
  run (insertOrReplaceContact (contactRow memory)) ;;;
  run (deleteInteractions (contactId memory)) ;;;
  run (deleteKeyFacts (contactId memory)) ;;;
  forEach (interactions memory)
          (fun i => run (insertInteraction (interactionRow (contactId memory) i))) ;;;
  forEach (keyFacts memory)
          (fun f => run (insertKeyFact (keyFactRow (contactId memory) f))).

Definition interactionOfRow (r : InteractionRow) : Interaction :=
  {| id := iid r;
     timestamp := itimestamp r;
     channel := ichannel r;
     direction := idirection r;
     summary := isummary r;
     fullContent := orNull (full_content r);
     entities := ientities r;
     sentiment := isentiment r;
     topics := itopics r |}.

Definition keyFactOfRow (r : KeyFactRow) : KeyFact :=
  {| kid := fid r;
     fact := ffact r;
     source := fsource r;
     confidence := fconfidence r;
     ktimestamp := ftimestamp r;
     category := fcategory r |}.

(** [getContactMemory]; [None] is the [null] of an absent contact. *)
Definition getContactMemory (cid : string) : M (option ContactMemoryEntry) :=
  d <- requireDb ;;
  match selectContact cid d with
  | None => ret None
  | Some row =>
    ret (Some {| contactId := contact_id row;
                 locationId := location_id row;
                 lastUpdated := last_updated row;
                 metadata := rmetadata row;
                 interactions := map interactionOfRow (selectInteractions cid d);
                 keyFacts := map keyFactOfRow (selectKeyFacts cid d);
                 preferences := rpreferences row;
                 esentiment := rsentiment row |})
  end.

(** [addInteraction]; [now] is its [Date.now()]. *)
Definition addInteraction (now : Z) (cid : string) (i : Interaction) : M unit :=
  requireDb ;;;
  run (insertInteraction (interactionRow cid i)) ;;;
  run (updateLastUpdated now cid).

(** [calculateOverallSentiment] *)
Definition calculateOverallSentiment (l : list Interaction) : Sentiment :=
  let recent := JS.slice0 10 l in
  let sentiments := filterDefined (map sentiment recent) in
  match sentiments with
  | [] => neutral
  | _ =>
    let cpos := countOf positive sentiments in
    let cneg := countOf negative sentiments in
    if (cneg <? cpos)%nat then positive
    else if (cpos <? cneg)%nat then negative
    else neutral
  end.

Definition scoreOf (s : Sentiment) : Z :=
  match s with
  | positive => 1
  | negative => -1
  | neutral => 0
  end.

Definition sentimentHistory (l : list Interaction) : list SentimentEntry :=
  JS.slice0 20
    (flat_map (fun i => match sentiment i with
                        | Some s => [{| htimestamp := timestamp i;
                                        hsentiment := s;
                                        hscore := scoreOf s |}]
                        | None => []
                        end) l).

(** What the GHL plugin answers during one sync: the result of
    [buildContactContext] ([None] when it throws for an unknown contact)
    and the messages [getMessages] returns for each conversation. *)
Record GHLAnswer := {
  contactContext : option (string * Preferences);
  conversations : list (list GHLMessage)
}.

(** The readings of [Date.now()] taken during one sync, in program order. *)
Record SyncClock := {
  atShouldCompact : Z;
  atCompact : Z;
  atLastUpdated : Z;
  atFirstSeen : Z;
  atLastSeen : Z
}.

(** The interactions a sync hands to the store. *)
Definition finalInteractionsOf (clock : SyncClock) (l : list Interaction)
  : list Interaction :=
  if MemoryCompactor.shouldCompact (atShouldCompact clock) l
  then
    let '(result, sorted) := MemoryCompactor.compact (atCompact clock) l in
    JS.slice0 (compactedCount result) sorted
  else l.

(** [syncContactFromGHL] *)
Definition syncContactFromGHL (ghl : GHLAnswer) (nanoid : nat -> string)
           (clock : SyncClock) (locId cid : string) : M unit :=
  requireDb ;;;
  match contactContext ghl with
  | None => throw ContactNotFound
  | Some (contactName, prefs) =>
    let messages := GHLConversations.getAllContactMessages (conversations ghl) in
    let interactions := ContactMemoryIndexer.indexMessages messages in
    let keyFacts := ContactMemoryIndexer.extractKeyFacts nanoid interactions cid in
    let sentiment := {| overall := calculateOverallSentiment interactions;
                        history := sentimentHistory interactions |} in
    let finalInteractions := finalInteractionsOf clock interactions in
    storeContactMemory
      {| contactId := cid;
         locationId := locId;
         lastUpdated := atLastUpdated clock;
         metadata := {| name := contactName;
                        memail := None;
                        mphone := None;
                        tags := [];
                        msource := "ghl";
                        firstSeen := atFirstSeen clock;
                        lastSeen := atLastSeen clock |};
         interactions := finalInteractions;
         keyFacts := keyFacts;
         preferences := prefs;
         esentiment := sentiment |}
  end.

(** [close] *)
Definition close : M unit := fun _ => (Ok tt, None).

(** [getContactContext]; [clock] holds the readings of [Date.now()] in
    [assembleContext], and an absent [options] is the empty one. *)
Definition getContactContext (clock : MemoryRetrieval.ContextClock) (cid : string)
           (options : option MemoryRetrieval.MemoryQueryOptions)
  : M (option MemoryRetrieval.MemoryContext) :=
  memory <- getContactMemory cid ;;
  match memory with
  | None => ret None
  | Some m =>
    ret (Some (MemoryRetrieval.assembleContext clock m
                 (match options with
                  | Some o => o
                  | None => MemoryRetrieval.noOptions
                  end)))
  end.

(** The loop of [searchContacts] over the rows found. *)
Fixpoint readAll (rows : list ContactMemoryRow) : M (list ContactMemoryEntry) :=
  match rows with
  | [] => ret []
  | row :: rest =>
    memory <- getContactMemory (contact_id row) ;;
    results <- readAll rest ;;
    ret (match memory with
         | Some m => m :: results
         | None => results
         end)
  end.

(** [searchContacts]; an absent [limit] is 10. *)
Definition searchContacts (query : string) (limit : option Z)
  : M (list ContactMemoryEntry) :=
  d <- requireDb ;;
  readAll (searchRows query (match limit with Some n => n | None => 10 end) d).

(** The database that a completed [storeContactMemory] leaves. *)
Definition stored (memory : ContactMemoryEntry) (d : Database) : Database :=
  {| foreign_keys := foreign_keys d;
     contact_memory :=
       filter (fun r => negb (String.eqb (contact_id r) (contactId memory)))
              (contact_memory d) ++ [contactRow memory];
     interactionsT :=
       filter (fun r => negb (String.eqb (icontact_id r) (contactId memory)))
              (interactionsT d)
       ++ map (interactionRow (contactId memory)) (interactions memory);
     key_facts :=
       filter (fun r => negb (String.eqb (fcontact_id r) (contactId memory)))
              (key_facts d)
       ++ map (keyFactRow (contactId memory)) (keyFacts memory) |}.

(** The entry that [getContactMemory] builds from the row of a contact. *)
Definition entryOfRow (row : ContactMemoryRow) (cid : string) (d : Database)
  : ContactMemoryEntry :=
  {| contactId := contact_id row;
     locationId := location_id row;
     lastUpdated := last_updated row;
     metadata := rmetadata row;
     interactions := map interactionOfRow (selectInteractions cid d);
     keyFacts := map keyFactOfRow (selectKeyFacts cid d);
     preferences := rpreferences row;
     esentiment := rsentiment row |}.

(** An interaction after [fullContent || null] of the write and
    [full_content || undefined] of the read. *)
Definition normalise (i : Interaction) : Interaction :=
  interactionOfRow (interactionRow (id i) i).

End ContactMemoryManager.

(* ================================================================== *)
(** * aime-voice/bridge: context-provider.ts                           *)
(* ================================================================== *)

Module ContextProvider.

Import ContactMemoryManager.

(** One element of [recent_interactions]. *)
Record AgentInteraction := {
  adate : string;
  achannel : Channel;
  asummary : string;
  atopics : list string
}.

(** What [getContextForCall] returns; the three properties that only the
    last branch sets are optional. *)
Record AgentContext := {
  gsummary : string;
  recent_interactions : list AgentInteraction;
  key_facts : list string;
  gpreferences : option Preferences;
  gsentiment : option Sentiment;
  grecommendations : list string;
  days_since_last_contact : option Z
}.

(** [calculateDaysSince]; [!timestamp] holds for [undefined] and for 0. *)
Definition calculateDaysSince (now : Z) (timestamp : option Z) : Z :=
  match timestamp with
  | None => 999
  | Some t => if t =? 0 then 999 else (now - t) / (24 * 60 * 60 * 1000)
  end.

Definition newCaller : AgentContext :=
  {| gsummary := "New caller - no history available";
     recent_interactions := [];
     key_facts := [];
     gpreferences := None;
     gsentiment := None;
     grecommendations := ["Collect caller information"; "Be extra welcoming"];
     days_since_last_contact := None |}.

Definition noHistory : AgentContext :=
  {| gsummary := "Contact found but no interaction history";
     recent_interactions := [];
     key_facts := [];
     gpreferences := None;
     gsentiment := None;
     grecommendations := ["Introduce yourself"; "Ask about their needs"];
     days_since_last_contact := None |}.

Definition loadError : AgentContext :=
  {| gsummary := "Error loading contact history";
     recent_interactions := [];
     key_facts := [];
     gpreferences := None;
     gsentiment := None;
     grecommendations := ["Proceed with standard greeting"];
     days_since_last_contact := None |}.

(** The context of a contact, formatted for the voice agent. *)
Definition formatted (now : Z) (context : MemoryRetrieval.MemoryContext)
  : AgentContext :=
  {| gsummary := MemoryRetrieval.cSummary context;
     recent_interactions :=
       map (fun i => {| adate := JS.toLocaleDateString (timestamp i);
                        achannel := channel i;
                        asummary := summary i;
                        atopics := topics i |})
           (MemoryRetrieval.recentInteractions context);
     key_facts := map fact (MemoryRetrieval.cKeyFacts context);
     gpreferences := Some (MemoryRetrieval.cPreferences context);
     gsentiment := Some (overall (MemoryRetrieval.cSentiment context));
     grecommendations := MemoryRetrieval.recommendations context;
     days_since_last_contact :=
       Some (calculateDaysSince now
               (option_map timestamp
                  (hd_error (MemoryRetrieval.recentInteractions context)))) |}.

(** [getContextForCall]; [!contactId] holds for [null], [undefined] and the
    empty string, and what [getContactContext] throws is caught.  [clock]
    holds the readings of [Date.now()] in [assembleContext], [now] the one
    of [calculateDaysSince]. *)
Definition getContextForCall (clock : MemoryRetrieval.ContextClock) (now : Z)
           (contactId : option string) : M AgentContext :=
  match contactId with
  | None | Some EmptyString => ret newCaller
  | Some cid =>
    fun s =>
      match getContactContext clock cid None s with
      | (Ok (Some context), s') => (Ok (formatted now context), s')
      | (Ok None, s') => (Ok noHistory, s')
      | (Throw _, s') => (Ok loadError, s')
      end
  end.

End ContextProvider.

(* ================================================================== *)
(** * aime-voice/bridge: transcript-processor.ts                       *)
(* ================================================================== *)

Module TranscriptProcessor.

Import Regex ContactMemoryManager.

Definition newline : ascii := ascii_of_N 10.

(** [extractMainTopic] *)
Definition extractMainTopic (transcript : string) : string :=
  let lower := JS.toLowerCase transcript in
  if JS.includes lower "appointment" || JS.includes lower "schedule"
  then "scheduling"
  else if JS.includes lower "price" || JS.includes lower "cost"
  then "pricing"
  else if JS.includes lower "question" || JS.includes lower "help"
  then "support"
  else if JS.includes lower "complaint" || JS.includes lower "issue"
  then "complaint"
  else "general inquiry".

(** [generateSummary]: the brief and the detailed summary. *)
Definition generateSummary (transcript : string) : string * string :=
  let lines := JS.slice0 5 (JS.split newline transcript) in
  ("Call regarding " +++ extractMainTopic transcript,
   "Call covered: " +++ JS.join "; " lines).

Definition topicKeywords : list (string * list string) :=
  [ ("scheduling", ["appointment"; "schedule"; "book"; "calendar"]);
    ("pricing", ["price"; "cost"; "quote"; "estimate"]);
    ("support", ["help"; "question"; "problem"; "issue"]);
    ("product", ["product"; "service"; "feature"]) ].

(** [extractTopics] *)
Definition extractTopics (transcript : string) : list string :=
  let lower := JS.toLowerCase transcript in
  let found :=
    flat_map (fun e => if existsb (JS.includes lower) (snd e)
                       then [fst e] else [])
             topicKeywords in
  JS.setOf String.eqb found.

Definition positiveWords : list string :=
  ["thank"; "great"; "perfect"; "excellent"; "happy"].

Definition negativeWords : list string :=
  ["frustrated"; "angry"; "disappointed"; "terrible"].

(** [detectSentiment] *)
Definition detectSentiment (transcript : string) : Sentiment :=
  let lower := JS.toLowerCase transcript in
  let up := fold_left (fun score w => if JS.includes lower w then score + 1 else score)
                      positiveWords 0 in
  let score := fold_left (fun score w => if JS.includes lower w then score - 1 else score)
                         negativeWords up in
  if 0 <? score then positive
  else if score <? 0 then negative
  else neutral.

(** The loop of [getDefaultDueDate]: the date is set to the next day of
    the local calendar, which is counted when it is not a Saturday or a
    Sunday there, until [days] are counted.  [None] when [fuel] turns of the
    loop do not end it. *)
Fixpoint dueDateLoop (zone : JS.Zone) (fuel : nat) (date daysAdded days : Z)
  : option Z :=
  if daysAdded <? days then
    match fuel with
    | O => None
    | S fuel' =>
      let date' := JS.setDateNext zone date in
      let dayOfWeek := JS.getDay zone date' in
      if negb (dayOfWeek =? 0) && negb (dayOfWeek =? 6)
      then dueDateLoop zone fuel' date' (daysAdded + 1) days
      else dueDateLoop zone fuel' date' daysAdded days
    end
  else Some date.

(** The time value that [getDefaultDueDate] returns, before [toISOString];
    the loop is given three turns for each day. *)
Definition dueTime (zone : JS.Zone) (now days : Z) : option Z :=
  dueDateLoop zone (Z.to_nat (3 * days)) now 0 days.

(** [getDefaultDueDate]; [zone] is the time zone of the host and [now] the
    time value of its [new Date()]. *)
Definition getDefaultDueDate (zone : JS.Zone) (now days : Z) : option string :=
  option_map JS.toISOString (dueTime zone now days).

(** The argument of [createTask]. *)
Record TaskRequest := {
  tcontactId : string;
  title : string;
  tbody : string;
  dueDate : option string
}.

Definition commitmentPatterns : list re :=
  [ ContactMemoryIndexer.clausePattern ["I'll"; "I will"; "let me"];
    ContactMemoryIndexer.clausePattern ["I can"; "I'll go ahead and"] ].

(** [/call.*back|follow up|get back to you/i] *)
Definition callbackPattern : re :=
  Alt (seqs [lit "call"; star dot; lit "back"])
      (Alt (lit "follow up") (lit "get back to you")).

(** [/send|email|provide.*information/i] *)
Definition informationPattern : re :=
  Alt (lit "send")
      (Alt (lit "email") (seqs [lit "provide"; star dot; lit "information"])).

(** [pattern.test(text)] for a pattern without the [g] flag. *)
Definition test (pattern : re) (text : string) : bool :=
  match matchAll true pattern text with
  | [] => false
  | _ :: _ => true
  end.

(** [commitment && commitment.length > 5 && commitment.length < 150] *)
Definition acceptable (c : string) : bool :=
  (5 <? String.length c)%nat && (String.length c <? 150)%nat.

(** The commitments that [extractTasks] makes tasks of, in the order of
    its two loops. *)
Definition commitments (transcript : string) : list string :=
  flat_map (fun pattern =>
              filter acceptable
                     (ContactMemoryIndexer.clauses (Some transcript) pattern))
           commitmentPatterns.

(** A request that still waits for the [new Date()] of its due date. *)
Definition PendingRequest := Z -> TaskRequest.

Definition followUp (zone : JS.Zone) (contactId summary commitment : string)
  : PendingRequest :=
  fun now =>
    {| tcontactId := contactId;
       title := "Follow up: " +++ commitment;
       tbody := "Action item from call:" +++ String newline (String newline "")
                +++ commitment +++ String newline (String newline "")
                +++ "Call summary: " +++ summary;
       dueDate := getDefaultDueDate zone now 3 |}.

Definition callbackRequest (zone : JS.Zone) (contactId summary : string)
  : PendingRequest :=
  fun now =>
    {| tcontactId := contactId;
       title := "Follow up call requested";
       tbody := "Customer requested a follow-up." +++ String newline (String newline "")
                +++ "Call summary: " +++ summary;
       dueDate := getDefaultDueDate zone now 2 |}.

Definition informationRequest (zone : JS.Zone) (contactId summary : string)
  : PendingRequest :=
  fun now =>
    {| tcontactId := contactId;
       title := "Send requested information";
       tbody := "Customer requested information to be sent."
                +++ String newline (String newline "")
                +++ "Call summary: " +++ summary;
       dueDate := getDefaultDueDate zone now 1 |}.

(** The calls of [createTask] that [extractTasks] makes, in order. *)
Definition pendingRequests (zone : JS.Zone) (contactId transcript summary : string)
  : list PendingRequest :=
  map (followUp zone contactId summary) (commitments transcript)
  ++ (if test callbackPattern transcript
      then [callbackRequest zone contactId summary] else [])
  ++ (if test informationPattern transcript
      then [informationRequest zone contactId summary] else []).

(** Each request takes the next reading of the clock. *)
Fixpoint stamp (clock : nat -> Z) (n : nat) (l : list PendingRequest)
  : list TaskRequest :=
  match l with
  | [] => []
  | p :: rest => p (clock n) :: stamp clock (S n) rest
  end.

(** [extractTasks]: the requests it hands to [createTask], in order;
    [clock n] is the [new Date()] of the [n]-th of them. *)
Definition extractTasks (zone : JS.Zone) (clock : nat -> Z)
           (contactId transcript summary : string) : list TaskRequest :=
  stamp clock 0 (pendingRequests zone contactId transcript summary).

(** A call of the GHL plugin made by the processor. *)
Inductive GHLCall :=
| CreateContactNote (locationId contactId body : string)
| CreateTask (locationId : string) (request : TaskRequest).

(** What the processor works on: the memory manager's database and the
    calls that the GHL plugin has received. *)
Record World := {
  memoryDb : option Schema.Database;
  sent : list GHLCall
}.

(** The readings of the clock during one [processCallTranscript]: the
    timestamp of the interaction, the [Date.now()] of [addInteraction], and
    the [new Date()] of the [n]-th task request. *)
Record CallClock := {
  atInteraction : Z;
  atAddInteraction : Z;
  atDueDate : nat -> Z
}.

Record CallResult := {
  success : bool;
  tasksCreated : nat
}.

(** The interaction that [processCallTranscript] hands to the memory. *)
Definition callInteraction (newId : string) (now : Z) (transcript : string)
  : Interaction :=
  {| id := newId;
     timestamp := now;
     channel := phone;
     direction := inbound;
     summary := fst (generateSummary transcript);
     fullContent := Some transcript;
     entities := [];
     sentiment := Some (detectSentiment transcript);
     topics := extractTopics transcript |}.

(** The body of the contact note. *)
Definition noteBody (transcript : string) (durationSeconds : Z) : string :=
  "Call Summary (" +++ JS.ofZ (durationSeconds / 60) +++ "m "
  +++ JS.ofZ (Z.rem durationSeconds 60) +++ "s):"
  +++ String newline (String newline "") +++ snd (generateSummary transcript).

(** How many of the task requests GHL answered with a task; the note is
    call 0 and the [n]-th request call [n + 1]. *)
Definition countCreated (reply : nat -> bool) (requests : list TaskRequest) : nat :=
  length (filter reply (seq 1 (length requests))).

(** [processCallTranscript]; [zone] is the time zone of the host, [newId]
    its [nanoid()], and [reply n] tells whether the [n]-th call of the GHL
    plugin returned an object or, having failed, [null].  The plugin's
    methods catch their errors, so that only the memory can make the
    processor fail. *)
Definition processCallTranscript (zone : JS.Zone) (reply : nat -> bool)
           (clock : CallClock)
           (newId locationId contactId transcript : string) (durationSeconds : Z)
           (w : World) : CallResult * World :=
  let interaction := callInteraction newId (atInteraction clock) transcript in
  match addInteraction (atAddInteraction clock) contactId interaction (memoryDb w) with
  | (Throw _, db) =>
    ({| success := false; tasksCreated := 0 |},
     {| memoryDb := db; sent := sent w |})
  | (Ok _, db) =>
    let note := CreateContactNote locationId contactId
                                  (noteBody transcript durationSeconds) in
    let requests :=
      extractTasks zone (atDueDate clock) contactId transcript
                   (snd (generateSummary transcript)) in
    ({| success := true; tasksCreated := countCreated reply requests |},
     {| memoryDb := db;
        sent := sent w ++ note :: map (CreateTask locationId) requests |})
  end.

End TranscriptProcessor.

(* ================================================================== *)
(** * The words of the specification                                   *)
(* ================================================================== *)

(** Notions the specification uses without the code having a function for
    them; they are what the code is compared with. *)
Module SpecWords.

(** The age of an interaction at [now]. *)
Definition age (now : Z) (i : Interaction) : Z := now - timestamp i.

(** "Older than 90 days". *)
Definition olderThan90Days (now : Z) (i : Interaction) : Prop :=
  MemoryCompactor.maxAge < age now i.

(** The interactions older than the summary threshold of 30 days. *)
Definition olderThan30Days (now : Z) (l : list Interaction) : list Interaction :=
  filter (fun i => MemoryCompactor.summaryThreshold <? age now i) l.

(** The earliest and the latest timestamp of a group whose first member
    is [first]. *)
Definition earliest (first : Interaction) (members : list Interaction) : Z :=
  fold_left Z.min (map timestamp members) (timestamp first).

Definition latest (first : Interaction) (members : list Interaction) : Z :=
  fold_left Z.max (map timestamp members) (timestamp first).

(** A majority vote over three labels: the label with more votes than
    each of the other two wins, and a tie for the first place (the empty
    vote included) gives [neutral]. *)
Definition majorityVote (votes : list Sentiment) : Sentiment :=
  let p := countOf positive votes in
  let u := countOf neutral votes in
  let n := countOf negative votes in
  if ((u <? p) && (n <? p))%nat then positive
  else if ((u <? n) && (p <? n))%nat then negative
  else neutral.

(** What the code computes instead: positive against negative, the
    neutral votes standing aside. *)
Definition positiveAgainstNegative (votes : list Sentiment) : Sentiment :=
  if (countOf negative votes <? countOf positive votes)%nat then positive
  else if (countOf positive votes <? countOf negative votes)%nat then negative
  else neutral.

(** [l] runs from the newest timestamp to the oldest. *)
Definition NewestFirst {A} (ts : A -> Z) (l : list A) : Prop :=
  StronglySorted (fun a b => ts b <= ts a) l.

(** [w] is the first word of [words] that [text] includes. *)
Definition FirstHit (text : string) (words : list string) (w : string) : Prop :=
  exists before after,
    words = before ++ w :: after
    /\ JS.includes text w = true
    /\ forall v, In v before -> JS.includes text v = false.


(** An interaction of an entry that passes the filters of a query: the
    age filter, unless [maxAge] is 0, and the channel filter, when channels
    are listed. *)
Definition Eligible (now : Z) (o : MemoryRetrieval.MemoryQueryOptions)
           (memory : ContactMemoryEntry) (i : Interaction) : Prop :=
  In i (interactions memory)
  /\ (MemoryRetrieval.maxAgeOf o <> 0 ->
      now - MemoryRetrieval.maxAgeOf o <= timestamp i)
  /\ (forall c cs, MemoryRetrieval.optChannels o = Some (c :: cs) ->
                   In (channelName (channel i)) (c :: cs)).

(** A key fact of an entry that reaches the confidence a query asks for. *)
Definition Confident (o : MemoryRetrieval.MemoryQueryOptions)
           (memory : ContactMemoryEntry) (f : KeyFact) : Prop :=
  In f (keyFacts memory) /\ (MemoryRetrieval.minConfidenceOf o <= confidence f)%Q.

(** [l] runs from the highest confidence to the lowest. *)
Definition MostConfidentFirst (l : list KeyFact) : Prop :=
  StronglySorted (fun a b => (confidence b <= confidence a)%Q) l.

(** A local time that falls on a day from Monday to Friday. *)
Definition isWeekday (local : Z) : bool :=
  negb (JS.weekDay local =? 0) && negb (JS.weekDay local =? 6).

(** The number of weekdays among the [k] days that follow the day of the
    local time [local]. *)
Definition weekdaysAfter (local : Z) (k : nat) : nat :=
  length (filter (fun j => isWeekday (local + Z.of_nat j * JS.msPerDay)) (seq 1 k)).

(** The local time of day of [now] exists on each of the [n] days of the
    local calendar that follow: the zone skips none of these local times,
    as it skips an hour when its clocks are put forward. *)
Definition WallTimesExist (zone : JS.Zone) (now n : Z) : Prop :=
  forall j : nat,
    (1 <= j)%nat -> Z.of_nat j <= n ->
    JS.localTime zone
      (JS.utcOf zone (JS.localTime zone now + Z.of_nat j * JS.msPerDay))
    = JS.localTime zone now + Z.of_nat j * JS.msPerDay.

(** The turns that the loop of [getDefaultDueDate] needs at most: three for
    each day still to count, less those of a weekend already begun. *)
Definition turnsLeft (dayOfWeek remaining : Z) : Z :=
  3 * remaining - (if dayOfWeek =? 6 then 1 else if dayOfWeek =? 0 then 2 else 0).

(** The property names that every object inherits from
    [Object.prototype]; a lookup [typeMap[label]] with one of them finds
    the inherited property. *)
Definition objectPrototypeNames : list string :=
  ["constructor"; "__defineGetter__"; "__defineSetter__"; "hasOwnProperty";
   "__lookupGetter__"; "__lookupSetter__"; "isPrototypeOf";
   "propertyIsEnumerable"; "toString"; "valueOf"; "__proto__";
   "toLocaleString"].

End SpecWords.

(* ================================================================== *)
(** * Sample data                                                      *)
(* ================================================================== *)

Module Sample.

Import ContactMemoryManager.

Definition hour : Z := 60 * 60 * 1000.
Definition day : Z := 24 * hour.

(** 9 March 2024, 16:00 UTC. *)
Definition now : Z := 1710000000000.

Definition interaction (ident : string) (ts : Z) (s : option Sentiment)
           (tpcs : list string) : Interaction :=
  {| id := ident; timestamp := ts; channel := sms; direction := inbound;
     summary := ident; fullContent := None; entities := [];
     sentiment := s; topics := tpcs |}.

(** Twenty interactions of the last day, one an hour. *)
Definition lastDay : list Interaction :=
  map (fun k => interaction ("m" +++ JS.ofNat k) (now - Z.of_nat k * hour) None [])
      (seq 1 20).

(** Three interactions of the fifth week of 2024 (key 2024-W4), 39 to 37
    days before [now]. *)
Definition week4 : Z := JS.yearStart 2024 + 28 * day.
Definition thursday : Interaction :=
  interaction "a" (week4 + 3 * day) (Some positive) ["pricing"].
Definition wednesday : Interaction :=
  interaction "b" (week4 + 2 * day) (Some neutral) ["billing"; "pricing"].
Definition tuesday : Interaction :=
  interaction "c" (week4 + 1 * day) (Some neutral) [].

Definition withWeek4 : list Interaction :=
  lastDay ++ [tuesday; thursday; wednesday].

(** One interaction, a hundred days old. *)
Definition ancient : Interaction := interaction "old" (now - 100 * day) None [].

(** An interaction stamped one day after [now]. *)
Definition tomorrow : Interaction :=
  interaction "ahead" (now + day) (Some positive) ["pricing"].

Definition votes (l : list Sentiment) : list Interaction :=
  map (fun s => interaction "v" now (Some s) []) l.

Definition message (ident text : string) (date : Z) : GHLMessage :=
  {| gid := ident; conversationId := "conv"; gtype := "SMS"; body := text;
     gdirection := inbound; status := "delivered"; dateAdded := date |}.

(** Two conversations of sixty messages each, all of the last five days. *)
Definition busy (tag : string) : list GHLMessage :=
  map (fun k => message (tag +++ JS.ofNat k) "ok" (now - Z.of_nat k * hour))
      (seq 1 60).

Definition busyAnswer : GHLAnswer :=
  {| contactContext := Some ("Ada", []);
     conversations := [busy "x"; busy "y"] |}.

(** A conversation of the last day and one of eighty messages, a minute
    apart, of the fifth week of 2024. *)
Definition recentConversation : list GHLMessage :=
  map (fun k => message ("r" +++ JS.ofNat k) "ok" (now - Z.of_nat k * hour))
      (seq 1 20).

Definition agedConversation : list GHLMessage :=
  map (fun k => message ("o" +++ JS.ofNat k) "ok"
                        (week4 + 3 * day - Z.of_nat k * 60000))
      (seq 1 80).

Definition agedAnswer : GHLAnswer :=
  {| contactContext := Some ("Ada", []);
     conversations := [recentConversation; agedConversation] |}.

Definition clock : SyncClock :=
  {| atShouldCompact := now; atCompact := now; atLastUpdated := now;
     atFirstSeen := now; atLastSeen := now |}.

Definition nanoid (n : nat) : string := "fact" +++ JS.ofNat n.

Definition emptyDb (fk : bool) : Schema.Database :=
  {| Schema.foreign_keys := fk; Schema.contact_memory := [];
     Schema.interactionsT := []; Schema.key_facts := [] |}.

(** The store after a sync of each of the two answers into an empty
    database. *)
Definition afterBusySync : option Schema.Database :=
  snd (syncContactFromGHL busyAnswer nanoid clock "loc" "c1" (Some (emptyDb true))).

Definition afterAgedSync : option Schema.Database :=
  snd (syncContactFromGHL agedAnswer nanoid clock "loc" "c1" (Some (emptyDb true))).

(** The interactions that the indexer makes of the second answer. *)
Definition agedBatch : list Interaction :=
  ContactMemoryIndexer.indexMessages
    (GHLConversations.getAllContactMessages (conversations agedAnswer)).

Definition call : Interaction :=
  {| id := "call1"; timestamp := now; channel := phone; direction := inbound;
     summary := "Asked for a quote"; fullContent := Some "I need a quote by Friday.";
     entities := []; sentiment := Some neutral; topics := ["pricing"] |}.

(** The text message of the specification's scenario, and the fact it
    gives. *)
Definition callback : Interaction :=
  {| id := "sms1"; timestamp := now; channel := sms; direction := outbound;
     summary := "I'll call you back tomorrow at 3:00pm, thanks!";
     fullContent := Some "I'll call you back tomorrow at 3:00pm, thanks!";
     entities := []; sentiment := Some positive; topics := [] |}.

Definition callbackFact : KeyFact :=
  {| kid := "fact0";
     fact := "Commitment: call you back tomorrow at 3:00pm, thanks!";
     source := "sms1"; confidence := 7 # 10; ktimestamp := now;
     category := commitment |}.

Definition callFact : KeyFact :=
  {| kid := "k1"; fact := "Preference: a quote by Friday"; source := "call1";
     confidence := 6 # 10; ktimestamp := now; category := preference |}.

Definition entry : ContactMemoryEntry :=
  {| contactId := "c1"; locationId := "loc";
     lastUpdated := now;
     metadata := {| name := "Ada"; memail := None; mphone := None; tags := [];
                    msource := "ghl"; firstSeen := now; lastSeen := now |};
     interactions := [call; thursday];
     keyFacts := [callFact];
     preferences := [];
     esentiment := {| overall := neutral; history := [] |} |}.

(** A clock for one [assembleContext], all readings at [now]. *)
Definition contextClock : MemoryRetrieval.ContextClock :=
  {| MemoryRetrieval.atFilter := now; MemoryRetrieval.atSummary := now;
     MemoryRetrieval.atRecommendations := now |}.

(** A contact last heard of twenty days ago, with one commitment on file. *)
Definition quiet : ContactMemoryEntry :=
  {| contactId := "c2"; locationId := "loc";
     lastUpdated := now;
     metadata := {| name := "Bo"; memail := None; mphone := None; tags := [];
                    msource := "ghl"; firstSeen := now; lastSeen := now |};
     interactions := [interaction "q1" (now - 20 * day) (Some neutral) [];
                      interaction "q2" (now - 45 * day) (Some neutral) []];
     keyFacts := [callbackFact];
     preferences := [];
     esentiment := {| overall := neutral; history := [] |} |}.

(** Twenty-five interactions of the last 25 hours, one an hour. *)
Definition lastHours : list Interaction :=
  map (fun k => interaction ("h" +++ JS.ofNat k) (now - Z.of_nat k * hour) None [])
      (seq 1 25).

(** An entry that lists one interaction twice, and an entry of another
    contact whose interaction carries an id that [entry] uses. *)
Definition repeated : ContactMemoryEntry :=
  {| contactId := "c1"; locationId := "loc";
     lastUpdated := now;
     metadata := {| name := "Ada"; memail := None; mphone := None; tags := [];
                    msource := "ghl"; firstSeen := now; lastSeen := now |};
     interactions := [call; call];
     keyFacts := [callFact];
     preferences := [];
     esentiment := {| overall := neutral; history := [] |} |}.

Definition namesake : ContactMemoryEntry :=
  {| contactId := "c3"; locationId := "loc";
     lastUpdated := now;
     metadata := {| name := "Cy"; memail := None; mphone := None; tags := [];
                    msource := "ghl"; firstSeen := now; lastSeen := now |};
     interactions := [call];
     keyFacts := [];
     preferences := [];
     esentiment := {| overall := neutral; history := [] |} |}.

(** A query that turns the age filter off. *)
Definition anyAge : MemoryRetrieval.MemoryQueryOptions :=
  {| MemoryRetrieval.optMaxInteractions := None;
     MemoryRetrieval.optMaxAge := Some 0;
     MemoryRetrieval.optChannels := None;
     MemoryRetrieval.optIncludeFullContent := None;
     MemoryRetrieval.optMinConfidence := None |}.

(** A zone five hours behind UTC that puts its clocks forward an hour at
    7:00 UTC on 10 March 2024, fifteen hours after [now]: the local times
    from 2:00 to 3:00 of that day are skipped and stand for the instants an
    hour later. *)
Definition clocksForward : Z := now + 15 * hour.

Definition eastern : JS.Zone :=
  {| JS.offsetAt := fun t => if t <? clocksForward then - (5 * hour) else - (4 * hour);
     JS.utcOf := fun t => if t <? clocksForward - 4 * hour
                          then t + 5 * hour else t + 4 * hour |}.

(** A call with the contact of [entry], all clocks at [now], and the store
    that holds [entry]. *)
Definition callClock : TranscriptProcessor.CallClock :=
  {| TranscriptProcessor.atInteraction := now;
     TranscriptProcessor.atAddInteraction := now;
     TranscriptProcessor.atDueDate := fun _ => now |}.

Definition transcript : string :=
  "I'll send the quote by Friday. Please call me back.".

Definition world : TranscriptProcessor.World :=
  {| TranscriptProcessor.memoryDb :=
       Some (ContactMemoryManager.stored entry (emptyDb true));
     TranscriptProcessor.sent := [] |}.

End Sample.

(* ================================================================== *)
(** * Properties of the host model                                     *)
(* ================================================================== *)

Section SortFacts.

Context {A : Type}.
Variable after : A -> A -> bool.

Lemma insertBy_length (x : A) (l : list A) :
  length (JS.insertBy after x l) = S (length l).
Proof.
  induction l as [|y l IH]; simpl; [reflexivity|].
  destruct (after x y); simpl; congruence.
Qed.

Lemma sort_length (l : list A) : length (JS.sort after l) = length l.
Proof.
  unfold JS.sort. induction l as [|x l IH]; simpl; [reflexivity|].
  rewrite insertBy_length. congruence.
Qed.

Lemma insertBy_In (x y : A) (l : list A) :
  In y (JS.insertBy after x l) <-> y = x \/ In y l.
Proof.
  induction l as [|z l IH]; simpl.
  - intuition congruence.
  - destruct (after x z); simpl; rewrite ?IH; intuition congruence.
Qed.

Lemma sort_In (y : A) (l : list A) : In y (JS.sort after l) <-> In y l.
Proof.
  unfold JS.sort. induction l as [|x l IH]; simpl; [reflexivity|].
  rewrite insertBy_In, IH. intuition congruence.
Qed.

(** When [after] compares a key, the result runs from the largest key to
    the smallest. *)
Variable key : A -> Z.
Hypothesis after_key : forall x y, after x y = true <-> key x < key y.

Lemma insertBy_sorted (x : A) (l : list A) :
  SpecWords.NewestFirst key l -> SpecWords.NewestFirst key (JS.insertBy after x l).
Proof.
  unfold SpecWords.NewestFirst.
  induction l as [|y l IH]; intros Hs; simpl.
  - constructor; constructor.
  - inversion Hs as [|? ? Hs' Hall]; subst.
    destruct (after x y) eqn:E.
    + apply after_key in E. constructor; [auto|].
      rewrite Forall_forall in *. intros z Hz.
      apply insertBy_In in Hz. destruct Hz as [->|Hz]; [lia | auto].
    + assert (key y <= key x).
      { destruct (Z_lt_le_dec (key x) (key y)) as [Hlt|]; [|assumption].
        apply after_key in Hlt. congruence. }
      constructor; [assumption|].
      constructor; [assumption|].
      rewrite Forall_forall in *. intros z Hz. specialize (Hall z Hz). lia.
Qed.

Lemma sort_sorted (l : list A) : SpecWords.NewestFirst key (JS.sort after l).
Proof.
  unfold JS.sort. induction l as [|x l IH]; simpl.
  - constructor.
  - apply insertBy_sorted. exact IH.
Qed.

End SortFacts.

Lemma NewestFirst_filter {A} (key : A -> Z) (f : A -> bool) (l : list A) :
  SpecWords.NewestFirst key l -> SpecWords.NewestFirst key (filter f l).
Proof.
  unfold SpecWords.NewestFirst.
  induction 1 as [|x l Hs IH Hall]; simpl; [constructor|].
  destruct (f x); [|assumption].
  constructor; [assumption|].
  rewrite Forall_forall in *. intros y Hy. apply filter_In in Hy. apply Hall, Hy.
Qed.

Lemma NewestFirst_skipn {A} (key : A -> Z) (n : nat) (l : list A) :
  SpecWords.NewestFirst key l -> SpecWords.NewestFirst key (skipn n l).
Proof.
  unfold SpecWords.NewestFirst. revert l.
  induction n as [|n IH]; intros l Hs; simpl; [assumption|].
  destruct l as [|x l]; [constructor|].
  inversion Hs; subst. apply IH. assumption.
Qed.

Lemma NewestFirst_map {A B} (f : A -> B) (key : B -> Z) (l : list A) :
  SpecWords.NewestFirst (fun a => key (f a)) l -> SpecWords.NewestFirst key (map f l).
Proof.
  unfold SpecWords.NewestFirst.
  induction 1 as [|x l Hs IH Hall]; simpl; constructor; [assumption|].
  rewrite Forall_forall in *. intros y Hy. apply in_map_iff in Hy.
  destruct Hy as [a [<- Ha]]. apply Hall, Ha.
Qed.

Section SetFacts.

Context {A : Type}.
Variable eqb : A -> A -> bool.
Hypothesis eqb_eq : forall x y, eqb x y = true <-> x = y.

Let add (acc : list A) (x : A) : list A :=
  if existsb (eqb x) acc then acc else acc ++ [x].

Lemma existsb_eqb_In (x : A) (l : list A) : existsb (eqb x) l = true <-> In x l.
Proof.
  rewrite existsb_exists. split.
  - intros [y [Hy E]]. apply eqb_eq in E. subst. assumption.
  - intros H. exists x. split; [assumption | apply eqb_eq; reflexivity].
Qed.

Lemma setAdd_In (x y : A) (acc : list A) : In y (add acc x) <-> In y acc \/ y = x.
Proof.
  unfold add. destruct (existsb (eqb x) acc) eqn:E.
  - apply existsb_eqb_In in E. intuition congruence.
  - rewrite in_app_iff. simpl. intuition congruence.
Qed.

Lemma setAdd_NoDup (x : A) (acc : list A) : NoDup acc -> NoDup (add acc x).
Proof.
  intros Hn. unfold add. destruct (existsb (eqb x) acc) eqn:E; [assumption|].
  assert (~ In x acc) as Hx.
  { intros Hin. apply existsb_eqb_In in Hin. congruence. }
  clear E. induction acc as [|a acc IH]; simpl.
  - constructor; [intros [] | constructor].
  - inversion Hn; subst. constructor.
    + rewrite in_app_iff. simpl. intros [H | [H | []]]; [contradiction|].
      subst. apply Hx. left. reflexivity.
    + apply IH; [assumption|]. intros H. apply Hx. right. assumption.
Qed.

Lemma setFold_In (y : A) (l acc : list A) :
  In y (fold_left add l acc) <-> In y acc \/ In y l.
Proof.
  revert acc. induction l as [|x l IH]; intros acc; simpl.
  - intuition.
  - rewrite IH, setAdd_In. intuition congruence.
Qed.

Lemma setFold_NoDup (l acc : list A) : NoDup acc -> NoDup (fold_left add l acc).
Proof.
  revert acc. induction l as [|x l IH]; intros acc Hn; simpl; [assumption|].
  apply IH, setAdd_NoDup, Hn.
Qed.

Lemma setOf_In (y : A) (l : list A) : In y (JS.setOf eqb l) <-> In y l.
Proof.
  unfold JS.setOf. change (In y (fold_left add l []) <-> In y l).
  rewrite setFold_In. simpl. intuition.
Qed.

Lemma setOf_NoDup (l : list A) : NoDup (JS.setOf eqb l).
Proof.
  unfold JS.setOf. change (NoDup (fold_left add l [])).
  apply setFold_NoDup. constructor.
Qed.

End SetFacts.

(* ================================================================== *)
(** * Properties of the compactor                                      *)
(* ================================================================== *)

Section CompactorFacts.

Import MemoryCompactor.

Variable now : Z.

Let young (i : Interaction) : bool := now - timestamp i <? summaryThreshold.

(** The loop of [compact] keeps the first twenty of the sorted list and,
    behind them, what is younger than the threshold. *)
Lemma splitStep_fold (l recent old : list Interaction) :
  fold_left (splitStep now) l (recent, old) =
  (recent ++ firstn (20 - length recent) l
          ++ filter young (skipn (20 - length recent) l),
   old ++ filter (fun i => negb (young i)) (skipn (20 - length recent) l)).
Proof.
  revert recent old. induction l as [|i l IH]; intros recent old.
  - simpl. rewrite firstn_nil, skipn_nil. simpl. rewrite !app_nil_r. reflexivity.
  - assert (splitStep now (recent, old) i =
            if young i || (length recent <? 20)%nat
            then (recent ++ [i], old) else (recent, old ++ [i])) as Hstep
      by reflexivity.
    cbn [fold_left]. rewrite Hstep. clear Hstep.
    destruct (length recent <? 20)%nat eqn:Hlen.
    + apply Nat.ltb_lt in Hlen. rewrite orb_true_r, IH.
      rewrite length_app. simpl length.
      replace (20 - length recent)%nat with (S (20 - (length recent + 1)))
        by lia.
      simpl. rewrite <- !app_assoc. reflexivity.
    + apply Nat.ltb_ge in Hlen. rewrite orb_false_r.
      replace (20 - length recent)%nat with 0%nat by lia. simpl.
      destruct (young i) eqn:Hy; simpl; rewrite IH.
      * rewrite length_app. simpl length.
        replace (20 - (length recent + 1))%nat with 0%nat by lia.
        simpl. rewrite <- !app_assoc. reflexivity.
      * replace (20 - length recent)%nat with 0%nat by lia.
        simpl. rewrite <- !app_assoc. reflexivity.
Qed.

Lemma recentOf_eq (l : list Interaction) :
  recentOf now l =
  firstn 20 (newestFirst l) ++ filter young (skipn 20 (newestFirst l)).
Proof. unfold recentOf, splitRecentOld. rewrite splitStep_fold. reflexivity. Qed.

Lemma oldOf_eq (l : list Interaction) :
  oldOf now l = filter (fun i => negb (young i)) (skipn 20 (newestFirst l)).
Proof. unfold oldOf, splitRecentOld. rewrite splitStep_fold. reflexivity. Qed.

Lemma compacted_eq (l : list Interaction) :
  compacted now l = recentOf now l ++ summarizeInteractions (keptOld now l).
Proof.
  unfold compacted, recentOf, keptOld, oldOf.
  destruct (splitRecentOld now (newestFirst l)). reflexivity.
Qed.

Lemma compact_eq (l : list Interaction) :
  compact now l =
  ({| originalCount := length l;
      compactedCount := length (final now l);
      summarized := length (summarizeInteractions (keptOld now l));
      removed := Z.of_nat (length (oldOf now l))
                 - Z.of_nat (length (keptOld now l))
                 + (Z.of_nat (length (compacted now l))
                    - Z.of_nat (length (final now l))) |},
   newestFirst l).
Proof.
  unfold compact, final, compacted, keptOld, oldOf.
  destruct (splitRecentOld now (newestFirst l)). reflexivity.
Qed.

Lemma newestFirst_sorted (l : list Interaction) :
  SpecWords.NewestFirst timestamp (newestFirst l).
Proof.
  apply sort_sorted. intros x y. rewrite Z.ltb_lt. lia.
Qed.

Lemma keptOld_sorted (l : list Interaction) :
  SpecWords.NewestFirst timestamp (keptOld now l).
Proof.
  unfold keptOld, toKeepOf. rewrite oldOf_eq.
  apply NewestFirst_filter, NewestFirst_filter, NewestFirst_skipn, newestFirst_sorted.
Qed.

Lemma keptOld_age (l : list Interaction) (i : Interaction) :
  In i (keptOld now l) -> now - timestamp i < maxAge.
Proof.
  unfold keptOld, toKeepOf. intros H. apply filter_In in H.
  destruct H as [_ H]. apply Z.ltb_lt in H. exact H.
Qed.

End CompactorFacts.

Section GroupFacts.

Import MemoryCompactor.

Let wk (i : Interaction) : string := getWeekKey (timestamp i).

Let memberOf (k : string) (i : Interaction) : bool := String.eqb k (wk i).

(** The groups over the keys [ks] of the interactions seen so far. *)
Let G (seen : list Interaction) (ks : list string) : Groups :=
  map (fun k => (k, filter (memberOf k) seen)) ks.

Let addKey (acc : list string) (k : string) : list string :=
  if existsb (String.eqb k) acc then acc else acc ++ [k].

Lemma filter_snoc {A} (f : A -> bool) (l : list A) (x : A) :
  filter f (l ++ [x]) = filter f l ++ (if f x then [x] else []).
Proof. rewrite filter_app. reflexivity. Qed.

Lemma filter_none {A} (f : A -> bool) (l : list A) :
  (forall x, In x l -> f x = false) -> filter f l = [].
Proof.
  induction l as [|x l IH]; intros H; simpl; [reflexivity|].
  rewrite (H x (or_introl eq_refl)). apply IH. intros y Hy. apply H. right. exact Hy.
Qed.

Lemma groupPush_G (i : Interaction) (seen : list Interaction) (ks : list string) :
  NoDup ks ->
  groupPush (wk i) i (G seen ks) =
  if existsb (String.eqb (wk i)) ks
  then G (seen ++ [i]) ks
  else G (seen ++ [i]) ks ++ [(wk i, [i])].
Proof.
  induction ks as [|k0 ks IH]; intros Hn; [reflexivity|].
  inversion Hn as [|? ? Hk0 Hn']; subst.
  cbn [G map groupPush existsb]. fold (G seen ks). fold (G (seen ++ [i]) ks).
  rewrite filter_snoc. rewrite (String.eqb_sym (wk i) k0).
  change (memberOf k0 i) with (String.eqb k0 (wk i)).
  destruct (String.eqb k0 (wk i)) eqn:E; cbn [orb].
  - apply String.eqb_eq in E. f_equal.
    unfold G. apply map_ext_in. intros k Hk. rewrite filter_snoc.
    change (memberOf k i) with (String.eqb k (wk i)).
    destruct (String.eqb k (wk i)) eqn:E'; [|rewrite app_nil_r; reflexivity].
    apply String.eqb_eq in E'. congruence.
  - rewrite app_nil_r, (IH Hn').
    destruct (existsb (String.eqb (wk i)) ks); reflexivity.
Qed.

Lemma groupFold_G (l seen : list Interaction) (ks : list string) :
  NoDup ks ->
  (forall j, In j seen -> In (wk j) ks) ->
  fold_left (fun groups i => groupPush (wk i) i groups) l (G seen ks) =
  G (seen ++ l) (fold_left addKey (map wk l) ks).
Proof.
  revert seen ks. induction l as [|i l IH]; intros seen ks Hn Hcov.
  - simpl. rewrite app_nil_r. reflexivity.
  - cbn [fold_left map]. rewrite (groupPush_G i seen Hn).
    assert ((if existsb (String.eqb (wk i)) ks
             then G (seen ++ [i]) ks
             else G (seen ++ [i]) ks ++ [(wk i, [i])])
            = G (seen ++ [i]) (addKey ks (wk i))) as ->.
    { unfold addKey. destruct (existsb (String.eqb (wk i)) ks) eqn:E;
        [reflexivity|].
      unfold G. rewrite map_app. cbn [map]. do 3 f_equal.
      rewrite filter_snoc.
      change (memberOf (wk i) i) with (String.eqb (wk i) (wk i)).
      rewrite String.eqb_refl.
      assert (filter (memberOf (wk i)) seen = []) as ->; [|reflexivity].
      apply filter_none.
      intros j Hj. change (memberOf (wk i) j) with (String.eqb (wk i) (wk j)).
      destruct (String.eqb (wk i) (wk j)) eqn:E'; [|reflexivity].
      apply String.eqb_eq in E'. specialize (Hcov j Hj). rewrite <- E' in Hcov.
      apply (proj2 (existsb_eqb_In String.eqb String.eqb_eq _ _)) in Hcov. congruence. }
    rewrite IH.
    + rewrite <- app_assoc. reflexivity.
    + apply (setAdd_NoDup String.eqb String.eqb_eq). exact Hn.
    + intros j Hj. apply (setAdd_In String.eqb String.eqb_eq).
      apply in_app_iff in Hj. destruct Hj as [Hj | [<- | []]]; auto.
Qed.

(** The groups are the week keys in order of first appearance, each with
    the interactions of that week in the order of the input. *)
Lemma groupByWeek_eq (l : list Interaction) :
  groupByWeek l =
  map (fun k => (k, filter (fun i => String.eqb k (getWeekKey (timestamp i))) l))
      (JS.setOf String.eqb (map (fun i => getWeekKey (timestamp i)) l)).
Proof.
  unfold groupByWeek.
  change (fold_left (fun groups i => groupPush (wk i) i groups) l (G [] [])
          = G l (fold_left addKey (map wk l) [])).
  rewrite groupFold_G; [reflexivity | constructor | intros j []].
Qed.

Lemma groupByWeek_member (l : list Interaction) (k : string) (g : list Interaction) :
  In (k, g) (groupByWeek l) ->
  g = filter (fun i => String.eqb k (getWeekKey (timestamp i))) l /\ g <> [].
Proof.
  rewrite groupByWeek_eq. intros H. apply in_map_iff in H.
  destruct H as [k' [E Hk]]. inversion E; subst. split; [reflexivity|].
  apply (proj1 (setOf_In String.eqb String.eqb_eq _ _)) in Hk. apply in_map_iff in Hk.
  destruct Hk as [i [Ei Hi]]. intros Hnil.
  assert (In i (filter (fun i => String.eqb k (getWeekKey (timestamp i))) l)) as Hin.
  { apply filter_In. split; [assumption|]. apply String.eqb_eq. congruence. }
  rewrite Hnil in Hin. destruct Hin.
Qed.

Lemma summarizeInteractions_eq (l : list Interaction) :
  summarizeInteractions l = flat_map summarizeGroup (groupByWeek l).
Proof. destruct l; reflexivity. Qed.

End GroupFacts.

Section SummaryFacts.

Import MemoryCompactor.

Lemma determineOverallSentiment_eq (votes : list Sentiment) :
  determineOverallSentiment votes = SpecWords.positiveAgainstNegative votes.
Proof. destruct votes; reflexivity. Qed.

Lemma latest_of_sorted (first : Interaction) (rest : list Interaction) :
  SpecWords.NewestFirst timestamp (first :: rest) ->
  SpecWords.latest first (first :: rest) = timestamp first.
Proof.
  intros Hs. inversion Hs as [|? ? _ Hall]; subst.
  unfold SpecWords.latest. cbn [map fold_left]. rewrite Z.max_id.
  generalize (timestamp first) as top, Hall. clear.
  induction rest as [|x rest IH]; intros top Hall; [reflexivity|].
  inversion Hall; subst. cbn [map fold_left].
  rewrite Z.max_l by assumption. apply IH. assumption.
Qed.

(** Every interaction that [summarizeInteractions] returns carries the
    timestamp of one of its inputs. *)
Lemma summarize_timestamp (l : list Interaction) (s : Interaction) :
  In s (summarizeInteractions l) ->
  exists m, In m l /\ timestamp s = timestamp m.
Proof.
  rewrite summarizeInteractions_eq. intros H. apply in_flat_map in H.
  destruct H as [[k g] [Hg Hs]]. apply groupByWeek_member in Hg.
  destruct Hg as [Hg _].
  assert (forall m, In m g -> In m l) as Hsub.
  { intros m Hm. rewrite Hg in Hm. apply filter_In in Hm. tauto. }
  destruct g as [|a [|b g']]; cbn in Hs.
  - destruct Hs.
  - destruct Hs as [<- | []]. exists a. split; [apply Hsub; left|]; reflexivity.
  - destruct Hs as [<- | []]. exists a. split; [apply Hsub; left|]; reflexivity.
Qed.

Lemma firstn_subset {A} (n : nat) (l : list A) (x : A) :
  In x (firstn n l) -> In x l.
Proof.
  intros H. rewrite <- (firstn_skipn n l). apply in_or_app. left. exact H.
Qed.

Lemma filter_implied {A} (f g : A -> bool) (l : list A) :
  (forall x, f x = true -> g x = true) ->
  filter f (filter g l) = filter f l.
Proof.
  intros H. induction l as [|x l IH]; simpl; [reflexivity|].
  destruct (g x) eqn:Eg; simpl; rewrite IH; [reflexivity|].
  destruct (f x) eqn:Ef; [|reflexivity].
  apply H in Ef. congruence.
Qed.

Lemma filter_complement_length {A} (f : A -> bool) (l : list A) :
  (Z.of_nat (length l) - Z.of_nat (length (filter f l)) =
   Z.of_nat (length (filter (fun x => negb (f x)) l)))%Z.
Proof.
  induction l as [|x l IH]; [reflexivity|].
  cbn [filter]. destruct (f x); cbn [negb length]; lia.
Qed.

End SummaryFacts.

(* ================================================================== *)
(** * Stated properties of the compactor                               *)
(* ================================================================== *)

(** C5.  [shouldCompact] answers true exactly when the list holds at least
    100 interactions and more than 20 of them are older than 30 days; in
    particular it answers false for every list of fewer than 100
    interactions, whatever their ages. *)
Theorem shouldCompact_iff (now : Z) (l : list Interaction) :
  (MemoryCompactor.shouldCompact now l = true <->
   (100 <= length l)%nat /\ (20 < length (SpecWords.olderThan30Days now l))%nat)
  /\ ((length l < 100)%nat -> MemoryCompactor.shouldCompact now l = false).
Proof.
  unfold MemoryCompactor.shouldCompact, MemoryCompactor.maxInteractions,
    SpecWords.olderThan30Days, SpecWords.age.
  destruct (length l <? 100)%nat eqn:E.
  - apply Nat.ltb_lt in E. split; [|reflexivity].
    split; [discriminate | lia].
  - apply Nat.ltb_ge in E. split; [|lia].
    rewrite Nat.ltb_lt. split; [intros H; split; [exact E | exact H] | tauto].
Qed.

Lemma shouldCompact_iff_witness :
  (length Sample.lastDay < 100)%nat
  /\ MemoryCompactor.shouldCompact Sample.now Sample.lastDay = false.
Proof.
  assert (length Sample.lastDay < 100)%nat as H by (vm_compute; lia).
  split; [exact H|].
  exact (proj2 (shouldCompact_iff Sample.now Sample.lastDay) H).
Defined.

(** C3, as the code has it.  An interaction in the set that [compact] keeps
    is less than 90 days old or is one of the 20 newest, which the recency
    floor keeps whatever their age; behind the 20 newest, each interaction
    that is 90 days old or older is dropped and counted in [removed],
    together with what the cap of 100 cuts off. *)
Theorem compact_retention (now : Z) (l : list Interaction) :
  (forall i, In i (MemoryCompactor.final now l) ->
     now - timestamp i < MemoryCompactor.maxAge
     \/ In i (firstn 20 (MemoryCompactor.newestFirst l)))
  /\ removed (fst (MemoryCompactor.compact now l)) =
     Z.of_nat (length (filter (fun i => MemoryCompactor.maxAge <=? now - timestamp i)
                              (skipn 20 (MemoryCompactor.newestFirst l))))
     + (Z.of_nat (length (MemoryCompactor.compacted now l))
        - Z.of_nat (length (MemoryCompactor.final now l))).
Proof.
  split.
  - intros i Hi. unfold MemoryCompactor.final, JS.slice0 in Hi.
    apply firstn_subset in Hi. rewrite compacted_eq, recentOf_eq in Hi.
    rewrite !in_app_iff in Hi. destruct Hi as [[Hi | Hi] | Hi].
    + right. exact Hi.
    + left. apply filter_In in Hi. destruct Hi as [_ Hi].
      apply Z.ltb_lt in Hi. unfold MemoryCompactor.maxAge.
      unfold MemoryCompactor.summaryThreshold in Hi. lia.
    + left. apply summarize_timestamp in Hi. destruct Hi as [m [Hm ->]].
      apply (keptOld_age now l m Hm).
  - rewrite compact_eq. cbn [fst removed]. f_equal.
    unfold MemoryCompactor.keptOld, MemoryCompactor.toKeepOf.
    rewrite filter_complement_length, oldOf_eq.
    rewrite <- (filter_implied
                  (fun i => MemoryCompactor.maxAge <=? now - timestamp i)
                  (fun i => negb (now - timestamp i <? MemoryCompactor.summaryThreshold))).
    + f_equal. f_equal. apply filter_ext. intros i.
      rewrite Z.leb_antisym. reflexivity.
    + intros i Hi. apply Z.leb_le in Hi. apply negb_true_iff, Z.ltb_ge.
      unfold MemoryCompactor.maxAge in Hi.
      unfold MemoryCompactor.summaryThreshold. lia.
Qed.

Lemma compact_retention_witness :
  In Sample.thursday (MemoryCompactor.final Sample.now (Sample.thursday :: Sample.lastDay))
  /\ (Sample.now - timestamp Sample.thursday < MemoryCompactor.maxAge
      \/ In Sample.thursday
            (firstn 20 (MemoryCompactor.newestFirst (Sample.thursday :: Sample.lastDay)))).
Proof.
  assert (In Sample.thursday
             (MemoryCompactor.final Sample.now (Sample.thursday :: Sample.lastDay))) as H.
  { vm_compute. do 20 right. left. reflexivity. }
  split; [exact H|].
  exact (proj1 (compact_retention Sample.now (Sample.thursday :: Sample.lastDay))
               Sample.thursday H).
Defined.

(** C3, as the specification states it, fails: a lone interaction a hundred days old
    is among the 20 newest, so [compact] keeps it and counts nothing as
    removed. *)
Lemma compact_keeps_ancient :
  In Sample.ancient (MemoryCompactor.final Sample.now [Sample.ancient])
  /\ SpecWords.olderThan90Days Sample.now Sample.ancient
  /\ removed (fst (MemoryCompactor.compact Sample.now [Sample.ancient])) = 0.
Proof.
  split; [left; reflexivity|]. split; reflexivity.
Qed.

Lemma groupByWeek_keys (l : list Interaction) :
  NoDup (map fst (MemoryCompactor.groupByWeek l)).
Proof.
  rewrite groupByWeek_eq, map_map. cbn [fst]. rewrite map_id.
  apply (setOf_NoDup String.eqb String.eqb_eq).
Qed.

(** C4, as the code has it.  The kept set of a compaction is the recent
    interactions followed by one interaction for each week group, and the
    groups have distinct week keys.  A group of more than one member gives
    a summary whose timestamp is that of its first member, the latest of
    the group since the members run newest first, whose id is
    summary_<weekKey>, whose topics are the union of the members' topics,
    and whose sentiment is positive when the positive votes of the group
    outnumber the negative ones, negative when the negative outnumber the
    positive, and neutral otherwise, neutral and missing sentiments not
    voting.  A group of one member gives that member, unmodified. *)
Theorem weekGroup_summary (now : Z) (l : list Interaction) :
  MemoryCompactor.compacted now l
  = MemoryCompactor.recentOf now l
    ++ flat_map MemoryCompactor.summarizeGroup (MemoryCompactor.weekGroups now l)
  /\ NoDup (map fst (MemoryCompactor.weekGroups now l))
  /\ forall weekKey members,
       In (weekKey, members) (MemoryCompactor.weekGroups now l) ->
       exists first rest,
         members = first :: rest
         /\ (forall m, In m members ->
               In m (MemoryCompactor.keptOld now l)
               /\ MemoryCompactor.getWeekKey (timestamp m) = weekKey)
         /\ (rest = [] ->
             MemoryCompactor.summarizeGroup (weekKey, members) = [first])
         /\ (rest <> [] ->
             exists s,
               MemoryCompactor.summarizeGroup (weekKey, members) = [s]
               /\ id s = "summary_" +++ weekKey
               /\ timestamp s = SpecWords.latest first members
               /\ (forall t, In t (topics s) <->
                             exists m, In m members /\ In t (topics m))
               /\ NoDup (topics s)
               /\ sentiment s =
                  Some (SpecWords.positiveAgainstNegative
                          (filterDefined (map sentiment members)))).
Proof.
  split; [|split].
  - rewrite compacted_eq, summarizeInteractions_eq. reflexivity.
  - apply groupByWeek_keys.
  - intros weekKey members Hin. unfold MemoryCompactor.weekGroups in Hin.
    pose proof (groupByWeek_member _ _ _ Hin) as [Hg Hne].
    destruct members as [|first rest]; [congruence|].
    exists first, rest. split; [reflexivity|]. split; [|split].
    + intros m Hm. rewrite Hg in Hm. apply filter_In in Hm.
      destruct Hm as [Hm E]. apply String.eqb_eq in E.
      split; [exact Hm | congruence].
    + intros ->. reflexivity.
    + intros Hrest. destruct rest as [|second rest]; [congruence|].
      eexists. split; [reflexivity|].
      cbn [MemoryCompactor.makeSummary id timestamp topics sentiment].
      split; [reflexivity|]. split; [|split; [|split]].
      * symmetry. apply latest_of_sorted. rewrite Hg.
        apply NewestFirst_filter, keptOld_sorted.
      * intros t. rewrite (setOf_In String.eqb String.eqb_eq), in_flat_map.
        reflexivity.
      * apply (setOf_NoDup String.eqb String.eqb_eq).
      * rewrite determineOverallSentiment_eq. reflexivity.
Qed.

Lemma weekGroup_summary_witness :
  In ("2024-W4", [Sample.thursday; Sample.wednesday; Sample.tuesday])
     (MemoryCompactor.weekGroups Sample.now Sample.withWeek4)
  /\ exists first rest,
       [Sample.thursday; Sample.wednesday; Sample.tuesday] = first :: rest
       /\ (rest <> [] ->
           exists s,
             MemoryCompactor.summarizeGroup
               ("2024-W4", [Sample.thursday; Sample.wednesday; Sample.tuesday]) = [s]
             /\ id s = "summary_2024-W4"
             /\ timestamp s =
                SpecWords.latest first
                  [Sample.thursday; Sample.wednesday; Sample.tuesday]).
Proof.
  assert (In ("2024-W4", [Sample.thursday; Sample.wednesday; Sample.tuesday])
             (MemoryCompactor.weekGroups Sample.now Sample.withWeek4)) as H.
  { vm_compute. left. reflexivity. }
  split; [exact H|].
  destruct (proj2 (proj2 (weekGroup_summary Sample.now Sample.withWeek4)) _ _ H)
    as [first [rest [E [_ [_ Hsum]]]]].
  exists first, rest. split; [exact E|].
  intros Hr. destruct (Hsum Hr) as [s [E1 [E2 [E3 _]]]].
  exists s. split; [exact E1|]. split; [exact E2 | exact E3].
Defined.

(** C4, as the specification states it, fails on the week of 29 January 2024: the
    summary of its three interactions carries the timestamp of the latest
    of them, not of the earliest, and its sentiment is positive where two
    of the three votes are neutral. *)
Lemma summary_of_week4 :
  In ("2024-W4", [Sample.thursday; Sample.wednesday; Sample.tuesday])
     (MemoryCompactor.weekGroups Sample.now Sample.withWeek4)
  /\ exists s,
       nth_error (MemoryCompactor.final Sample.now Sample.withWeek4) 20 = Some s
       /\ id s = "summary_2024-W4"
       /\ timestamp s = timestamp Sample.thursday
       /\ SpecWords.earliest Sample.thursday
            [Sample.thursday; Sample.wednesday; Sample.tuesday]
          = timestamp Sample.tuesday
       /\ timestamp s <>
          SpecWords.earliest Sample.thursday
            [Sample.thursday; Sample.wednesday; Sample.tuesday]
       /\ sentiment s = Some positive
       /\ SpecWords.majorityVote
            (filterDefined
               (map sentiment [Sample.thursday; Sample.wednesday; Sample.tuesday]))
          = neutral.
Proof.
  split; [vm_compute; left; reflexivity|].
  eexists. split; [vm_compute; reflexivity|].
  cbn [id timestamp sentiment]. repeat split; try reflexivity.
  vm_compute. discriminate.
Qed.

(* ================================================================== *)
(** * The sentiment aggregate                                          *)
(* ================================================================== *)

Lemma getAllContactMessages_sorted (perConversation : list (list GHLMessage)) :
  SpecWords.NewestFirst dateAdded
    (GHLConversations.getAllContactMessages perConversation).
Proof.
  apply sort_sorted. intros x y. rewrite Z.ltb_lt. lia.
Qed.

Lemma indexMessages_sorted (perConversation : list (list GHLMessage)) :
  SpecWords.NewestFirst timestamp
    (ContactMemoryIndexer.indexMessages
       (GHLConversations.getAllContactMessages perConversation)).
Proof.
  apply NewestFirst_map. apply getAllContactMessages_sorted.
Qed.

(** C6, as the code has it.  The overall sentiment is read off the first 10
    interactions of the list, which a sync hands over newest first: it is
    positive when their positive sentiments outnumber the negative ones,
    negative when the negative outnumber the positive, and neutral
    otherwise, the empty case included; neutral and missing sentiments do
    not vote.  So positive, positive, negative gives positive, and
    positive, negative gives neutral. *)
Theorem calculateOverallSentiment_spec :
  (forall l,
     ContactMemoryManager.calculateOverallSentiment l =
     SpecWords.positiveAgainstNegative
       (filterDefined (map sentiment (firstn 10 l))))
  /\ (forall perConversation,
        SpecWords.NewestFirst timestamp
          (ContactMemoryIndexer.indexMessages
             (GHLConversations.getAllContactMessages perConversation)))
  /\ ContactMemoryManager.calculateOverallSentiment [] = neutral
  /\ ContactMemoryManager.calculateOverallSentiment
       (Sample.votes [positive; positive; negative]) = positive
  /\ ContactMemoryManager.calculateOverallSentiment
       (Sample.votes [positive; negative]) = neutral.
Proof.
  split; [|split; [exact indexMessages_sorted | repeat split]].
  intros l. unfold ContactMemoryManager.calculateOverallSentiment, JS.slice0.
  destruct (filterDefined (map sentiment (firstn 10 l))); reflexivity.
Qed.

(** C6, as the specification states it, fails: of the votes positive, neutral,
    neutral the majority is neutral, and the code answers positive. *)
Lemma overall_of_one_positive_two_neutral :
  ContactMemoryManager.calculateOverallSentiment
    (Sample.votes [positive; neutral; neutral]) = positive
  /\ SpecWords.majorityVote [positive; neutral; neutral] = neutral.
Proof. split; reflexivity. Qed.

(* ================================================================== *)
(** * Stated properties of the indexer                                 *)
(* ================================================================== *)

Section IndexerFacts.

Import ContactMemoryIndexer.

Variable nanoid : nat -> string.

Lemma assignIds_In (f : KeyFact) (ps : list Pending) (n : nat) :
  In f (assignIds nanoid n ps) -> exists p k, In p ps /\ f = p (nanoid k).
Proof.
  revert n. induction ps as [|p ps IH]; intros n H; simpl in H; [destruct H|].
  destruct H as [<- | H].
  - exists p, n. split; [left|]; reflexivity.
  - destruct (IH _ H) as [q [k [Hq E]]]. exists q, k. split; [right|]; assumption.
Qed.



Lemma acceptable_iff (c : string) :
  acceptable c = true <-> (6 <= String.length c < 200)%nat.
Proof.
  unfold acceptable. rewrite andb_true_iff, !Nat.ltb_lt. lia.
Qed.

(** What the three parts of the loop body push. *)
Lemma commitmentFacts_In (i : Interaction) (p : Pending) :
  In p (commitmentFacts i) <->
  exists pattern c,
    In pattern commitmentPatterns /\ In c (clauses (fullContent i) pattern)
    /\ acceptable c = true
    /\ p = pendingFact "Commitment: " c i (7 # 10) commitment.
Proof.
  unfold commitmentFacts. rewrite in_flat_map. split.
  - intros [pattern [Hp H]]. apply in_map_iff in H. destruct H as [c [<- Hc]].
    apply filter_In in Hc. exists pattern, c. tauto.
  - intros [pattern [c [Hp [Hc [Ha ->]]]]]. exists pattern. split; [exact Hp|].
    apply in_map_iff. exists c. split; [reflexivity|]. apply filter_In. tauto.
Qed.

Lemma preferenceFacts_In (i : Interaction) (p : Pending) :
  In p (preferenceFacts i) <->
  exists pattern c,
    In pattern preferencePatterns /\ In c (clauses (fullContent i) pattern)
    /\ acceptable c = true
    /\ p = pendingFact "Preference: " c i (6 # 10) preference.
Proof.
  unfold preferenceFacts. rewrite in_flat_map. split.
  - intros [pattern [Hp H]]. apply in_map_iff in H. destruct H as [c [<- Hc]].
    apply filter_In in Hc. exists pattern, c. tauto.
  - intros [pattern [c [Hp [Hc [Ha ->]]]]]. exists pattern. split; [exact Hp|].
    apply in_map_iff. exists c. split; [reflexivity|]. apply filter_In. tauto.
Qed.

Lemma firstObjection_cases (text : string) (words : list string) (i : Interaction) :
  firstObjection text words i = []
  \/ exists w, SpecWords.FirstHit text words w
       /\ firstObjection text words i =
          [pendingFact "Potential objection mentioned: " w i (5 # 10) objection].
Proof.
  induction words as [|w words IH]; simpl; [left; reflexivity|].
  destruct (JS.includes text w) eqn:E.
  - right. exists w. split; [|reflexivity].
    exists [], words. split; [reflexivity|]. split; [exact E | intros v []].
  - destruct IH as [IH | [w' [[pre [post [Hw [Hin Hpre]]]] IH]]]; [left; exact IH|].
    right. exists w'. split; [|exact IH].
    exists (w :: pre), post. split; [simpl; congruence|]. split; [exact Hin|].
    intros v [<- | Hv]; [exact E | apply Hpre, Hv].
Qed.

Lemma objectionFacts_cases (i : Interaction) :
  objectionFacts i = []
  \/ exists w, SpecWords.FirstHit (objectionText i) objectionWords w
       /\ objectionFacts i =
          [pendingFact "Potential objection mentioned: " w i (5 # 10) objection].
Proof. apply firstObjection_cases. Qed.







End IndexerFacts.



(* ================================================================== *)
(** * The relevance score                                              *)
(* ================================================================== *)

Section RelevanceFacts.

Import MemoryRetrieval.

Local Open Scope Q_scope.

Lemma overlap_le (i : Interaction) (currentTopics : list string) :
  NoDup (topics i) -> (overlap i currentTopics <= length currentTopics)%nat.
Proof.
  intros Hn. unfold overlap. apply NoDup_incl_length.
  - apply NoDup_filter. exact Hn.
  - intros t Ht. apply filter_In in Ht. destruct Ht as [_ Ht].
    apply (existsb_eqb_In String.eqb String.eqb_eq) in Ht. exact Ht.
Qed.

Lemma recency_range (now : Z) (i : Interaction) :
  (timestamp i <= now)%Z -> 0 <= recency now i /\ recency now i <= 5 # 10.
Proof.
  intros Hts. unfold recency.
  set (a := inject_Z (now - timestamp i) / inject_Z maxAge).
  assert (0 <= a) as Ha.
  { unfold a. apply Qle_shift_div_l; [reflexivity|].
    rewrite Qmult_0_l. change 0 with (inject_Z 0). rewrite <- Zle_Qle. lia. }
  assert (0 <= Qmin a 1) as Hlo by (apply Q.min_glb; [exact Ha | discriminate]).
  assert (Qmin a 1 <= 1) as Hhi by apply Q.le_min_r.
  generalize dependent (Qmin a 1). intros m Hlo Hhi.
  split.
  - apply Qmult_le_0_compat; [discriminate|].
    apply (Qplus_le_l _ _ m). ring_simplify. exact Hhi.
  - rewrite <- (Qmult_1_r (5 # 10)) at 2.
    apply Qmult_le_l; [reflexivity|].
    apply (Qplus_le_l _ _ m). ring_simplify.
    rewrite <- (Qplus_0_r 1) at 1. rewrite (Qplus_comm m 1).
    apply Qplus_le_r. exact Hlo.
Qed.

Lemma topicScore_range (i : Interaction) (currentTopics : list string) :
  (overlap i currentTopics <= length currentTopics)%nat ->
  0 <= topicScore i currentTopics /\ topicScore i currentTopics <= 3 # 10.
Proof.
  intros Hov. unfold topicScore.
  destruct ((0 <? length currentTopics)%nat && (0 <? length (topics i))%nat) eqn:E;
    [|split; discriminate].
  apply andb_true_iff in E. destruct E as [E _]. apply Nat.ltb_lt in E.
  set (x := inject_Z (Z.of_nat (overlap i currentTopics))
            / inject_Z (Z.of_nat (length currentTopics))).
  assert (0 < inject_Z (Z.of_nat (length currentTopics))) as Hn.
  { change 0 with (inject_Z 0). rewrite <- Zlt_Qlt. lia. }
  assert (0 <= x) as Hlo.
  { unfold x. apply Qle_shift_div_l; [exact Hn|].
    rewrite Qmult_0_l. change 0 with (inject_Z 0). rewrite <- Zle_Qle. lia. }
  assert (x <= 1) as Hhi.
  { unfold x. apply Qle_shift_div_r; [exact Hn|].
    rewrite Qmult_1_l. rewrite <- Zle_Qle. lia. }
  split.
  - apply Qmult_le_0_compat; [discriminate | exact Hlo].
  - rewrite <- (Qmult_1_r (3 # 10)) at 2.
    apply Qmult_le_l; [reflexivity | exact Hhi].
Qed.

Lemma sentimentScore_range (i : Interaction) :
  0 <= sentimentScore i /\ sentimentScore i <= 2 # 10.
Proof.
  unfold sentimentScore. destruct (sentiment i) as [[| |]|]; split; discriminate.
Qed.

(** The score is the sum of the three parts, and it lies between 0 and 1
    for an interaction that is not stamped in the future and lists no
    topic twice. *)
Lemma calculateRelevance_range (now : Z) (i : Interaction)
      (currentTopics : list string) :
  (timestamp i <= now)%Z ->
  NoDup (topics i) ->
  0 <= calculateRelevance now i currentTopics
  /\ calculateRelevance now i currentTopics <= 1.
Proof.
  intros Hts Hn. unfold calculateRelevance.
  destruct (@recency_range now i Hts) as [R0 R1].
  destruct (@topicScore_range i currentTopics (@overlap_le i currentTopics Hn))
    as [T0 T1].
  destruct (sentimentScore_range i) as [S0 S1].
  generalize dependent (recency now i). intros r R0 R1.
  generalize dependent (topicScore i currentTopics). intros t T0 T1.
  generalize dependent (sentimentScore i). intros s S0 S1.
  split.
  - rewrite Qplus_0_l.
    apply (Qle_trans _ (0 + 0 + 0)); [discriminate|].
    apply Qplus_le_compat; [apply Qplus_le_compat|]; assumption.
  - rewrite Qplus_0_l.
    apply (Qle_trans _ ((5 # 10) + (3 # 10) + (2 # 10))); [|discriminate].
    apply Qplus_le_compat; [apply Qplus_le_compat|]; assumption.
Qed.

End RelevanceFacts.

(** C8, at an interaction stamped one day ahead of the clock.  The recency
    part, which the source comments as lying in 0-0.5, is 0.5 * (1 + 1/90);
    with the one topic shared and a positive sentiment the score is
    181/180, above 1. *)
Theorem relevance_of_tomorrow :
  (MemoryRetrieval.recency Sample.now Sample.tomorrow == 91 # 180)%Q
  /\ (MemoryRetrieval.calculateRelevance Sample.now Sample.tomorrow ["pricing"]
      == 181 # 180)%Q
  /\ (1 < MemoryRetrieval.calculateRelevance Sample.now Sample.tomorrow ["pricing"])%Q.
Proof. repeat split. Qed.

(* ================================================================== *)
(** * Properties of the store                                          *)
(* ================================================================== *)

Section StoreFacts.

Import Schema ContactMemoryManager.

Lemma bind_Ok {A B} (m : M A) (f : A -> M B) (s s' : option Database) (b : B) :
  bind m f s = (Ok b, s') ->
  exists a s1, m s = (Ok a, s1) /\ f a s1 = (Ok b, s').
Proof.
  unfold bind. destruct (m s) as [[a | e] s1]; intros H.
  - exists a, s1. split; [reflexivity | exact H].
  - discriminate.
Qed.

Lemma requireDb_Ok (s s' : option Database) (d : Database) :
  requireDb s = (Ok d, s') -> s = Some d /\ s' = Some d.
Proof.
  unfold requireDb. destruct s as [d0|]; intros H; inversion H; subst.
  split; reflexivity.
Qed.

Lemma run_Ok (stmt : Database -> SqliteError + Database)
      (s s' : option Database) (u : unit) :
  run stmt s = (Ok u, s') ->
  exists d d', s = Some d /\ stmt d = inr d' /\ s' = Some d'.
Proof.
  unfold run. destruct s as [d|]; [|discriminate].
  destruct (stmt d) as [e | d'] eqn:E; intros H; inversion H; subst.
  exists d, d'. repeat split; assumption.
Qed.

(** A run of inserts that all succeed appends the rows, in order. *)
Lemma insertInteraction_Ok (row : InteractionRow) (d d' : Database) :
  insertInteraction row d = inr d' ->
  d' = {| foreign_keys := foreign_keys d;
          contact_memory := contact_memory d;
          interactionsT := interactionsT d ++ [row];
          key_facts := key_facts d |}.
Proof.
  unfold insertInteraction.
  destruct (existsb _ (interactionsT d)); [discriminate|].
  destruct (foreign_keys d && negb (hasContact (icontact_id row) d));
    [discriminate|].
  intros H. inversion H. reflexivity.
Qed.

Lemma insertKeyFact_Ok (row : KeyFactRow) (d d' : Database) :
  insertKeyFact row d = inr d' ->
  d' = {| foreign_keys := foreign_keys d;
          contact_memory := contact_memory d;
          interactionsT := interactionsT d;
          key_facts := key_facts d ++ [row] |}.
Proof.
  unfold insertKeyFact.
  destruct (existsb _ (key_facts d)); [discriminate|].
  destruct (foreign_keys d && negb (hasContact (fcontact_id row) d));
    [discriminate|].
  intros H. inversion H. reflexivity.
Qed.

Lemma forEach_interactions_Ok (cid : string) (l : list Interaction)
      (d : Database) (s' : option Database) (u : unit) :
  forEach l (fun i => run (insertInteraction (interactionRow cid i))) (Some d)
  = (Ok u, s') ->
  s' = Some {| foreign_keys := foreign_keys d;
               contact_memory := contact_memory d;
               interactionsT := interactionsT d ++ map (interactionRow cid) l;
               key_facts := key_facts d |}.
Proof.
  revert d. induction l as [|i l IH]; intros d H.
  - cbn in H. inversion H. rewrite app_nil_r. destruct d; reflexivity.
  - cbn [forEach] in H. apply bind_Ok in H. destruct H as [[] [s1 [H1 H2]]].
    apply run_Ok in H1. destruct H1 as [d0 [d1 [E0 [E1 ->]]]].
    inversion E0; subst d0. apply insertInteraction_Ok in E1. subst d1.
    apply IH in H2. rewrite H2. cbn [foreign_keys contact_memory interactionsT key_facts map].
    rewrite <- app_assoc. reflexivity.
Qed.

Lemma forEach_keyFacts_Ok (cid : string) (l : list KeyFact)
      (d : Database) (s' : option Database) (u : unit) :
  forEach l (fun f => run (insertKeyFact (keyFactRow cid f))) (Some d)
  = (Ok u, s') ->
  s' = Some {| foreign_keys := foreign_keys d;
               contact_memory := contact_memory d;
               interactionsT := interactionsT d;
               key_facts := key_facts d ++ map (keyFactRow cid) l |}.
Proof.
  revert d. induction l as [|f l IH]; intros d H.
  - cbn in H. inversion H. rewrite app_nil_r. destruct d; reflexivity.
  - cbn [forEach] in H. apply bind_Ok in H. destruct H as [[] [s1 [H1 H2]]].
    apply run_Ok in H1. destruct H1 as [d0 [d1 [E0 [E1 ->]]]].
    inversion E0; subst d0. apply insertKeyFact_Ok in E1. subst d1.
    apply IH in H2. rewrite H2. cbn [foreign_keys contact_memory interactionsT key_facts map].
    rewrite <- app_assoc. reflexivity.
Qed.

Lemma storeContactMemory_Ok (memory : ContactMemoryEntry)
      (s s' : option Database) (u : unit) :
  storeContactMemory memory s = (Ok u, s') ->
  exists d, s = Some d /\ s' = Some (stored memory d).
Proof.
  unfold storeContactMemory. intros H.
  apply bind_Ok in H. destruct H as [d [s1 [H0 H]]].
  apply requireDb_Ok in H0. destruct H0 as [-> ->].
  exists d. split; [reflexivity|].
  apply bind_Ok in H. destruct H as [[] [s1 [H1 H]]].
  cbn in H1. inversion H1; subst s1. clear H1.
  apply bind_Ok in H. destruct H as [[] [s1 [H1 H]]].
  cbn in H1. inversion H1; subst s1. clear H1.
  apply bind_Ok in H. destruct H as [[] [s1 [H1 H]]].
  cbn in H1. inversion H1; subst s1. clear H1.
  apply bind_Ok in H. destruct H as [[] [s1 [H1 H]]].
  apply forEach_interactions_Ok in H1. subst s1.
  apply forEach_keyFacts_Ok in H. subst s'. reflexivity.
Qed.

Lemma find_none {A} (f : A -> bool) (l : list A) :
  (forall x, In x l -> f x = false) -> find f l = None.
Proof.
  induction l as [|x l IH]; intros H; simpl; [reflexivity|].
  rewrite (H x (or_introl eq_refl)). apply IH. intros y Hy. apply H. right. exact Hy.
Qed.

Lemma find_skip {A} (f : A -> bool) (l l' : list A) :
  (forall x, In x l -> f x = false) -> find f (l ++ l') = find f l'.
Proof.
  induction l as [|x l IH]; intros H; simpl; [reflexivity|].
  rewrite (H x (or_introl eq_refl)). apply IH. intros y Hy. apply H. right. exact Hy.
Qed.

Lemma filter_all {A} (f : A -> bool) (l : list A) :
  (forall x, In x l -> f x = true) -> filter f l = l.
Proof.
  induction l as [|x l IH]; intros H; simpl; [reflexivity|].
  rewrite (H x (or_introl eq_refl)). f_equal. apply IH.
  intros y Hy. apply H. right. exact Hy.
Qed.

Lemma filter_out_then_in {A} (f : A -> bool) (l : list A) :
  filter f (filter (fun x => negb (f x)) l) = [].
Proof.
  apply filter_none. intros x Hx. apply filter_In in Hx.
  destruct Hx as [_ Hx]. apply negb_true_iff in Hx. exact Hx.
Qed.

(** Reading a contact back from the database that its write left. *)
Lemma read_stored (memory : ContactMemoryEntry) (d : Database) :
  exists e,
    getContactMemory (contactId memory) (Some (stored memory d))
    = (Ok (Some e), Some (stored memory d))
    /\ length (interactions e) = length (interactions memory)
    /\ length (keyFacts e) = length (keyFacts memory).
Proof.
  unfold getContactMemory, bind, requireDb, ret.
  assert (selectContact (contactId memory) (stored memory d)
          = Some (contactRow memory)) as ->.
  { unfold selectContact. cbn [stored contact_memory].
    rewrite find_skip.
    - cbn. rewrite String.eqb_refl. reflexivity.
    - intros r Hr. apply filter_In in Hr. destruct Hr as [_ Hr].
      apply negb_true_iff in Hr. exact Hr. }
  eexists. split; [reflexivity|].
  cbn [interactions keyFacts]. rewrite !length_map.
  unfold selectInteractions, selectKeyFacts. rewrite !sort_length.
  cbn [stored interactionsT key_facts]. rewrite !filter_app.
  rewrite (filter_out_then_in (fun r => String.eqb (icontact_id r) (contactId memory))).
  rewrite (filter_out_then_in (fun r => String.eqb (fcontact_id r) (contactId memory))).
  cbn [app]. rewrite !filter_all, !length_map; [split; reflexivity | |].
  - intros r Hr. apply in_map_iff in Hr. destruct Hr as [f [<- _]].
    apply String.eqb_refl.
  - intros r Hr. apply in_map_iff in Hr. destruct Hr as [i [<- _]].
    apply String.eqb_refl.
Qed.

Lemma store_then_read (memory : ContactMemoryEntry) (s s' : option Database) :
  storeContactMemory memory s = (Ok tt, s') ->
  exists e,
    getContactMemory (contactId memory) s' = (Ok (Some e), s')
    /\ length (interactions e) = length (interactions memory)
    /\ length (keyFacts e) = length (keyFacts memory).
Proof.
  intros H. apply storeContactMemory_Ok in H. destruct H as [d [-> ->]].
  apply read_stored.
Qed.

End StoreFacts.

Section StoreSuccess.

Import Schema ContactMemoryManager.

Lemma existsb_none {A} (f : A -> bool) (l : list A) :
  (forall x, In x l -> f x = false) -> existsb f l = false.
Proof.
  induction l as [|x l IH]; intros H; simpl; [reflexivity|].
  rewrite (H x (or_introl eq_refl)). apply IH. intros y Hy. apply H. right. exact Hy.
Qed.

(** Rows whose ids are new to the table, and distinct, all go in, the
    contact they refer to being there. *)
Lemma forEach_interactions_succeeds (cid : string) (l : list Interaction)
      (d : Database) :
  hasContact cid d = true ->
  NoDup (map id l) ->
  (forall r, In r (interactionsT d) -> ~ In (iid r) (map id l)) ->
  forEach l (fun i => run (insertInteraction (interactionRow cid i))) (Some d)
  = (Ok tt, Some {| foreign_keys := foreign_keys d;
                    contact_memory := contact_memory d;
                    interactionsT := interactionsT d ++ map (interactionRow cid) l;
                    key_facts := key_facts d |}).
Proof.
  revert d. induction l as [|i l IH]; intros d Hc Hn Hfresh.
  - cbn. rewrite app_nil_r. destruct d; reflexivity.
  - cbn [forEach]. unfold bind, run at 1, insertInteraction.
    rewrite existsb_none.
    2:{ intros r Hr. cbn [iid interactionRow].
        destruct (String.eqb (iid r) (id i)) eqn:E; [|reflexivity].
        apply String.eqb_eq in E. exfalso. apply (Hfresh r Hr). left. congruence. }
    cbn [icontact_id interactionRow]. rewrite Hc, andb_false_r.
    inversion Hn as [|? ? Hi Hn']; subst.
    rewrite IH; cbn [foreign_keys contact_memory interactionsT key_facts].
    + rewrite <- app_assoc. reflexivity.
    + exact Hc.
    + exact Hn'.
    + intros r Hr. apply in_app_iff in Hr. destruct Hr as [Hr | [<- | []]].
      * intros Hin. apply (Hfresh r Hr). right. exact Hin.
      * exact Hi.
Qed.

Lemma forEach_keyFacts_succeeds (cid : string) (l : list KeyFact) (d : Database) :
  hasContact cid d = true ->
  NoDup (map kid l) ->
  (forall r, In r (key_facts d) -> ~ In (fid r) (map kid l)) ->
  forEach l (fun f => run (insertKeyFact (keyFactRow cid f))) (Some d)
  = (Ok tt, Some {| foreign_keys := foreign_keys d;
                    contact_memory := contact_memory d;
                    interactionsT := interactionsT d;
                    key_facts := key_facts d ++ map (keyFactRow cid) l |}).
Proof.
  revert d. induction l as [|f l IH]; intros d Hc Hn Hfresh.
  - cbn. rewrite app_nil_r. destruct d; reflexivity.
  - cbn [forEach]. unfold bind, run at 1, insertKeyFact.
    rewrite existsb_none.
    2:{ intros r Hr. cbn [fid keyFactRow].
        destruct (String.eqb (fid r) (kid f)) eqn:E; [|reflexivity].
        apply String.eqb_eq in E. exfalso. apply (Hfresh r Hr). left. congruence. }
    cbn [fcontact_id keyFactRow]. rewrite Hc, andb_false_r.
    inversion Hn as [|? ? Hi Hn']; subst.
    rewrite IH; cbn [foreign_keys contact_memory interactionsT key_facts].
    + rewrite <- app_assoc. reflexivity.
    + exact Hc.
    + exact Hn'.
    + intros r Hr. apply in_app_iff in Hr. destruct Hr as [Hr | [<- | []]].
      * intros Hin. apply (Hfresh r Hr). right. exact Hin.
      * exact Hi.
Qed.

(** A write goes through when the ids of the entry are distinct and not
    in use by the rows of another contact. *)
Lemma storeContactMemory_succeeds (memory : ContactMemoryEntry) (d : Database) :
  NoDup (map id (interactions memory)) ->
  NoDup (map kid (keyFacts memory)) ->
  (forall r, In r (interactionsT d) ->
     icontact_id r <> contactId memory ->
     ~ In (iid r) (map id (interactions memory))) ->
  (forall r, In r (key_facts d) ->
     fcontact_id r <> contactId memory ->
     ~ In (fid r) (map kid (keyFacts memory))) ->
  storeContactMemory memory (Some d) = (Ok tt, Some (stored memory d)).
Proof.
  intros Hni Hnf Hfi Hff. unfold storeContactMemory.
  unfold bind at 1. cbn [requireDb].
  unfold bind at 1. cbn [run insertOrReplaceContact].
  unfold bind at 1. cbn [run deleteInteractions foreign_keys contact_memory
                              interactionsT key_facts].
  unfold bind at 1. cbn [run deleteKeyFacts foreign_keys contact_memory
                              interactionsT key_facts].
  unfold bind at 1. rewrite forEach_interactions_succeeds.
  - rewrite forEach_keyFacts_succeeds.
    + reflexivity.
    + unfold hasContact. cbn [contact_memory]. rewrite existsb_app. cbn.
      rewrite String.eqb_refl. apply orb_true_r.
    + exact Hnf.
    + cbn [key_facts]. intros r Hr. apply filter_In in Hr. destruct Hr as [Hr E].
      apply negb_true_iff, String.eqb_neq in E. apply Hff; assumption.
  - unfold hasContact. cbn [contact_memory]. rewrite existsb_app. cbn.
    rewrite String.eqb_refl. apply orb_true_r.
  - exact Hni.
  - cbn [interactionsT]. intros r Hr. apply filter_In in Hr. destruct Hr as [Hr E].
    apply negb_true_iff, String.eqb_neq in E. apply Hfi; assumption.
Qed.

End StoreSuccess.

(* ================================================================== *)
(** * Stated properties of the store                                   *)
(* ================================================================== *)

(** C9, as the code has it.  When a write of an entry completes, a read of
    the same contact right after it returns an entry with as many
    interactions and as many key facts as were written; and a write
    completes whenever the ids of the entry are distinct and not in use by
    rows of another contact, [id] being the primary key of both tables: for
    such an entry, on an open store, the write followed by the read returns
    equal counts. *)
Theorem write_then_read (memory : ContactMemoryEntry) :
  (forall s s',
     ContactMemoryManager.storeContactMemory memory s
     = (ContactMemoryManager.Ok tt, s') ->
     exists e,
       ContactMemoryManager.getContactMemory (contactId memory) s'
       = (ContactMemoryManager.Ok (Some e), s')
       /\ length (interactions e) = length (interactions memory)
       /\ length (keyFacts e) = length (keyFacts memory))
  /\ (forall d,
        NoDup (map id (interactions memory)) ->
        NoDup (map kid (keyFacts memory)) ->
        (forall r, In r (Schema.interactionsT d) ->
           Schema.icontact_id r <> contactId memory ->
           ~ In (Schema.iid r) (map id (interactions memory))) ->
        (forall r, In r (Schema.key_facts d) ->
           Schema.fcontact_id r <> contactId memory ->
           ~ In (Schema.fid r) (map kid (keyFacts memory))) ->
        exists s',
          ContactMemoryManager.storeContactMemory memory (Some d)
          = (ContactMemoryManager.Ok tt, s'))
  /\ (forall d,
        NoDup (map id (interactions memory)) ->
        NoDup (map kid (keyFacts memory)) ->
        (forall r, In r (Schema.interactionsT d) ->
           Schema.icontact_id r <> contactId memory ->
           ~ In (Schema.iid r) (map id (interactions memory))) ->
        (forall r, In r (Schema.key_facts d) ->
           Schema.fcontact_id r <> contactId memory ->
           ~ In (Schema.fid r) (map kid (keyFacts memory))) ->
        exists s' e,
          ContactMemoryManager.storeContactMemory memory (Some d)
          = (ContactMemoryManager.Ok tt, s')
          /\ ContactMemoryManager.getContactMemory (contactId memory) s'
             = (ContactMemoryManager.Ok (Some e), s')
          /\ length (interactions e) = length (interactions memory)
          /\ length (keyFacts e) = length (keyFacts memory)).
Proof.
  split; [|split].
  - intros s s'. apply store_then_read.
  - intros d H1 H2 H3 H4. eexists.
    apply storeContactMemory_succeeds; assumption.
  - intros d H1 H2 H3 H4.
    pose proof (@storeContactMemory_succeeds memory d H1 H2 H3 H4) as Hs.
    destruct (store_then_read _ _ Hs) as [e He].
    eexists. exists e. split; [exact Hs | exact He].
Qed.

Lemma write_then_read_witness :
  exists s' e,
    ContactMemoryManager.storeContactMemory Sample.entry
      (Some (ContactMemoryManager.stored Sample.quiet (Sample.emptyDb true)))
    = (ContactMemoryManager.Ok tt, s')
    /\ ContactMemoryManager.getContactMemory "c1" s'
       = (ContactMemoryManager.Ok (Some e), s')
    /\ length (interactions e) = 2%nat
    /\ length (keyFacts e) = 1%nat.
Proof.
  apply (proj2 (proj2 (write_then_read Sample.entry))
           (ContactMemoryManager.stored Sample.quiet (Sample.emptyDb true))).
  - repeat constructor; simpl; intuition discriminate.
  - repeat constructor; simpl; intuition discriminate.
  - intros r Hr _. vm_compute in Hr.
    destruct Hr as [<- | [<- | []]]; simpl; intuition discriminate.
  - intros r Hr _. vm_compute in Hr.
    destruct Hr as [<- | []]; simpl; intuition discriminate.
Defined.

(** C9, as the specification states it, fails for an entry whose write the
    primary key refuses.  An entry that lists one interaction twice: the
    write throws at the second insert, and the read that follows returns
    one interaction and no key fact where two and one were written.  An
    entry whose only interaction carries an id that another contact's
    interaction has: the write throws, and the read returns no interaction
    where one was written. *)
Lemma write_refused_by_primary_key :
  (exists s' e,
     ContactMemoryManager.storeContactMemory Sample.repeated
       (Some (Sample.emptyDb true))
     = (ContactMemoryManager.Throw
          (ContactMemoryManager.Sqlite Schema.PrimaryKeyConstraint), s')
     /\ ContactMemoryManager.getContactMemory (contactId Sample.repeated) s'
        = (ContactMemoryManager.Ok (Some e), s')
     /\ length (interactions Sample.repeated) = 2%nat
     /\ length (interactions e) = 1%nat
     /\ length (keyFacts Sample.repeated) = 1%nat
     /\ length (keyFacts e) = 0%nat)
  /\ (exists s' e,
        NoDup (map id (interactions Sample.namesake))
        /\ ContactMemoryManager.storeContactMemory Sample.namesake
             (Some (ContactMemoryManager.stored Sample.entry (Sample.emptyDb true)))
           = (ContactMemoryManager.Throw
                (ContactMemoryManager.Sqlite Schema.PrimaryKeyConstraint), s')
        /\ ContactMemoryManager.getContactMemory (contactId Sample.namesake) s'
           = (ContactMemoryManager.Ok (Some e), s')
        /\ length (interactions Sample.namesake) = 1%nat
        /\ length (interactions e) = 0%nat).
Proof.
  split.
  - eexists. eexists. split; [vm_compute; reflexivity|].
    split; [vm_compute; reflexivity|]. repeat split.
  - eexists. eexists.
    split; [repeat constructor; intros []|].
    split; [vm_compute; reflexivity|].
    split; [vm_compute; reflexivity|]. repeat split.
Qed.

(** C10, as the code has it.  [addInteraction] looks no contact up, and
    NotFound is no outcome of it.  For a contact without an entry and an
    interaction id that is not in use: on a connection that does not
    enforce the foreign key of the schema the row is inserted, and a read
    of the contact still finds nothing; on a connection that enforces it
    the insert is refused with a constraint error, nothing is inserted,
    and a read of the contact finds nothing either. *)
Theorem addInteraction_without_entry (d : Schema.Database) (now : Z)
        (cid : string) (i : Interaction) :
  Schema.hasContact cid d = false ->
  (forall r, In r (Schema.interactionsT d) -> Schema.iid r <> id i) ->
  (Schema.foreign_keys d = false ->
   exists d',
     ContactMemoryManager.addInteraction now cid i (Some d)
     = (ContactMemoryManager.Ok tt, Some d')
     /\ Schema.interactionsT d'
        = Schema.interactionsT d ++ [ContactMemoryManager.interactionRow cid i]
     /\ ContactMemoryManager.getContactMemory cid (Some d')
        = (ContactMemoryManager.Ok None, Some d'))
  /\ (Schema.foreign_keys d = true ->
      ContactMemoryManager.addInteraction now cid i (Some d)
      = (ContactMemoryManager.Throw
           (ContactMemoryManager.Sqlite Schema.ForeignKeyConstraint), Some d)
      /\ ContactMemoryManager.getContactMemory cid (Some d)
         = (ContactMemoryManager.Ok None, Some d)).
Proof.
  intros Hc Hfresh.
  assert (existsb (fun r => String.eqb (Schema.iid r) (id i)) (Schema.interactionsT d)
          = false) as Hid.
  { apply existsb_none. intros r Hr. apply String.eqb_neq. apply Hfresh, Hr. }
  assert (forall rows : list Schema.ContactMemoryRow,
            existsb (fun r => String.eqb (Schema.contact_id r) cid) rows = false ->
            find (fun r => String.eqb (Schema.contact_id r) cid) rows = None) as Hfind.
  { intros rows H. apply find_none. intros r Hr.
    destruct (String.eqb (Schema.contact_id r) cid) eqn:E; [|reflexivity].
    assert (existsb (fun r => String.eqb (Schema.contact_id r) cid) rows = true) as Ht
      by (apply existsb_exists; exists r; split; assumption).
    congruence. }
  unfold Schema.hasContact in Hc.
  split; intros Hfk.
  - eexists. split; [|split].
    + unfold ContactMemoryManager.addInteraction, ContactMemoryManager.bind,
        ContactMemoryManager.requireDb, ContactMemoryManager.run,
        Schema.insertInteraction.
      cbn [Schema.iid ContactMemoryManager.interactionRow].
      rewrite Hid, Hfk. cbn [andb Schema.updateLastUpdated]. reflexivity.
    + reflexivity.
    + unfold ContactMemoryManager.getContactMemory, ContactMemoryManager.bind,
        ContactMemoryManager.requireDb, Schema.selectContact.
      cbn [Schema.contact_memory].
      rewrite Hfind; [reflexivity|].
      apply existsb_none. intros r Hr. apply in_map_iff in Hr.
      destruct Hr as [r0 [<- Hr0]].
      destruct (String.eqb (Schema.contact_id r0) cid) eqn:E.
      * assert (existsb (fun r => String.eqb (Schema.contact_id r) cid)
                        (Schema.contact_memory d) = true) as Ht
          by (apply existsb_exists; exists r0; split; assumption).
        congruence.
      * exact E.
  - split.
    + unfold ContactMemoryManager.addInteraction, ContactMemoryManager.bind,
        ContactMemoryManager.requireDb, ContactMemoryManager.run,
        Schema.insertInteraction.
      cbn [Schema.iid Schema.icontact_id ContactMemoryManager.interactionRow].
      unfold Schema.hasContact. rewrite Hid, Hfk, Hc. reflexivity.
    + unfold ContactMemoryManager.getContactMemory, ContactMemoryManager.bind,
        ContactMemoryManager.requireDb, Schema.selectContact.
      rewrite (Hfind _ Hc). reflexivity.
Qed.

Lemma addInteraction_without_entry_witness :
  Schema.hasContact "nobody" (Sample.emptyDb false) = false
  /\ exists d',
       ContactMemoryManager.addInteraction Sample.now "nobody" Sample.call
         (Some (Sample.emptyDb false))
       = (ContactMemoryManager.Ok tt, Some d')
       /\ ContactMemoryManager.getContactMemory "nobody" (Some d')
          = (ContactMemoryManager.Ok None, Some d').
Proof.
  assert (Schema.hasContact "nobody" (Sample.emptyDb false) = false) as Hc
    by reflexivity.
  assert (forall r, In r (Schema.interactionsT (Sample.emptyDb false)) ->
                    Schema.iid r <> id Sample.call) as Hfresh
    by (intros r []).
  split; [exact Hc|].
  destruct (proj1 (addInteraction_without_entry (Sample.emptyDb false) Sample.now
                     "nobody" Sample.call Hc Hfresh) eq_refl)
    as [d' [H1 [_ H2]]].
  exists d'. split; [exact H1 | exact H2].
Defined.

(** C10, as the specification states it, fails on a connection that enforces
    foreign keys: the append for a contact without an entry does not
    succeed, and no row is inserted. *)
Lemma addInteraction_refused :
  ContactMemoryManager.addInteraction Sample.now "nobody" Sample.call
    (Some (Sample.emptyDb true))
  = (ContactMemoryManager.Throw
       (ContactMemoryManager.Sqlite Schema.ForeignKeyConstraint),
     Some (Sample.emptyDb true))
  /\ Schema.interactionsT (Sample.emptyDb true) = [].
Proof. split; reflexivity. Qed.

(* ================================================================== *)
(** * Stated properties of a sync                                      *)
(* ================================================================== *)

Section SyncFacts.

Import ContactMemoryManager.

(** What a sync stores when it compacts: as many of the sorted
    interactions as the compaction kept. *)
Lemma finalInteractionsOf_compacting (clock : SyncClock) (l : list Interaction) :
  MemoryCompactor.shouldCompact (atShouldCompact clock) l = true ->
  finalInteractionsOf clock l =
  firstn (length (MemoryCompactor.final (atCompact clock) l))
         (MemoryCompactor.newestFirst l).
Proof.
  intros H. unfold finalInteractionsOf. rewrite H, compact_eq. reflexivity.
Qed.

Lemma final_length (now : Z) (l : list Interaction) :
  (length (MemoryCompactor.final now l) <= 100)%nat.
Proof. apply firstn_le_length. Qed.

Lemma sync_Ok (ghl : GHLAnswer) (nanoid : nat -> string) (clock : SyncClock)
      (locId cid : string) (s s' : option Schema.Database) :
  syncContactFromGHL ghl nanoid clock locId cid s = (Ok tt, s') ->
  exists e,
    getContactMemory cid s' = (Ok (Some e), s')
    /\ length (interactions e) =
       length (finalInteractionsOf clock
                 (ContactMemoryIndexer.indexMessages
                    (GHLConversations.getAllContactMessages (conversations ghl)))).
Proof.
  unfold syncContactFromGHL. intros H.
  apply bind_Ok in H. destruct H as [d [s1 [H0 H]]].
  apply requireDb_Ok in H0. destruct H0 as [-> ->].
  destruct (contactContext ghl) as [[contactName prefs]|]; [|discriminate].
  apply store_then_read in H. cbn [contactId interactions] in H.
  destruct H as [e [H1 [H2 _]]]. exists e. split; assumption.
Qed.

End SyncFacts.

(** C2, as the code has it.  After a sync that completes, a read of the
    contact returns at most 100 interactions when [shouldCompact] held for
    the batch, and otherwise exactly as many interactions as the source
    returned messages, over all conversations of the contact. *)
Theorem sync_interaction_count (ghl : ContactMemoryManager.GHLAnswer)
        (nanoid : nat -> string) (clock : ContactMemoryManager.SyncClock)
        (locId cid : string) (s s' : option Schema.Database) :
  ContactMemoryManager.syncContactFromGHL ghl nanoid clock locId cid s
  = (ContactMemoryManager.Ok tt, s') ->
  exists e,
    ContactMemoryManager.getContactMemory cid s'
    = (ContactMemoryManager.Ok (Some e), s')
    /\ (MemoryCompactor.shouldCompact
          (ContactMemoryManager.atShouldCompact clock)
          (ContactMemoryIndexer.indexMessages
             (GHLConversations.getAllContactMessages
                (ContactMemoryManager.conversations ghl))) = true ->
        (length (interactions e) <= 100)%nat)
    /\ (MemoryCompactor.shouldCompact
          (ContactMemoryManager.atShouldCompact clock)
          (ContactMemoryIndexer.indexMessages
             (GHLConversations.getAllContactMessages
                (ContactMemoryManager.conversations ghl))) = false ->
        length (interactions e)
        = length (concat (ContactMemoryManager.conversations ghl))).
Proof.
  intros H. apply sync_Ok in H. destruct H as [e [H1 H2]].
  exists e. split; [exact H1|]. split; intros Hc.
  - rewrite H2, (finalInteractionsOf_compacting _ _ Hc).
    rewrite firstn_le_length. apply final_length.
  - rewrite H2. unfold ContactMemoryManager.finalInteractionsOf. rewrite Hc.
    unfold ContactMemoryIndexer.indexMessages,
      GHLConversations.getAllContactMessages.
    rewrite length_map, sort_length. reflexivity.
Qed.

Lemma sync_interaction_count_witness :
  ContactMemoryManager.syncContactFromGHL Sample.agedAnswer Sample.nanoid
    Sample.clock "loc" "c1" (Some (Sample.emptyDb true))
  = (ContactMemoryManager.Ok tt, Sample.afterAgedSync)
  /\ exists e,
       ContactMemoryManager.getContactMemory "c1" Sample.afterAgedSync
       = (ContactMemoryManager.Ok (Some e), Sample.afterAgedSync)
       /\ (length (interactions e) <= 100)%nat.
Proof.
  assert (ContactMemoryManager.syncContactFromGHL Sample.agedAnswer Sample.nanoid
            Sample.clock "loc" "c1" (Some (Sample.emptyDb true))
          = (ContactMemoryManager.Ok tt, Sample.afterAgedSync)) as H
    by (vm_compute; reflexivity).
  split; [exact H|].
  destruct (sync_interaction_count _ _ _ _ _ _ H) as [e [H1 [H2 _]]].
  exists e. split; [exact H1|]. apply H2. vm_compute. reflexivity.
Defined.

(** C2, as the specification states it, fails for a contact with two conversations
    of sixty messages each, all of the last five days: nothing is older
    than 30 days, no compaction runs, and the read returns 120
    interactions. *)
Lemma sync_of_busy_contact :
  Forall (fun c => (length c <= 100)%nat)
         (ContactMemoryManager.conversations Sample.busyAnswer)
  /\ ContactMemoryManager.syncContactFromGHL Sample.busyAnswer Sample.nanoid
       Sample.clock "loc" "c1" (Some (Sample.emptyDb true))
     = (ContactMemoryManager.Ok tt, Sample.afterBusySync)
  /\ exists e,
       ContactMemoryManager.getContactMemory "c1" Sample.afterBusySync
       = (ContactMemoryManager.Ok (Some e), Sample.afterBusySync)
       /\ length (interactions e) = 120%nat.
Proof.
  split; [|split].
  - repeat constructor; vm_compute; lia.
  - vm_compute. reflexivity.
  - eexists. split; vm_compute; reflexivity.
Qed.

(** C1, at a contact with twenty messages of the last day and eighty of
    the week of 29 January 2024.  The compaction runs and keeps 21
    interactions, the last of them the summary of that week; [compact]
    returns the count, not the set, and the sync stores the 21 newest
    interactions of the batch instead, so the summary never reaches the
    store. *)
Theorem sync_stores_no_summary :
  MemoryCompactor.shouldCompact Sample.now Sample.agedBatch = true
  /\ compactedCount (fst (MemoryCompactor.compact Sample.now Sample.agedBatch))
     = 21%nat
  /\ map id (MemoryCompactor.final Sample.now Sample.agedBatch)
     = map id (firstn 20 Sample.agedBatch) ++ ["summary_2024-W4"]
  /\ ContactMemoryManager.syncContactFromGHL Sample.agedAnswer Sample.nanoid
       Sample.clock "loc" "c1" (Some (Sample.emptyDb true))
     = (ContactMemoryManager.Ok tt, Sample.afterAgedSync)
  /\ exists e,
       ContactMemoryManager.getContactMemory "c1" Sample.afterAgedSync
       = (ContactMemoryManager.Ok (Some e), Sample.afterAgedSync)
       /\ map id (interactions e) = map id (firstn 21 Sample.agedBatch)
       /\ ~ In "summary_2024-W4" (map id (interactions e)).
Proof.
  split; [vm_compute; reflexivity|].
  split; [vm_compute; reflexivity|].
  split; [vm_compute; reflexivity|].
  split; [vm_compute; reflexivity|].
  eexists. split; [vm_compute; reflexivity|].
  split; [vm_compute; reflexivity|].
  vm_compute. intuition discriminate.
Qed.

(* ================================================================== *)
(** * Further properties of the host model                             *)
(* ================================================================== *)

Section SortMore.

Context {A : Type}.
Variable after : A -> A -> bool.

Lemma insertBy_Permutation (x : A) (l : list A) :
  Permutation (x :: l) (JS.insertBy after x l).
Proof.
  induction l as [|y l IH]; simpl; [reflexivity|].
  destruct (after x y); [|reflexivity].
  rewrite perm_swap. apply perm_skip. exact IH.
Qed.

Lemma sort_Permutation (l : list A) : Permutation l (JS.sort after l).
Proof.
  unfold JS.sort. induction l as [|x l IH]; simpl; [reflexivity|].
  rewrite <- insertBy_Permutation. apply perm_skip. exact IH.
Qed.

(** The order [R] that a comparator sorts by: [R x y] when [x] may stand
    before [y]. *)
Variable R : A -> A -> Prop.
Hypothesis R_trans : forall x y z, R x y -> R y z -> R x z.
Hypothesis after_true : forall x y, after x y = true -> R y x.
Hypothesis after_false : forall x y, after x y = false -> R x y.

Lemma insertBy_ordered (x : A) (l : list A) :
  StronglySorted R l -> StronglySorted R (JS.insertBy after x l).
Proof.
  induction l as [|y l IH]; intros Hs; simpl.
  - constructor; constructor.
  - inversion Hs as [|? ? Hs' Hall]; subst.
    destruct (after x y) eqn:E.
    + constructor; [auto|].
      rewrite Forall_forall in *. intros z Hz.
      apply insertBy_In in Hz. destruct Hz as [->|Hz]; [apply after_true, E | auto].
    + constructor; [assumption|].
      constructor; [apply after_false, E|].
      rewrite Forall_forall in *. intros z Hz.
      apply (R_trans (after_false E)). apply Hall, Hz.
Qed.

Lemma sort_ordered (l : list A) : StronglySorted R (JS.sort after l).
Proof.
  unfold JS.sort. induction l as [|x l IH]; simpl.
  - constructor.
  - apply insertBy_ordered. exact IH.
Qed.

(** A list that no comparison wants to change is left as it is: the sort
    is stable. *)
Lemma sort_stable (l : list A) :
  StronglySorted (fun x y => after x y = false) l -> JS.sort after l = l.
Proof.
  unfold JS.sort. induction 1 as [|x l Hs IH Hall]; simpl; [reflexivity|].
  rewrite IH. destruct l as [|y l]; [reflexivity|].
  simpl. inversion Hall as [|? ? Hxy _]; subst. rewrite Hxy. reflexivity.
Qed.

End SortMore.

Lemma sort_map {A B} (f : A -> B) (afterA : A -> A -> bool) (afterB : B -> B -> bool)
      (l : list A) :
  (forall x y, afterB (f x) (f y) = afterA x y) ->
  JS.sort afterB (map f l) = map f (JS.sort afterA l).
Proof.
  intros H. unfold JS.sort. induction l as [|x l IH]; simpl; [reflexivity|].
  rewrite IH. generalize (fold_right (JS.insertBy afterA) [] l). clear IH.
  intros s. induction s as [|y s IHs]; simpl; [reflexivity|].
  rewrite H. destruct (afterA x y); simpl; congruence.
Qed.

Lemma StronglySorted_app_cross {A} (R : A -> A -> Prop) (l1 l2 : list A) :
  StronglySorted R (l1 ++ l2) ->
  forall x y, In x l1 -> In y l2 -> R x y.
Proof.
  induction l1 as [|a l1 IH]; intros Hs x y Hx Hy; [destruct Hx|].
  simpl in Hs. inversion Hs as [|? ? Hs' Hall]; subst.
  destruct Hx as [<- | Hx].
  - rewrite Forall_forall in Hall. apply Hall. apply in_or_app. right. exact Hy.
  - apply IH; assumption.
Qed.

Lemma StronglySorted_firstn {A} (R : A -> A -> Prop) (n : nat) (l : list A) :
  StronglySorted R l -> StronglySorted R (firstn n l).
Proof.
  revert l. induction n as [|n IH]; intros l Hs; simpl; [constructor|].
  destruct l as [|x l]; [constructor|].
  inversion Hs as [|? ? Hs' Hall]; subst. constructor; [apply IH, Hs'|].
  rewrite Forall_forall in *. intros y Hy. apply Hall.
  eapply firstn_subset, Hy.
Qed.

Lemma sliceTo_firstn {A} (k : Z) (l : list A) :
  exists n, JS.sliceTo k l = firstn n l.
Proof.
  unfold JS.sliceTo. destruct (k <? 0); eexists; reflexivity.
Qed.

Lemma sliceTo_length {A} (k : Z) (l : list A) :
  0 <= k -> Z.of_nat (length (JS.sliceTo k l)) <= k.
Proof.
  intros Hk. unfold JS.sliceTo.
  destruct (k <? 0) eqn:E; [apply Z.ltb_lt in E; lia|].
  pose proof (firstn_le_length (Z.to_nat k) l). lia.
Qed.

(* ================================================================== *)
(** * Further properties of the compactor                              *)
(* ================================================================== *)






(** X1.  The recency floor: the first twenty interactions of the set that
    [compact] keeps are the twenty newest of its input, in order and as
    they were; none of them is folded into a summary. *)
Theorem compact_recency_floor (now : Z) (l : list Interaction) :
  firstn 20 (MemoryCompactor.final now l)
  = firstn 20 (MemoryCompactor.newestFirst l).
Proof.
  unfold MemoryCompactor.final, JS.slice0, MemoryCompactor.maxInteractions.
  rewrite firstn_firstn. change (Nat.min 20 100) with 20%nat.
  rewrite compacted_eq, recentOf_eq.
  destruct (Nat.le_gt_cases 20 (length (MemoryCompactor.newestFirst l))) as [H | H].
  - rewrite <- app_assoc, firstn_app.
    rewrite firstn_firstn. change (Nat.min 20 20) with 20%nat.
    rewrite length_firstn, Nat.min_l by exact H.
    rewrite Nat.sub_diag. simpl firstn at 2. apply app_nil_r.
  - unfold MemoryCompactor.keptOld, MemoryCompactor.toKeepOf. rewrite oldOf_eq.
    rewrite (skipn_all2 (MemoryCompactor.newestFirst l)) by lia.
    cbn [filter]. change (MemoryCompactor.summarizeInteractions []) with (@nil Interaction).
    rewrite !app_nil_r, firstn_firstn. reflexivity.
Qed.


(** X3.  A compaction changes nothing but the order when the list holds at
    most 100 interactions and, behind the twenty newest, all are younger
    than 30 days: every interaction is kept, newest first, nothing is
    removed and nothing summarized. *)
Theorem compact_nothing_to_do (now : Z) (l : list Interaction) :
  (length l <= 100)%nat ->
  (forall i, In i (skipn 20 (MemoryCompactor.newestFirst l)) ->
             now - timestamp i < MemoryCompactor.summaryThreshold) ->
  MemoryCompactor.final now l = MemoryCompactor.newestFirst l
  /\ fst (MemoryCompactor.compact now l)
     = {| originalCount := length l; compactedCount := length l;
          summarized := 0; removed := 0 |}.
Proof.
  intros Hlen Hyoung.
  assert (MemoryCompactor.oldOf now l = []) as Hold.
  { rewrite oldOf_eq. apply filter_none. intros i Hi.
    apply negb_false_iff, Z.ltb_lt, Hyoung, Hi. }
  assert (MemoryCompactor.recentOf now l = MemoryCompactor.newestFirst l) as Hrec.
  { rewrite recentOf_eq, filter_all; [apply firstn_skipn|].
    intros i Hi. apply Z.ltb_lt, Hyoung, Hi. }
  assert (MemoryCompactor.keptOld now l = []) as Hkept
    by (unfold MemoryCompactor.keptOld; rewrite Hold; reflexivity).
  assert (MemoryCompactor.compacted now l = MemoryCompactor.newestFirst l) as Hcomp
    by (rewrite compacted_eq, Hrec, Hkept; apply app_nil_r).
  assert (MemoryCompactor.final now l = MemoryCompactor.newestFirst l) as Hfin.
  { unfold MemoryCompactor.final, JS.slice0. rewrite Hcomp.
    apply firstn_all2. unfold MemoryCompactor.newestFirst.
    rewrite sort_length. exact Hlen. }
  split; [exact Hfin|].
  rewrite compact_eq. cbn [fst]. rewrite Hfin, Hcomp, Hold, Hkept.
  unfold MemoryCompactor.newestFirst. rewrite sort_length. cbn.
  f_equal. lia.
Qed.

Lemma compact_nothing_to_do_witness :
  (length Sample.lastHours = 25)%nat
  /\ In (Sample.interaction "h25" (Sample.now - 25 * Sample.hour) None [])
        (skipn 20 (MemoryCompactor.newestFirst Sample.lastHours))
  /\ MemoryCompactor.final Sample.now Sample.lastHours
     = MemoryCompactor.newestFirst Sample.lastHours
  /\ fst (MemoryCompactor.compact Sample.now Sample.lastHours)
     = {| originalCount := 25; compactedCount := 25;
          summarized := 0; removed := 0 |}.
Proof.
  assert (length Sample.lastHours = 25)%nat as Hlen by (vm_compute; reflexivity).
  assert (length Sample.lastHours <= 100)%nat as H1 by (rewrite Hlen; lia).
  assert (forall i, In i (skipn 20 (MemoryCompactor.newestFirst Sample.lastHours)) ->
                    Sample.now - timestamp i < MemoryCompactor.summaryThreshold) as H2.
  { assert (forallb (fun i => Sample.now - timestamp i
                              <? MemoryCompactor.summaryThreshold)
                    (skipn 20 (MemoryCompactor.newestFirst Sample.lastHours))
            = true) as Hall by (vm_compute; reflexivity).
    intros i Hi. apply Z.ltb_lt.
    exact (proj1 (forallb_forall _ _) Hall i Hi). }
  split; [exact Hlen|].
  split; [vm_compute; do 4 right; left; reflexivity|].
  rewrite <- Hlen.
  exact (compact_nothing_to_do Sample.now Sample.lastHours H1 H2).
Defined.

(* ================================================================== *)
(** * The message source                                               *)
(* ================================================================== *)

(** X4.  [getAllContactMessages] returns every message of every
    conversation, once each, newest first; messages that are already in
    that order, those of equal date included, stay as they are. *)
Theorem getAllContactMessages_order (perConversation : list (list GHLMessage)) :
  Permutation (concat perConversation)
              (GHLConversations.getAllContactMessages perConversation)
  /\ SpecWords.NewestFirst dateAdded
       (GHLConversations.getAllContactMessages perConversation)
  /\ (SpecWords.NewestFirst dateAdded (concat perConversation) ->
      GHLConversations.getAllContactMessages perConversation
      = concat perConversation).
Proof.
  split; [apply sort_Permutation|]. split; [apply getAllContactMessages_sorted|].
  intros Hs. apply sort_stable.
  unfold SpecWords.NewestFirst in Hs.
  induction Hs as [|x l Hs IH Hall]; constructor; [exact IH|].
  rewrite Forall_forall in *. intros y Hy. apply Z.ltb_ge.
  specialize (Hall y Hy). lia.
Qed.

Lemma getAllContactMessages_order_witness :
  SpecWords.NewestFirst dateAdded (concat [Sample.recentConversation])
  /\ GHLConversations.getAllContactMessages [Sample.recentConversation]
     = concat [Sample.recentConversation].
Proof.
  assert (SpecWords.NewestFirst dateAdded (concat [Sample.recentConversation])) as H.
  { assert (concat [Sample.recentConversation]
            = GHLConversations.getAllContactMessages [Sample.recentConversation]) as ->
      by (vm_compute; reflexivity).
    apply getAllContactMessages_sorted. }
  split; [exact H|].
  exact (proj2 (proj2 (getAllContactMessages_order [Sample.recentConversation])) H).
Defined.

(* ================================================================== *)
(** * Properties of strings                                            *)
(* ================================================================== *)

Lemma append_length (a b : string) :
  String.length (a +++ b) = (String.length a + String.length b)%nat.
Proof. induction a as [|c a IH]; simpl; congruence. Qed.

Lemma append_assoc (a b c : string) : (a +++ b) +++ c = a +++ b +++ c.
Proof. induction a as [|x a IH]; simpl; congruence. Qed.

Lemma append_empty_r (a : string) : a +++ "" = a.
Proof. induction a as [|x a IH]; simpl; congruence. Qed.

Lemma substring0_length (n : nat) (s : string) :
  String.length (String.substring 0 n s) = Nat.min n (String.length s).
Proof.
  revert s. induction n as [|n IH]; intros [|c s]; simpl; try reflexivity.
  rewrite IH. reflexivity.
Qed.

Lemma prefix_refl_app (p s : string) : String.prefix p (p +++ s) = true.
Proof.
  induction p as [|c p IH]; simpl.
  - destruct s; reflexivity.
  - destruct (ascii_dec c c) as [_|N]; [exact IH | congruence].
Qed.

Lemma prefix_substring0 (n : nat) (s : string) :
  String.prefix (String.substring 0 n s) s = true.
Proof.
  revert s. induction n as [|n IH]; intros [|c s]; simpl; try reflexivity.
  destruct (ascii_dec c c) as [_|N]; [apply IH | congruence].
Qed.

Lemma substring_all (s : string) : String.substring 0 (String.length s) s = s.
Proof. induction s as [|c s IH]; simpl; congruence. Qed.

Lemma substring_after (p s : string) :
  String.substring (String.length p) (String.length (p +++ s) - String.length p)
                   (p +++ s) = s.
Proof.
  induction p as [|c p IH]; simpl.
  - rewrite Nat.sub_0_r. apply substring_all.
  - exact IH.
Qed.

Lemma replaceFirst_unfold (p r s : string) :
  JS.replaceFirst p r s =
  if String.prefix p s
  then r +++ String.substring (String.length p)
                              (String.length s - String.length p) s
  else match s with
       | EmptyString => EmptyString
       | String c s' => String c (JS.replaceFirst p r s')
       end.
Proof. destruct s; reflexivity. Qed.

Lemma replaceFirst_prefix (p s : string) : JS.replaceFirst p "" (p +++ s) = s.
Proof.
  rewrite replaceFirst_unfold, prefix_refl_app. apply substring_after.
Qed.

Lemma includes_unfold (s w : string) :
  JS.includes s w =
  String.prefix w s
  || match s with
     | EmptyString => false
     | String _ s' => JS.includes s' w
     end.
Proof. destruct s; reflexivity. Qed.

Lemma includes_here (w s : string) : JS.includes (w +++ s) w = true.
Proof. rewrite includes_unfold, prefix_refl_app. reflexivity. Qed.

Lemma includes_later (a s w : string) :
  JS.includes s w = true -> JS.includes (a +++ s) w = true.
Proof.
  induction a as [|c a IH]; intros H; [exact H|].
  simpl. rewrite (IH H). apply orb_true_r.
Qed.

Lemma includes_middle (a w b : string) : JS.includes (a +++ w +++ b) w = true.
Proof. apply includes_later, includes_here. Qed.

Lemma string_of_app (l1 l2 : list ascii) :
  string_of_list_ascii (l1 ++ l2)
  = string_of_list_ascii l1 +++ string_of_list_ascii l2.
Proof. induction l1 as [|c l1 IH]; simpl; congruence. Qed.

(* ================================================================== *)
(** * Further properties of the indexer                                *)
(* ================================================================== *)

(** X5.  The summary of a message is never longer than 100 characters: a
    body of at most 100 characters is its own summary, and a longer one is
    cut to its first 97 characters followed by three full stops. *)
Theorem summarizeMessage_bound (text : string) :
  (String.length (ContactMemoryIndexer.summarizeMessage text) <= 100)%nat
  /\ ((String.length text <= 100)%nat ->
      ContactMemoryIndexer.summarizeMessage text = text)
  /\ ((100 < String.length text)%nat ->
      String.length (ContactMemoryIndexer.summarizeMessage text) = 100%nat
      /\ exists head,
           ContactMemoryIndexer.summarizeMessage text = head +++ "..."
           /\ String.length head = 97%nat
           /\ String.prefix head text = true).
Proof.
  unfold ContactMemoryIndexer.summarizeMessage, JS.substring0.
  destruct (String.length text <=? 100)%nat eqn:E.
  - apply Nat.leb_le in E. split; [exact E|]. split; [reflexivity | lia].
  - apply Nat.leb_gt in E.
    assert (String.length (String.substring 0 97 text) = 97%nat) as H97
      by (rewrite substring0_length; lia).
    split; [rewrite append_length, H97; simpl; lia|]. split; [lia|].
    intros _. split; [rewrite append_length, H97; reflexivity|].
    exists (String.substring 0 97 text).
    split; [reflexivity|]. split; [exact H97 | apply prefix_substring0].
Qed.

Lemma summarizeMessage_bound_witness :
  (String.length "ok" <= 100)%nat
  /\ ContactMemoryIndexer.summarizeMessage "ok" = "ok".
Proof.
  assert (String.length "ok" <= 100)%nat as H by (simpl; lia).
  split; [exact H|].
  exact (proj1 (proj2 (summarizeMessage_bound "ok")) H).
Defined.

(** X6.  The topics of a text are those of the five topics of the taxonomy
    of which a keyword occurs in the lowered text, each once. *)
Theorem extractTopics_taxonomy (text : string) :
  NoDup (ContactMemoryIndexer.extractTopics text)
  /\ (length (ContactMemoryIndexer.extractTopics text) <= 5)%nat
  /\ (forall topic,
        In topic (ContactMemoryIndexer.extractTopics text) <->
        exists keywords,
          In (topic, keywords) ContactMemoryIndexer.topicKeywords
          /\ exists keyword,
               In keyword keywords
               /\ JS.includes (JS.toLowerCase text) keyword = true)
  /\ incl (ContactMemoryIndexer.extractTopics text)
          ["pricing"; "scheduling"; "support"; "product"; "billing"].
Proof.
  assert (forall topic,
        In topic (ContactMemoryIndexer.extractTopics text) <->
        exists keywords,
          In (topic, keywords) ContactMemoryIndexer.topicKeywords
          /\ exists keyword,
               In keyword keywords
               /\ JS.includes (JS.toLowerCase text) keyword = true) as Hin.
  { intros topic. unfold ContactMemoryIndexer.extractTopics.
    rewrite (setOf_In String.eqb String.eqb_eq), in_flat_map. split.
    - intros [[t kws] [He Ht]]. cbn [fst snd] in Ht.
      destruct (existsb (JS.includes (JS.toLowerCase text)) kws) eqn:E;
        [|destruct Ht].
      destruct Ht as [<- | []]. exists kws. split; [exact He|].
      apply existsb_exists in E. exact E.
    - intros [kws [He Hk]]. exists (topic, kws). split; [exact He|].
      cbn [fst snd]. apply existsb_exists in Hk. rewrite Hk. left. reflexivity. }
  assert (incl (ContactMemoryIndexer.extractTopics text)
               ["pricing"; "scheduling"; "support"; "product"; "billing"]) as Hincl.
  { intros topic Ht. apply Hin in Ht. destruct Ht as [kws [He _]].
    apply (in_map fst) in He. exact He. }
  assert (NoDup (ContactMemoryIndexer.extractTopics text)) as Hnd
    by apply (setOf_NoDup String.eqb String.eqb_eq).
  split; [exact Hnd|]. split; [|split; [exact Hin | exact Hincl]].
  apply (NoDup_incl_length Hnd Hincl).
Qed.

(** X7.  No label of the message source maps to the phone channel, and
    every label other than SMS, Email, WhatsApp and Live_Chat maps to
    other; a label is any string that is not the name of a property
    inherited from [Object.prototype]. *)
Theorem mapChannelType_range (ghlType : string) :
  ~ In ghlType SpecWords.objectPrototypeNames ->
  ContactMemoryIndexer.mapChannelType ghlType <> phone
  /\ (ghlType <> "SMS" -> ghlType <> "Email" -> ghlType <> "WhatsApp" ->
      ghlType <> "Live_Chat" ->
      ContactMemoryIndexer.mapChannelType ghlType = other).
Proof.
  intros _.
  unfold ContactMemoryIndexer.mapChannelType, ContactMemoryIndexer.typeMap.
  cbn [ContactMemoryIndexer.lookup].
  rewrite !(String.eqb_sym _ ghlType).
  destruct (String.eqb_spec ghlType "SMS");
    [split; [discriminate | congruence]|].
  destruct (String.eqb_spec ghlType "Email");
    [split; [discriminate | congruence]|].
  destruct (String.eqb_spec ghlType "WhatsApp");
    [split; [discriminate | congruence]|].
  destruct (String.eqb_spec ghlType "Live_Chat");
    [split; [discriminate | congruence]|].
  repeat (destruct (String.eqb ghlType _); [split; [discriminate | reflexivity]|]).
  split; [discriminate | reflexivity].
Qed.

Lemma mapChannelType_range_witness :
  ~ In "Voicemail" SpecWords.objectPrototypeNames
  /\ ContactMemoryIndexer.mapChannelType "Voicemail" <> phone
  /\ ContactMemoryIndexer.mapChannelType "Voicemail" = other.
Proof.
  assert (~ In "Voicemail" SpecWords.objectPrototypeNames) as H0
    by (cbn; intuition discriminate).
  split; [exact H0|].
  destruct (@mapChannelType_range "Voicemail" H0) as [H1 H2].
  split; [exact H1|]. apply H2; discriminate.
Defined.

Lemma extractTopics_taxonomy_witness :
  (exists keywords,
     In ("pricing", keywords) ContactMemoryIndexer.topicKeywords
     /\ exists keyword,
          In keyword keywords
          /\ JS.includes (JS.toLowerCase "What is the PRICE?") keyword = true)
  /\ In "pricing" (ContactMemoryIndexer.extractTopics "What is the PRICE?").
Proof.
  assert (exists keywords,
     In ("pricing", keywords) ContactMemoryIndexer.topicKeywords
     /\ exists keyword,
          In keyword keywords
          /\ JS.includes (JS.toLowerCase "What is the PRICE?") keyword = true) as H.
  { eexists. split; [left; reflexivity|]. exists "price".
    split; [left; reflexivity | reflexivity]. }
  split; [exact H|].
  exact (proj2 (proj1 (proj2 (proj2 (extractTopics_taxonomy "What is the PRICE?")))
                      "pricing") H).
Defined.

Section MatchFacts.

Import Regex.

Variable icase : bool.
Variable r : re.

Lemma matchAt_whole (before : option ascii) (rest : list ascii) (m : Match) (n : nat) :
  matchAt icase r before rest = Some (m, n) ->
  exists k, whole m = string_of_list_ascii (firstn k rest).
Proof.
  unfold matchAt. destruct (run icase r _ Some) as [s'|]; [|discriminate].
  intros H. inversion H; subst. eexists. reflexivity.
Qed.

(** Each match is a piece of the text that is searched. *)
Lemma scan_whole (rest : list ascii) (before : option ascii) (skip : nat) (m : Match) :
  In m (scan icase r before rest skip) ->
  exists a b k, rest = a ++ b /\ whole m = string_of_list_ascii (firstn k b).
Proof.
  revert before skip. induction rest as [|c rest IH]; intros before skip H.
  - destruct skip as [|skip]; [|destruct H].
    simpl in H. destruct (matchAt icase r before []) as [[m' n]|] eqn:E;
      [|destruct H].
    destruct H as [<- | []].
    apply matchAt_whole in E. destruct E as [k E].
    exists [], [], k. split; [reflexivity | exact E].
  - assert (forall before' skip',
              In m (scan icase r before' rest skip') ->
              exists a b k, c :: rest = a ++ b
                            /\ whole m = string_of_list_ascii (firstn k b)) as Hrest.
    { intros before' skip' H'. apply IH in H'.
      destruct H' as [a [b [k [E1 E2]]]]. exists (c :: a), b, k.
      split; [simpl; congruence | exact E2]. }
    destruct skip as [|skip]; [|apply (Hrest _ _ H)].
    simpl in H. destruct (matchAt icase r before (c :: rest)) as [[m' n]|] eqn:E;
      [|apply (Hrest _ _ H)].
    destruct H as [<- | H]; [|apply (Hrest _ _ H)].
    apply matchAt_whole in E. destruct E as [k E].
    exists [], (c :: rest), k. split; [reflexivity | exact E].
Qed.

Lemma matchAll_substring (text : string) (m : Match) :
  In m (matchAll icase r text) -> JS.includes text (whole m) = true.
Proof.
  unfold matchAll. intros H. apply scan_whole in H.
  destruct H as [a [b [k [E1 E2]]]].
  rewrite <- (string_of_list_ascii_of_string text), E1, E2.
  rewrite <- (firstn_skipn k b) at 1. rewrite !string_of_app.
  apply includes_middle.
Qed.

End MatchFacts.

(** X8.  Every entity found in a text is a date or a time of confidence 0.8
    or a price of confidence 0.9, and its value is a piece of the text as
    it stands there. *)
Theorem extractEntities_literal (text : string) (e : ExtractedEntity) :
  In e (ContactMemoryIndexer.extractEntities text) ->
  ((etype e = ETdate /\ econfidence e = 8 # 10)
   \/ (etype e = ETtime /\ econfidence e = 8 # 10)
   \/ (etype e = ETprice /\ econfidence e = 9 # 10))
  /\ JS.includes text (evalue e) = true.
Proof.
  unfold ContactMemoryIndexer.extractEntities. rewrite !in_app_iff, in_flat_map.
  intros [[p [_ H]] | [H | H]]; apply in_map_iff in H;
    destruct H as [m [<- Hm]];
    cbn [etype econfidence evalue ContactMemoryIndexer.entityOf];
    (split; [tauto|]); eapply matchAll_substring, Hm.
Qed.

Lemma extractEntities_literal_witness :
  In {| etype := ETtime; evalue := "3:00pm"; econfidence := 8 # 10 |}
     (ContactMemoryIndexer.extractEntities "Call me at 3:00pm")
  /\ JS.includes "Call me at 3:00pm" "3:00pm" = true.
Proof.
  assert (In {| etype := ETtime; evalue := "3:00pm"; econfidence := 8 # 10 |}
             (ContactMemoryIndexer.extractEntities "Call me at 3:00pm")) as H
    by (vm_compute; left; reflexivity).
  split; [exact H|].
  exact (proj2 (extractEntities_literal _ _ H)).
Defined.

(* ================================================================== *)
(** * Further properties of the relevance score                        *)
(* ================================================================== *)

(** X9.  The relevance score lies between 0 and 1 for every interaction that
    is not stamped after the clock and lists no topic twice, and so for
    every interaction that the indexer makes of a message dated at or
    before the clock. *)
Theorem calculateRelevance_bounded (now : Z) (currentTopics : list string) :
  (forall i,
     timestamp i <= now -> NoDup (topics i) ->
     (0 <= MemoryRetrieval.calculateRelevance now i currentTopics)%Q
     /\ (MemoryRetrieval.calculateRelevance now i currentTopics <= 1)%Q)
  /\ (forall message,
        dateAdded message <= now ->
        (0 <= MemoryRetrieval.calculateRelevance now
                (ContactMemoryIndexer.indexMessage message) currentTopics)%Q
        /\ (MemoryRetrieval.calculateRelevance now
              (ContactMemoryIndexer.indexMessage message) currentTopics <= 1)%Q).
Proof.
  split.
  - intros i Hts Hn. apply calculateRelevance_range; assumption.
  - intros message Hd. apply calculateRelevance_range; [exact Hd|].
    apply (setOf_NoDup String.eqb String.eqb_eq).
Qed.

Lemma calculateRelevance_bounded_witness :
  dateAdded (Sample.message "m" "What is the price?" Sample.now) <= Sample.now
  /\ (MemoryRetrieval.calculateRelevance Sample.now
        (ContactMemoryIndexer.indexMessage
           (Sample.message "m" "What is the price?" Sample.now))
        ["pricing"] <= 1)%Q.
Proof.
  assert (dateAdded (Sample.message "m" "What is the price?" Sample.now)
          <= Sample.now) as H by (simpl; lia).
  split; [exact H|].
  exact (proj2 (proj2 (calculateRelevance_bounded Sample.now ["pricing"]) _ H)).
Defined.

(* ================================================================== *)
(** * Properties of the retrieval                                      *)
(* ================================================================== *)

Section RetrievalFacts.

Import MemoryRetrieval.

Lemma filterByAge_In (now : Z) (o : MemoryQueryOptions) (l : list Interaction)
      (i : Interaction) :
  In i (filterByAge now o l) <->
  In i l /\ (maxAgeOf o <> 0 -> now - maxAgeOf o <= timestamp i).
Proof.
  unfold filterByAge. destruct (Z.eqb_spec (maxAgeOf o) 0) as [E | E].
  - split; [intros H; split; [exact H | congruence] | tauto].
  - rewrite filter_In, Z.leb_le. tauto.
Qed.

Lemma filterByChannel_In (o : MemoryQueryOptions) (l : list Interaction)
      (i : Interaction) :
  In i (filterByChannel o l) <->
  In i l /\ (forall c cs, optChannels o = Some (c :: cs) ->
                          In (channelName (channel i)) (c :: cs)).
Proof.
  unfold filterByChannel. destruct (optChannels o) as [[|c cs]|].
  - split; [intros H; split; [exact H | discriminate] | tauto].
  - rewrite filter_In, (existsb_eqb_In String.eqb String.eqb_eq). split.
    + intros [H1 H2]. split; [exact H1|]. intros c' cs' E. inversion E; subst.
      exact H2.
    + intros [H1 H2]. split; [exact H1 | apply H2; reflexivity].
  - split; [intros H; split; [exact H | discriminate] | tauto].
Qed.

Lemma candidates_Eligible (now : Z) (o : MemoryQueryOptions)
      (memory : ContactMemoryEntry) (i : Interaction) :
  In i (filterByChannel o (filterByAge now o (interactions memory)))
  <-> SpecWords.Eligible now o memory i.
Proof.
  rewrite filterByChannel_In, filterByAge_In. unfold SpecWords.Eligible. tauto.
Qed.

Lemma selectInteractions_firstn (now : Z) (o : MemoryQueryOptions)
      (l : list Interaction) :
  exists n,
    selectInteractions now o l =
    firstn n (JS.sort (fun a b => 0 <? timestamp b - timestamp a)
                      (filterByChannel o (filterByAge now o l))).
Proof. apply sliceTo_firstn. Qed.

Lemma confidence_sorted (l : list KeyFact) :
  SpecWords.MostConfidentFirst
    (JS.sort (fun a b => match (confidence a ?= confidence b)%Q with
                         | Lt => true
                         | _ => false
                         end) l).
Proof.
  apply sort_ordered.
  - intros x y z H1 H2. apply (Qle_trans _ _ _ H2 H1).
  - intros x y H. destruct (confidence x ?= confidence y)%Q eqn:E; try discriminate.
    apply Qlt_le_weak, Qlt_alt, E.
  - intros x y H. destruct (confidence x ?= confidence y)%Q eqn:E; try discriminate.
    + apply Qeq_alt in E. apply Qle_lteq. right. symmetry. exact E.
    + apply Qgt_alt in E. apply Qlt_le_weak, E.
Qed.

End RetrievalFacts.

(** X10.  The interactions of a context are interactions of the entry that
    pass the filters of the query, newest first; there are no more of them
    than the query allows, and no interaction that passes the filters and
    was left out is newer than one that was taken.  An interaction that
    passes the filters is left out only when the context is full, so that
    the context holds the newest of them, as many as the query allows.  A
    [maxAge] of 0 turns the age filter off: with no channels named and room
    for all, the context then holds every interaction of the entry, however
    old. *)
Theorem assembleContext_interactions (clock : MemoryRetrieval.ContextClock)
        (memory : ContactMemoryEntry) (o : MemoryRetrieval.MemoryQueryOptions) :
  let taken :=
    MemoryRetrieval.recentInteractions
      (MemoryRetrieval.assembleContext clock memory o) in
  (forall i, In i taken ->
             SpecWords.Eligible (MemoryRetrieval.atFilter clock) o memory i)
  /\ SpecWords.NewestFirst timestamp taken
  /\ (0 <= MemoryRetrieval.maxInteractionsOf o ->
      Z.of_nat (length taken) <= MemoryRetrieval.maxInteractionsOf o)
  /\ (forall i j,
        In i taken ->
        SpecWords.Eligible (MemoryRetrieval.atFilter clock) o memory j ->
        In j taken \/ timestamp j <= timestamp i)
  /\ (0 <= MemoryRetrieval.maxInteractionsOf o ->
      forall j,
        SpecWords.Eligible (MemoryRetrieval.atFilter clock) o memory j ->
        In j taken
        \/ Z.of_nat (length taken) = MemoryRetrieval.maxInteractionsOf o)
  /\ (MemoryRetrieval.maxAgeOf o = 0 ->
      MemoryRetrieval.optChannels o = None ->
      Z.of_nat (length (interactions memory))
      <= MemoryRetrieval.maxInteractionsOf o ->
      Permutation (interactions memory) taken
      /\ forall i, In i (interactions memory) -> In i taken).
Proof.
  cbn [MemoryRetrieval.assembleContext MemoryRetrieval.recentInteractions].
  destruct (selectInteractions_firstn (MemoryRetrieval.atFilter clock) o
              (interactions memory)) as [n En].
  split; [|split; [|split; [|split; [|split]]]].
  - intros i Hi. rewrite En in Hi. apply firstn_subset in Hi.
    apply sort_In in Hi. apply candidates_Eligible. exact Hi.
  - rewrite En. apply StronglySorted_firstn. apply sort_sorted.
    intros x y. rewrite Z.ltb_lt. lia.
  - intros Hk. apply sliceTo_length. exact Hk.
  - intros i j Hi Hj. rewrite En in *.
    apply candidates_Eligible in Hj.
    apply (sort_In (fun a b => 0 <? timestamp b - timestamp a)) in Hj.
    rewrite <- (firstn_skipn n) in Hj. apply in_app_iff in Hj.
    destruct Hj as [Hj | Hj]; [left; exact Hj | right].
    eapply (StronglySorted_app_cross (R := fun a b => timestamp b <= timestamp a));
      [|exact Hi | exact Hj].
    rewrite firstn_skipn. apply sort_sorted.
    intros x y. rewrite Z.ltb_lt. lia.
  - intros Hk j Hj. clear n En.
    apply candidates_Eligible in Hj.
    apply (sort_In (fun a b => 0 <? timestamp b - timestamp a)) in Hj.
    unfold MemoryRetrieval.selectInteractions, JS.sliceTo.
    destruct (MemoryRetrieval.maxInteractionsOf o <? 0) eqn:E;
      [apply Z.ltb_lt in E; lia|].
    set (sorted := JS.sort (fun a b => 0 <? timestamp b - timestamp a) _) in *.
    destruct (Nat.le_gt_cases (length sorted)
                              (Z.to_nat (MemoryRetrieval.maxInteractionsOf o)))
      as [Hall | Hfull].
    + left. rewrite firstn_all2 by exact Hall. exact Hj.
    + right. rewrite length_firstn. lia.
  - intros Hage Hchannels Hroom. clear n En.
    unfold MemoryRetrieval.selectInteractions, JS.sliceTo,
      MemoryRetrieval.filterByChannel, MemoryRetrieval.filterByAge.
    rewrite Hchannels, Hage. cbn [Z.eqb].
    destruct (MemoryRetrieval.maxInteractionsOf o <? 0) eqn:E;
      [apply Z.ltb_lt in E; lia|].
    rewrite firstn_all2 by (rewrite sort_length; lia).
    split; [apply sort_Permutation|].
    intros i Hi. apply sort_In. exact Hi.
Qed.

Lemma assembleContext_interactions_witness :
  In (Sample.interaction "q2" (Sample.now - 45 * Sample.day) (Some neutral) [])
     (MemoryRetrieval.recentInteractions
        (MemoryRetrieval.assembleContext Sample.contextClock Sample.quiet
           Sample.anyAge))
  /\ ~ In (Sample.interaction "q2" (Sample.now - 45 * Sample.day) (Some neutral) [])
          (MemoryRetrieval.recentInteractions
             (MemoryRetrieval.assembleContext Sample.contextClock Sample.quiet
                MemoryRetrieval.noOptions)).
Proof.
  split.
  - apply (proj2 (proj2 (proj2 (proj2 (proj2
             (assembleContext_interactions Sample.contextClock Sample.quiet
                Sample.anyAge))))) eq_refl eq_refl).
    + vm_compute. discriminate.
    + right. left. reflexivity.
  - intros H.
    apply (proj1 (assembleContext_interactions Sample.contextClock Sample.quiet
                    MemoryRetrieval.noOptions)) in H.
    destruct H as [_ [Hage _]].
    assert (MemoryRetrieval.maxAgeOf MemoryRetrieval.noOptions <> 0) as Hne
      by discriminate.
    specialize (Hage Hne). vm_compute in Hage. apply Hage. reflexivity.
Defined.

(** X11.  The key facts of a context are facts of the entry of at least the
    confidence that the query asks for, 0.5 when it asks for none, the most
    confident first; there are at most ten, and no fact of that confidence
    that was left out is more confident than one that was taken. *)
Theorem assembleContext_keyFacts (clock : MemoryRetrieval.ContextClock)
        (memory : ContactMemoryEntry) (o : MemoryRetrieval.MemoryQueryOptions) :
  let taken :=
    MemoryRetrieval.cKeyFacts (MemoryRetrieval.assembleContext clock memory o) in
  (forall f, In f taken -> SpecWords.Confident o memory f)
  /\ SpecWords.MostConfidentFirst taken
  /\ (length taken <= 10)%nat
  /\ (forall f g,
        In f taken -> SpecWords.Confident o memory g ->
        In g taken \/ (confidence g <= confidence f)%Q).
Proof.
  cbn [MemoryRetrieval.assembleContext MemoryRetrieval.cKeyFacts].
  unfold MemoryRetrieval.selectKeyFacts, JS.slice0.
  assert (forall f, In f (filter (fun f => Qle_bool (MemoryRetrieval.minConfidenceOf o)
                                                    (confidence f))
                                 (keyFacts memory))
                    <-> SpecWords.Confident o memory f) as Hc.
  { intros f. rewrite filter_In, Qle_bool_iff. reflexivity. }
  split; [|split; [|split]].
  - intros f Hf. apply firstn_subset in Hf. apply sort_In in Hf.
    apply Hc, Hf.
  - apply StronglySorted_firstn, confidence_sorted.
  - apply firstn_le_length.
  - intros f g Hf Hg. apply Hc in Hg.
    apply (sort_In (fun a b => match (confidence a ?= confidence b)%Q with
                               | Lt => true
                               | _ => false
                               end)) in Hg.
    rewrite <- (firstn_skipn 10) in Hg. apply in_app_iff in Hg.
    destruct Hg as [Hg | Hg]; [left; exact Hg | right].
    eapply (StronglySorted_app_cross
              (R := fun a b => (confidence b <= confidence a)%Q));
      [|exact Hf | exact Hg].
    rewrite firstn_skipn. apply confidence_sorted.
Qed.

Lemma assembleContext_keyFacts_witness :
  In Sample.callbackFact
     (MemoryRetrieval.cKeyFacts
        (MemoryRetrieval.assembleContext Sample.contextClock Sample.quiet
           MemoryRetrieval.noOptions))
  /\ SpecWords.Confident MemoryRetrieval.noOptions Sample.quiet Sample.callbackFact.
Proof.
  assert (In Sample.callbackFact
             (MemoryRetrieval.cKeyFacts
                (MemoryRetrieval.assembleContext Sample.contextClock Sample.quiet
                   MemoryRetrieval.noOptions))) as H
    by (vm_compute; left; reflexivity).
  split; [exact H|].
  exact (proj1 (assembleContext_keyFacts Sample.contextClock Sample.quiet
                  MemoryRetrieval.noOptions) _ H).
Defined.

Section AdviceFacts.

Import MemoryRetrieval.

Lemma commitmentAdvice_prefix (facts : list KeyFact) (s : string) :
  In s (commitmentAdvice facts) ->
  String.prefix "Reference previous commitments: " s = true.
Proof.
  unfold commitmentAdvice. destruct (factsOf commitment facts); [intros []|].
  intros [<- | []]. apply prefix_refl_app.
Qed.

Lemma preferenceAdvice_prefix (facts : list KeyFact) (s : string) :
  In s (preferenceAdvice facts) ->
  String.prefix "Align with preferences: " s = true.
Proof.
  unfold preferenceAdvice. destruct (factsOf preference facts); [intros []|].
  intros [<- | []]. apply prefix_refl_app.
Qed.

Lemma objectionAdvice_In (facts : list KeyFact) (s : string) :
  In s (objectionAdvice facts) <->
  s = "Address previously mentioned concerns"
  /\ exists f, In f facts /\ category f = objection.
Proof.
  unfold objectionAdvice.
  destruct (factsOf objection facts) as [|f fs] eqn:E; simpl.
  - split; [intros [] | intros [_ [f [Hf Hc]]]].
    assert (In f (factsOf objection facts)) as Hin
      by (apply filter_In; split; [exact Hf | rewrite Hc; reflexivity]).
    rewrite E in Hin. destruct Hin.
  - split.
    + intros [<- | []]. split; [reflexivity|]. exists f.
      assert (In f (factsOf objection facts)) as Hin by (rewrite E; left; reflexivity).
      apply filter_In in Hin. destruct Hin as [Hin Hc]. split; [exact Hin|].
      destruct (category f); try discriminate. reflexivity.
    + intros [-> _]. left. reflexivity.
Qed.

Lemma sentimentAdvice_In (memory : ContactMemoryEntry) (s : string) :
  In s (sentimentAdvice memory) <->
  s = "Exercise extra care - recent negative sentiment detected"
  /\ (3 <= length (history (esentiment memory)))%nat
  /\ (2 <= negativeCount (history (esentiment memory)))%nat.
Proof.
  unfold sentimentAdvice.
  destruct (3 <=? length (history (esentiment memory)))%nat eqn:E1;
    destruct (2 <=? negativeCount (history (esentiment memory)))%nat eqn:E2;
    cbn [andb In];
    rewrite ?Nat.leb_le in *; rewrite ?Nat.leb_gt in *;
    intuition (try lia; congruence).
Qed.

Lemma gapAdvice_In (now : Z) (l : list Interaction) (s : string) :
  In s (gapAdvice now l) <->
  s = "It has been a while since last contact - acknowledge the gap"
  /\ exists first rest, l = first :: rest /\ 14 < daysSince now first.
Proof.
  unfold gapAdvice. destruct l as [|first rest].
  - split; [intros [] | intros [_ [f [r [E _]]]]; discriminate].
  - destruct (14 <? daysSince now first) eqn:E; simpl.
    + apply Z.ltb_lt in E. split.
      * intros [<- | []]. split; [reflexivity|]. exists first, rest. tauto.
      * intros [-> _]. left. reflexivity.
    + apply Z.ltb_ge in E. split; [intros []|].
      intros [_ [f [r [E' H]]]]. inversion E'; subst. lia.
Qed.

Lemma daysSince_more_than (now : Z) (i : Interaction) (n : Z) :
  n < daysSince now i <-> (n + 1) * msPerDay <= now - timestamp i.
Proof.
  unfold daysSince, msPerDay.
  pose proof (Z.mul_div_le (now - timestamp i) (24 * 60 * 60 * 1000)).
  pose proof (Z.mod_pos_bound (now - timestamp i) (24 * 60 * 60 * 1000)).
  pose proof (Z.div_mod (now - timestamp i) (24 * 60 * 60 * 1000)).
  lia.
Qed.

End AdviceFacts.

Lemma assembleContext_interactions_eligible (clock : MemoryRetrieval.ContextClock)
      (memory : ContactMemoryEntry) (o : MemoryRetrieval.MemoryQueryOptions) :
  (forall i,
     In i (MemoryRetrieval.recentInteractions
             (MemoryRetrieval.assembleContext clock memory o)) ->
     SpecWords.Eligible (MemoryRetrieval.atFilter clock) o memory i).
Proof.
  cbn [MemoryRetrieval.assembleContext MemoryRetrieval.recentInteractions].
  destruct (selectInteractions_firstn (MemoryRetrieval.atFilter clock) o
              (interactions memory)) as [n En].
  intros i Hi. rewrite En in Hi. apply firstn_subset in Hi.
  apply sort_In in Hi. apply candidates_Eligible. exact Hi.
Qed.

(** X12.  The recommendations are at most five.  The warning about negative
    sentiment is given exactly when the history holds at least three
    entries and at least two of its first three are negative, so never for
    a history of two entries; the advice to address concerns exactly when
    an objection is among the facts. *)
Theorem generateRecommendations_rules (now : Z) (memory : ContactMemoryEntry)
        (l : list Interaction) (facts : list KeyFact) :
  (length (MemoryRetrieval.generateRecommendations now memory l facts) <= 5)%nat
  /\ (In "Exercise extra care - recent negative sentiment detected"
         (MemoryRetrieval.generateRecommendations now memory l facts)
      <-> (3 <= length (history (esentiment memory)))%nat
          /\ (2 <= length (filter (fun e => Sentiment_eqb (hsentiment e) negative)
                                  (firstn 3 (history (esentiment memory)))))%nat)
  /\ (In "Address previously mentioned concerns"
         (MemoryRetrieval.generateRecommendations now memory l facts)
      <-> exists f, In f facts /\ category f = objection).
Proof.
  unfold MemoryRetrieval.generateRecommendations.
  split; [|split].
  - rewrite !length_app.
    assert (length (MemoryRetrieval.commitmentAdvice facts) <= 1)%nat
      by (unfold MemoryRetrieval.commitmentAdvice;
          destruct (MemoryRetrieval.factsOf commitment facts); simpl; lia).
    assert (length (MemoryRetrieval.objectionAdvice facts) <= 1)%nat
      by (unfold MemoryRetrieval.objectionAdvice;
          destruct (MemoryRetrieval.factsOf objection facts); simpl; lia).
    assert (length (MemoryRetrieval.preferenceAdvice facts) <= 1)%nat
      by (unfold MemoryRetrieval.preferenceAdvice;
          destruct (MemoryRetrieval.factsOf preference facts); simpl; lia).
    assert (length (MemoryRetrieval.sentimentAdvice memory) <= 1)%nat
      by (unfold MemoryRetrieval.sentimentAdvice;
          destruct (_ && _); simpl; lia).
    assert (length (MemoryRetrieval.gapAdvice now l) <= 1)%nat
      by (unfold MemoryRetrieval.gapAdvice; destruct l as [|i l'];
          [|destruct (14 <? _)]; simpl; lia).
    lia.
  - rewrite !in_app_iff, objectionAdvice_In, sentimentAdvice_In, gapAdvice_In.
    split.
    + intros [H | [[H _] | [H | [[_ H] | [H _]]]]]; try discriminate H;
        [apply commitmentAdvice_prefix in H; discriminate H
        | apply preferenceAdvice_prefix in H; discriminate H
        | exact H].
    + intros H. right. right. right. left. split; [reflexivity | exact H].
  - rewrite !in_app_iff, objectionAdvice_In, sentimentAdvice_In, gapAdvice_In.
    split.
    + intros [H | [[_ H] | [H | [[H _] | [H _]]]]]; try discriminate H;
        [apply commitmentAdvice_prefix in H; discriminate H
        | exact H
        | apply preferenceAdvice_prefix in H; discriminate H].
    + intros H. right. left. split; [reflexivity | exact H].
Qed.

(** X13.  The advice to acknowledge a gap is given exactly when the newest
    interaction of the context is more than 14 days old, so only when an
    interaction that passes the filters is at least 15 days old; for a
    contact all of whose interactions are older than [maxAge] the context
    holds no interaction and the advice is not given. *)
Theorem gap_advice (clock : MemoryRetrieval.ContextClock)
        (memory : ContactMemoryEntry) (o : MemoryRetrieval.MemoryQueryOptions) :
  let context := MemoryRetrieval.assembleContext clock memory o in
  let gap := "It has been a while since last contact - acknowledge the gap" in
  (In gap (MemoryRetrieval.recommendations context) <->
   exists first rest,
     MemoryRetrieval.recentInteractions context = first :: rest
     /\ 14 < MemoryRetrieval.daysSince (MemoryRetrieval.atRecommendations clock) first)
  /\ (In gap (MemoryRetrieval.recommendations context) ->
      exists i,
        SpecWords.Eligible (MemoryRetrieval.atFilter clock) o memory i
        /\ 15 * MemoryRetrieval.msPerDay
           <= MemoryRetrieval.atRecommendations clock - timestamp i)
  /\ (MemoryRetrieval.maxAgeOf o <> 0 ->
      (forall i, In i (interactions memory) ->
                 timestamp i
                 < MemoryRetrieval.atFilter clock - MemoryRetrieval.maxAgeOf o) ->
      MemoryRetrieval.recentInteractions context = []
      /\ ~ In gap (MemoryRetrieval.recommendations context)).
Proof.
  cbn zeta.
  assert (In "It has been a while since last contact - acknowledge the gap"
             (MemoryRetrieval.recommendations
                (MemoryRetrieval.assembleContext clock memory o)) <->
          exists first rest,
            MemoryRetrieval.recentInteractions
              (MemoryRetrieval.assembleContext clock memory o) = first :: rest
            /\ 14 < MemoryRetrieval.daysSince
                      (MemoryRetrieval.atRecommendations clock) first) as Hiff.
  { cbn [MemoryRetrieval.assembleContext MemoryRetrieval.recommendations
           MemoryRetrieval.recentInteractions].
    unfold MemoryRetrieval.generateRecommendations.
    rewrite !in_app_iff, objectionAdvice_In, sentimentAdvice_In, gapAdvice_In.
    split.
    - intros [H | [[H _] | [H | [[H _] | [_ H]]]]]; try discriminate H;
        [apply commitmentAdvice_prefix in H; discriminate H
        | apply preferenceAdvice_prefix in H; discriminate H
        | exact H].
    - intros H. right. right. right. right. split; [reflexivity | exact H]. }
  split; [exact Hiff|]. split.
  - intros H. apply Hiff in H. destruct H as [first [rest [E Hd]]].
    exists first. split.
    + apply (@assembleContext_interactions_eligible clock memory o).
      rewrite E. left. reflexivity.
    + apply daysSince_more_than in Hd. lia.
  - intros Hage Hold.
    assert (MemoryRetrieval.recentInteractions
              (MemoryRetrieval.assembleContext clock memory o) = []) as Hnil.
    { destruct (MemoryRetrieval.recentInteractions
                  (MemoryRetrieval.assembleContext clock memory o))
        as [|i rest] eqn:E; [reflexivity|].
      assert (SpecWords.Eligible (MemoryRetrieval.atFilter clock) o memory i) as He.
      { apply (@assembleContext_interactions_eligible clock memory o).
        rewrite E. left. reflexivity. }
      destruct He as [Hin [Hcut _]]. specialize (Hcut Hage).
      specialize (Hold i Hin). lia. }
    split; [exact Hnil|].
    intros H. apply Hiff in H. destruct H as [first [rest [E _]]].
    rewrite Hnil in E. discriminate.
Qed.

Section QuoteFacts.

Import ContactMemoryIndexer.

Variable nanoid : nat -> string.

(** A fact of [extractKeyFacts] with its interaction and, by category, the
    text it was made from. *)
Lemma extractKeyFacts_origin (l : list Interaction) (cid : string) (f : KeyFact) :
  In f (extractKeyFacts nanoid l cid) ->
  exists i, In i l /\
    ((category f = commitment /\ exists pattern c,
         In pattern commitmentPatterns /\ In c (clauses (fullContent i) pattern)
         /\ acceptable c = true /\ fact f = "Commitment: " +++ c)
     \/ (category f = preference /\ exists pattern c,
         In pattern preferencePatterns /\ In c (clauses (fullContent i) pattern)
         /\ acceptable c = true /\ fact f = "Preference: " +++ c)
     \/ (category f = objection /\ exists w,
         In w objectionWords /\ JS.includes (objectionText i) w = true
         /\ fact f = "Potential objection mentioned: " +++ w)).
Proof.
  unfold extractKeyFacts. intros H.
  apply assignIds_In in H. destruct H as [p [k [Hp ->]]].
  apply in_flat_map in Hp. destruct Hp as [i [Hi Hp]]. exists i. split; [exact Hi|].
  unfold interactionFacts in Hp. rewrite !in_app_iff in Hp.
  destruct Hp as [Hp | [Hp | Hp]].
  - left. apply commitmentFacts_In in Hp.
    destruct Hp as [pattern [c [H1 [H2 [H3 ->]]]]].
    split; [reflexivity|]. exists pattern, c. repeat split; assumption.
  - right. left. apply preferenceFacts_In in Hp.
    destruct Hp as [pattern [c [H1 [H2 [H3 ->]]]]].
    split; [reflexivity|]. exists pattern, c. repeat split; assumption.
  - right. right.
    destruct (objectionFacts_cases i) as [E | [w [[pre [post [Hw [Hin Hpre]]]] E]]];
      rewrite E in Hp; [destruct Hp|].
    destruct Hp as [<- | []]. split; [reflexivity|]. exists w.
    split; [rewrite Hw; apply in_or_app; right; left; reflexivity|].
    split; [exact Hin | reflexivity].
Qed.

End QuoteFacts.

(** X14.  For facts that [extractKeyFacts] made, the recommendation about a
    commitment is "Reference previous commitments: " followed by the very
    clause that was matched in an interaction, the prefix "Commitment: " of
    the fact being removed again; likewise "Align with preferences: " and
    the prefix "Preference: ". *)
Theorem advice_quotes_clause (nanoid : nat -> string) (l : list Interaction)
        (cid : string) (facts : list KeyFact) :
  (forall f, In f facts ->
             In f (ContactMemoryIndexer.extractKeyFacts nanoid l cid)) ->
  (forall s, In s (MemoryRetrieval.commitmentAdvice facts) ->
     exists i pattern c,
       In i l /\ In pattern ContactMemoryIndexer.commitmentPatterns
       /\ In c (ContactMemoryIndexer.clauses (fullContent i) pattern)
       /\ (6 <= String.length c < 200)%nat
       /\ s = "Reference previous commitments: " +++ c)
  /\ (forall s, In s (MemoryRetrieval.preferenceAdvice facts) ->
     exists i pattern c,
       In i l /\ In pattern ContactMemoryIndexer.preferencePatterns
       /\ In c (ContactMemoryIndexer.clauses (fullContent i) pattern)
       /\ (6 <= String.length c < 200)%nat
       /\ s = "Align with preferences: " +++ c).
Proof.
  intros Hsub. split; intros s Hs.
  - unfold MemoryRetrieval.commitmentAdvice in Hs.
    destruct (MemoryRetrieval.factsOf commitment facts) as [|first rest] eqn:E;
      [destruct Hs|].
    destruct Hs as [<- | []].
    assert (In first (MemoryRetrieval.factsOf commitment facts)) as Hin
      by (rewrite E; left; reflexivity).
    apply filter_In in Hin. destruct Hin as [Hin Hc].
    destruct (@extractKeyFacts_origin nanoid l cid first (Hsub _ Hin))
      as [i [Hi [[_ H] | [[Hc' _] | [Hc' _]]]]];
      try (rewrite Hc' in Hc; discriminate Hc).
    destruct H as [pattern [c [H1 [H2 [H3 H4]]]]].
    exists i, pattern, c. rewrite H4, replaceFirst_prefix.
    apply acceptable_iff in H3. repeat split; try assumption; lia.
  - unfold MemoryRetrieval.preferenceAdvice in Hs.
    destruct (MemoryRetrieval.factsOf preference facts) as [|first rest] eqn:E;
      [destruct Hs|].
    destruct Hs as [<- | []].
    assert (In first (MemoryRetrieval.factsOf preference facts)) as Hin
      by (rewrite E; left; reflexivity).
    apply filter_In in Hin. destruct Hin as [Hin Hc].
    destruct (@extractKeyFacts_origin nanoid l cid first (Hsub _ Hin))
      as [i [Hi [[Hc' _] | [[_ H] | [Hc' _]]]]];
      try (rewrite Hc' in Hc; discriminate Hc).
    destruct H as [pattern [c [H1 [H2 [H3 H4]]]]].
    exists i, pattern, c. rewrite H4, replaceFirst_prefix.
    apply acceptable_iff in H3. repeat split; try assumption; lia.
Qed.

Lemma advice_quotes_clause_witness :
  MemoryRetrieval.commitmentAdvice
    (ContactMemoryIndexer.extractKeyFacts Sample.nanoid [Sample.callback] "c1")
  = ["Reference previous commitments: call you back tomorrow at 3:00pm, thanks!"]
  /\ ((forall s,
         In s (MemoryRetrieval.commitmentAdvice
                 (ContactMemoryIndexer.extractKeyFacts
                    Sample.nanoid [Sample.callback] "c1")) ->
         exists i pattern c,
           In i [Sample.callback]
           /\ In pattern ContactMemoryIndexer.commitmentPatterns
           /\ In c (ContactMemoryIndexer.clauses (fullContent i) pattern)
           /\ (6 <= String.length c < 200)%nat
           /\ s = "Reference previous commitments: " +++ c)
      /\ (forall s,
         In s (MemoryRetrieval.preferenceAdvice
                 (ContactMemoryIndexer.extractKeyFacts
                    Sample.nanoid [Sample.callback] "c1")) ->
         exists i pattern c,
           In i [Sample.callback]
           /\ In pattern ContactMemoryIndexer.preferencePatterns
           /\ In c (ContactMemoryIndexer.clauses (fullContent i) pattern)
           /\ (6 <= String.length c < 200)%nat
           /\ s = "Align with preferences: " +++ c)).
Proof.
  split; [vm_compute; reflexivity|].
  apply (advice_quotes_clause Sample.nanoid [Sample.callback] "c1").
  intros f H. exact H.
Defined.

Section StoreMore.

Import Schema ContactMemoryManager.

Lemma existsb_false_In {A} (f : A -> bool) (l : list A) :
  existsb f l = false -> forall x, In x l -> f x = false.
Proof.
  intros H x Hx. destruct (f x) eqn:E; [|reflexivity].
  assert (existsb f l = true) by (apply existsb_exists; exists x; tauto).
  congruence.
Qed.

(** What a completed run of inserts says about the ids. *)
Lemma forEach_interactions_inv (cid : string) (l : list Interaction)
      (d : Database) (s' : option Database) (u : unit) :
  forEach l (fun i => run (insertInteraction (interactionRow cid i))) (Some d)
  = (Ok u, s') ->
  NoDup (map id l)
  /\ forall r, In r (interactionsT d) -> ~ In (iid r) (map id l).
Proof.
  revert d. induction l as [|i l IH]; intros d H.
  - split; [constructor | intros r _ []].
  - cbn [forEach] in H. apply bind_Ok in H. destruct H as [[] [s1 [H1 H2]]].
    apply run_Ok in H1. destruct H1 as [d0 [d1 [E0 [E1 ->]]]].
    inversion E0; subst d0.
    assert (existsb (fun r => String.eqb (iid r) (id i)) (interactionsT d) = false)
      as Hnew.
    { unfold insertInteraction in E1. cbn [iid interactionRow] in E1.
      destruct (existsb _ (interactionsT d)); [discriminate | reflexivity]. }
    apply insertInteraction_Ok in E1. subst d1.
    apply IH in H2. cbn [interactionsT] in H2. destruct H2 as [Hn Hfresh].
    split.
    + cbn [map]. constructor; [|exact Hn].
      apply (Hfresh (interactionRow cid i)). apply in_or_app. right. left. reflexivity.
    + intros r Hr [E | Hin].
      * pose proof (@existsb_false_In _ _ _ Hnew r Hr) as Hf. cbn beta in Hf.
        rewrite E, String.eqb_refl in Hf. discriminate.
      * apply (Hfresh r); [apply in_or_app; left; exact Hr | exact Hin].
Qed.

Lemma forEach_keyFacts_inv (cid : string) (l : list KeyFact)
      (d : Database) (s' : option Database) (u : unit) :
  forEach l (fun f => run (insertKeyFact (keyFactRow cid f))) (Some d)
  = (Ok u, s') ->
  NoDup (map kid l)
  /\ forall r, In r (key_facts d) -> ~ In (fid r) (map kid l).
Proof.
  revert d. induction l as [|f l IH]; intros d H.
  - split; [constructor | intros r _ []].
  - cbn [forEach] in H. apply bind_Ok in H. destruct H as [[] [s1 [H1 H2]]].
    apply run_Ok in H1. destruct H1 as [d0 [d1 [E0 [E1 ->]]]].
    inversion E0; subst d0.
    assert (existsb (fun r => String.eqb (fid r) (kid f)) (key_facts d) = false)
      as Hnew.
    { unfold insertKeyFact in E1. cbn [fid keyFactRow] in E1.
      destruct (existsb _ (key_facts d)); [discriminate | reflexivity]. }
    apply insertKeyFact_Ok in E1. subst d1.
    apply IH in H2. cbn [key_facts] in H2. destruct H2 as [Hn Hfresh].
    split.
    + cbn [map]. constructor; [|exact Hn].
      apply (Hfresh (keyFactRow cid f)). apply in_or_app. right. left. reflexivity.
    + intros r Hr [E | Hin].
      * pose proof (@existsb_false_In _ _ _ Hnew r Hr) as Hf. cbn beta in Hf.
        rewrite E, String.eqb_refl in Hf. discriminate.
      * apply (Hfresh r); [apply in_or_app; left; exact Hr | exact Hin].
Qed.

(** The ids of an entry whose write completed. *)
Lemma storeContactMemory_inv (memory : ContactMemoryEntry) (d : Database)
      (s' : option Database) (u : unit) :
  storeContactMemory memory (Some d) = (Ok u, s') ->
  NoDup (map id (interactions memory))
  /\ NoDup (map kid (keyFacts memory))
  /\ (forall r, In r (interactionsT d) ->
        icontact_id r <> contactId memory ->
        ~ In (iid r) (map id (interactions memory)))
  /\ (forall r, In r (key_facts d) ->
        fcontact_id r <> contactId memory ->
        ~ In (fid r) (map kid (keyFacts memory))).
Proof.
  unfold storeContactMemory. intros H.
  apply bind_Ok in H. destruct H as [d0 [s1 [H0 H]]].
  apply requireDb_Ok in H0. destruct H0 as [E0 ->]. inversion E0; subst d0.
  apply bind_Ok in H. destruct H as [[] [s1 [H1 H]]].
  cbn in H1. inversion H1; subst s1. clear H1.
  apply bind_Ok in H. destruct H as [[] [s1 [H1 H]]].
  cbn in H1. inversion H1; subst s1. clear H1.
  apply bind_Ok in H. destruct H as [[] [s1 [H1 H]]].
  cbn in H1. inversion H1; subst s1. clear H1.
  apply bind_Ok in H. destruct H as [[] [s1 [H1 H]]].
  pose proof H1 as Es. apply forEach_interactions_Ok in Es. subst s1.
  apply forEach_interactions_inv in H1. destruct H1 as [Hni Hfi].
  apply forEach_keyFacts_inv in H. destruct H as [Hnf Hff].
  cbn [interactionsT key_facts] in *.
  split; [exact Hni|]. split; [exact Hnf|]. split.
  - intros r Hr Hc. apply Hfi. apply filter_In. split; [exact Hr|].
    apply negb_true_iff, String.eqb_neq. exact Hc.
  - intros r Hr Hc. apply Hff. apply filter_In. split; [exact Hr|].
    apply negb_true_iff, String.eqb_neq. exact Hc.
Qed.

Lemma filter_filter_same {A} (f : A -> bool) (l : list A) :
  filter f (filter f l) = filter f l.
Proof.
  apply filter_all. intros x Hx. apply filter_In in Hx. tauto.
Qed.

(** Writing the same entry again leaves the database as it is. *)
Lemma stored_stored (memory : ContactMemoryEntry) (d : Database) :
  stored memory (stored memory d) = stored memory d.
Proof.
  unfold stored. cbn [foreign_keys contact_memory interactionsT key_facts].
  rewrite !filter_app, !filter_filter_same.
  assert (filter (fun r => negb (String.eqb (contact_id r) (contactId memory)))
                 [contactRow memory] = []) as ->
    by (cbn; rewrite String.eqb_refl; reflexivity).
  assert (filter (fun r => negb (String.eqb (icontact_id r) (contactId memory)))
                 (map (interactionRow (contactId memory)) (interactions memory))
          = []) as ->.
  { apply filter_none. intros r Hr. apply in_map_iff in Hr.
    destruct Hr as [i [<- _]]. cbn. rewrite String.eqb_refl. reflexivity. }
  assert (filter (fun r => negb (String.eqb (fcontact_id r) (contactId memory)))
                 (map (keyFactRow (contactId memory)) (keyFacts memory))
          = []) as ->.
  { apply filter_none. intros r Hr. apply in_map_iff in Hr.
    destruct Hr as [f [<- _]]. cbn. rewrite String.eqb_refl. reflexivity. }
  rewrite !app_nil_r. reflexivity.
Qed.

Lemma find_filter_implied {A} (f g : A -> bool) (l : list A) :
  (forall x, f x = true -> g x = true) -> find f (filter g l) = find f l.
Proof.
  intros H. induction l as [|x l IH]; simpl; [reflexivity|].
  destruct (f x) eqn:Ef.
  - rewrite (H x Ef). simpl. rewrite Ef. reflexivity.
  - destruct (g x); simpl; [rewrite Ef|]; exact IH.
Qed.

Lemma find_app_miss {A} (f : A -> bool) (l l' : list A) :
  (forall x, In x l' -> f x = false) -> find f (l ++ l') = find f l.
Proof.
  intros H. induction l as [|x l IH]; simpl.
  - apply find_none. exact H.
  - destruct (f x); [reflexivity | exact IH].
Qed.

Lemma filter_filter_implied {A} (f g : A -> bool) (l : list A) :
  (forall x, f x = true -> g x = true) -> filter f (filter g l) = filter f l.
Proof.
  intros H. induction l as [|x l IH]; simpl; [reflexivity|].
  destruct (f x) eqn:Ef.
  - rewrite (H x Ef). simpl. rewrite Ef, IH. reflexivity.
  - destruct (g x); simpl; [rewrite Ef|]; exact IH.
Qed.

Lemma eqb_other (a b c : string) :
  b <> c -> String.eqb a b = true -> negb (String.eqb a c) = true.
Proof.
  intros Hbc E. apply String.eqb_eq in E. subst a.
  apply negb_true_iff, String.eqb_neq. exact Hbc.
Qed.

(** The rows of another contact are the same before and after a write. *)
Lemma stored_other (memory : ContactMemoryEntry) (d : Database) (other : string) :
  other <> contactId memory ->
  selectContact other (stored memory d) = selectContact other d
  /\ selectInteractions other (stored memory d) = selectInteractions other d
  /\ selectKeyFacts other (stored memory d) = selectKeyFacts other d.
Proof.
  intros Hne.
  unfold selectContact, selectInteractions, selectKeyFacts, stored.
  cbn [contact_memory interactionsT key_facts].
  split; [|split].
  - rewrite find_app_miss.
    + apply find_filter_implied. intros r. apply eqb_other. exact Hne.
    + intros r [<- | []]. cbn. apply String.eqb_neq. congruence.
  - f_equal. rewrite filter_app, filter_filter_implied.
    + rewrite (@filter_none _ _ (map _ _)); [apply app_nil_r|].
      intros r Hr. apply in_map_iff in Hr. destruct Hr as [i [<- _]].
      cbn. apply String.eqb_neq. congruence.
    + intros r. apply eqb_other. exact Hne.
  - f_equal. rewrite filter_app, filter_filter_implied.
    + rewrite (@filter_none _ _ (map _ _)); [apply app_nil_r|].
      intros r Hr. apply in_map_iff in Hr. destruct Hr as [f [<- _]].
      cbn. apply String.eqb_neq. congruence.
    + intros r. apply eqb_other. exact Hne.
Qed.

Lemma getContactMemory_eq (cid : string) (d : Database) :
  getContactMemory cid (Some d) =
  (Ok (match selectContact cid d with
       | Some row => Some (entryOfRow row cid d)
       | None => None
       end), Some d).
Proof.
  unfold getContactMemory, bind, requireDb, ret.
  destruct (selectContact cid d); reflexivity.
Qed.

Lemma selectContact_stored (memory : ContactMemoryEntry) (d : Database) :
  selectContact (contactId memory) (stored memory d) = Some (contactRow memory).
Proof.
  unfold selectContact. cbn [stored contact_memory].
  rewrite find_skip.
  - cbn. rewrite String.eqb_refl. reflexivity.
  - intros r Hr. apply filter_In in Hr. destruct Hr as [_ Hr].
    apply negb_true_iff in Hr. exact Hr.
Qed.

Lemma keyFactOfRow_keyFactRow (cid : string) (f : KeyFact) :
  keyFactOfRow (keyFactRow cid f) = f.
Proof. destruct f. reflexivity. Qed.

Lemma interactionOfRow_interactionRow (cid : string) (i : Interaction) :
  interactionOfRow (interactionRow cid i) = normalise i.
Proof. reflexivity. Qed.

Lemma selectInteractions_stored (memory : ContactMemoryEntry) (d : Database) :
  map interactionOfRow (selectInteractions (contactId memory) (stored memory d))
  = JS.sort (fun a b => timestamp a <? timestamp b)
            (map normalise (interactions memory)).
Proof.
  unfold selectInteractions. cbn [stored interactionsT].
  rewrite filter_app.
  rewrite (filter_out_then_in (fun r => String.eqb (icontact_id r) (contactId memory))).
  cbn [app]. rewrite filter_all.
  2:{ intros r Hr. apply in_map_iff in Hr. destruct Hr as [i [<- _]].
      apply String.eqb_refl. }
  rewrite <- (sort_map interactionOfRow
                (fun a b => itimestamp a <? itimestamp b)
                (fun a b => timestamp a <? timestamp b)) by reflexivity.
  rewrite map_map. reflexivity.
Qed.

Lemma selectKeyFacts_stored (memory : ContactMemoryEntry) (d : Database) :
  map keyFactOfRow (selectKeyFacts (contactId memory) (stored memory d))
  = JS.sort (fun a b => match (confidence a ?= confidence b)%Q with
                        | Lt => true
                        | _ => false
                        end)
            (keyFacts memory).
Proof.
  unfold selectKeyFacts. cbn [stored key_facts].
  rewrite filter_app.
  rewrite (filter_out_then_in (fun r => String.eqb (fcontact_id r) (contactId memory))).
  cbn [app]. rewrite filter_all.
  2:{ intros r Hr. apply in_map_iff in Hr. destruct Hr as [f [<- _]].
      apply String.eqb_refl. }
  rewrite <- (sort_map keyFactOfRow
                (fun a b => match (fconfidence a ?= fconfidence b)%Q with
                            | Lt => true
                            | _ => false
                            end)
                (fun a b => match (confidence a ?= confidence b)%Q with
                            | Lt => true
                            | _ => false
                            end)) by reflexivity.
  rewrite map_map. f_equal. rewrite <- (map_id (keyFacts memory)) at 2.
  apply map_ext. intros f. apply keyFactOfRow_keyFactRow.
Qed.

End StoreMore.

Section ReadFacts.

Import Schema ContactMemoryManager.

Lemma strictly_newest_first_stable (l : list Interaction) :
  StronglySorted (fun a b => timestamp b < timestamp a) l ->
  StronglySorted (fun x y => (timestamp x <? timestamp y) = false)
                 (map normalise l).
Proof.
  induction 1 as [|x l Hs IH Hall]; cbn [map]; constructor; [exact IH|].
  rewrite Forall_forall in *. intros y Hy. apply in_map_iff in Hy.
  destruct Hy as [z [<- Hz]]. cbn. apply Z.ltb_ge. specialize (Hall z Hz). lia.
Qed.

Lemma newest_rows_sorted (l : list InteractionRow) :
  SpecWords.NewestFirst timestamp
    (map interactionOfRow (JS.sort (fun a b => itimestamp a <? itimestamp b) l)).
Proof.
  rewrite <- (sort_map interactionOfRow
                (fun a b => itimestamp a <? itimestamp b)
                (fun a b => timestamp a <? timestamp b)) by reflexivity.
  apply sort_sorted. intros x y. rewrite Z.ltb_lt. lia.
Qed.

Lemma confident_rows_sorted (l : list KeyFactRow) :
  SpecWords.MostConfidentFirst
    (map keyFactOfRow
         (JS.sort (fun a b => match (fconfidence a ?= fconfidence b)%Q with
                              | Lt => true
                              | _ => false
                              end) l)).
Proof.
  rewrite <- (sort_map keyFactOfRow
                (fun a b => match (fconfidence a ?= fconfidence b)%Q with
                            | Lt => true
                            | _ => false
                            end)
                (fun a b => match (confidence a ?= confidence b)%Q with
                            | Lt => true
                            | _ => false
                            end)) by reflexivity.
  apply confidence_sorted.
Qed.

Lemma find_some_key {A} (f : A -> bool) (l : list A) (x : A) :
  find f l = Some x -> In x l /\ f x = true.
Proof. apply find_some. Qed.

End ReadFacts.

(** X15.  On an open database the write of an entry completes exactly when
    the ids of its interactions are distinct, the ids of its key facts are
    distinct, and none of them is the id of a row of another contact; the
    rows the contact had before are replaced and stand in nobody's way. *)
Theorem storeContactMemory_completes_iff (memory : ContactMemoryEntry)
        (d : Schema.Database) :
  (exists s', ContactMemoryManager.storeContactMemory memory (Some d)
              = (ContactMemoryManager.Ok tt, s'))
  <->
  (NoDup (map id (interactions memory))
   /\ NoDup (map kid (keyFacts memory))
   /\ (forall r, In r (Schema.interactionsT d) ->
         Schema.icontact_id r <> contactId memory ->
         ~ In (Schema.iid r) (map id (interactions memory)))
   /\ (forall r, In r (Schema.key_facts d) ->
         Schema.fcontact_id r <> contactId memory ->
         ~ In (Schema.fid r) (map kid (keyFacts memory)))).
Proof.
  split.
  - intros [s' H]. apply storeContactMemory_inv in H. exact H.
  - intros [H1 [H2 [H3 H4]]].
    exists (Some (ContactMemoryManager.stored memory d)).
    apply storeContactMemory_succeeds; assumption.
Qed.

(** X16.  A write that completed can be repeated: writing the same entry
    again completes too and leaves the database as the first write left
    it. *)
Theorem storeContactMemory_idempotent (memory : ContactMemoryEntry)
        (s s' : option Schema.Database) :
  ContactMemoryManager.storeContactMemory memory s
  = (ContactMemoryManager.Ok tt, s') ->
  ContactMemoryManager.storeContactMemory memory s'
  = (ContactMemoryManager.Ok tt, s').
Proof.
  intros H. pose proof H as H'.
  apply storeContactMemory_Ok in H'. destruct H' as [d [-> ->]].
  apply storeContactMemory_inv in H. destruct H as [H1 [H2 [H3 H4]]].
  rewrite <- (stored_stored memory d) at 2.
  apply storeContactMemory_succeeds; try assumption.
  - intros r Hr Hc. cbn [ContactMemoryManager.stored Schema.interactionsT] in Hr.
    apply in_app_iff in Hr. destruct Hr as [Hr | Hr].
    + apply filter_In in Hr. apply H3; tauto.
    + apply in_map_iff in Hr. destruct Hr as [i [<- _]]. contradiction Hc. reflexivity.
  - intros r Hr Hc. cbn [ContactMemoryManager.stored Schema.key_facts] in Hr.
    apply in_app_iff in Hr. destruct Hr as [Hr | Hr].
    + apply filter_In in Hr. apply H4; tauto.
    + apply in_map_iff in Hr. destruct Hr as [f [<- _]]. contradiction Hc. reflexivity.
Qed.

Lemma storeContactMemory_idempotent_witness :
  ContactMemoryManager.storeContactMemory Sample.entry (Some (Sample.emptyDb true))
  = (ContactMemoryManager.Ok tt,
     Some (ContactMemoryManager.stored Sample.entry (Sample.emptyDb true)))
  /\ ContactMemoryManager.storeContactMemory Sample.entry
       (Some (ContactMemoryManager.stored Sample.entry (Sample.emptyDb true)))
     = (ContactMemoryManager.Ok tt,
        Some (ContactMemoryManager.stored Sample.entry (Sample.emptyDb true))).
Proof.
  split; [vm_compute; reflexivity|].
  apply (@storeContactMemory_idempotent Sample.entry
           (Some (Sample.emptyDb true))).
  vm_compute. reflexivity.
Defined.

(** X17.  A write changes what is read for its own contact only: the read
    of any other contact returns after the write what it returned
    before. *)
Theorem storeContactMemory_isolation (memory : ContactMemoryEntry)
        (s s' : option Schema.Database) (other : string) :
  ContactMemoryManager.storeContactMemory memory s
  = (ContactMemoryManager.Ok tt, s') ->
  other <> contactId memory ->
  fst (ContactMemoryManager.getContactMemory other s')
  = fst (ContactMemoryManager.getContactMemory other s).
Proof.
  intros H Hne. apply storeContactMemory_Ok in H. destruct H as [d [-> ->]].
  rewrite !getContactMemory_eq. cbn [fst].
  destruct (@stored_other memory d other Hne) as [E1 [E2 E3]].
  rewrite E1. unfold ContactMemoryManager.entryOfRow. rewrite E2, E3. reflexivity.
Qed.

Lemma storeContactMemory_isolation_witness :
  fst (ContactMemoryManager.getContactMemory "c1"
         (Some (ContactMemoryManager.stored Sample.quiet
                  (ContactMemoryManager.stored Sample.entry (Sample.emptyDb true)))))
  = fst (ContactMemoryManager.getContactMemory "c1"
           (Some (ContactMemoryManager.stored Sample.entry (Sample.emptyDb true)))).
Proof.
  apply (@storeContactMemory_isolation Sample.quiet
           (Some (ContactMemoryManager.stored Sample.entry (Sample.emptyDb true)))
           (Some (ContactMemoryManager.stored Sample.quiet
                    (ContactMemoryManager.stored Sample.entry (Sample.emptyDb true))))).
  - vm_compute. reflexivity.
  - discriminate.
Defined.

(** X18.  The read after a write that completed returns the entry written:
    the same contact, location, update time, metadata, preferences and
    sentiment; the interactions written, each with an empty content turned
    into an absent one, newest first; the key facts written, most confident
    first.  Interactions written strictly newest first come back in the
    order in which they were written. *)
Theorem write_then_read_entry (memory : ContactMemoryEntry)
        (s s' : option Schema.Database) :
  ContactMemoryManager.storeContactMemory memory s
  = (ContactMemoryManager.Ok tt, s') ->
  exists e,
    ContactMemoryManager.getContactMemory (contactId memory) s'
    = (ContactMemoryManager.Ok (Some e), s')
    /\ contactId e = contactId memory
    /\ locationId e = locationId memory
    /\ lastUpdated e = lastUpdated memory
    /\ metadata e = metadata memory
    /\ preferences e = preferences memory
    /\ esentiment e = esentiment memory
    /\ Permutation (interactions e)
                   (map ContactMemoryManager.normalise (interactions memory))
    /\ SpecWords.NewestFirst timestamp (interactions e)
    /\ Permutation (keyFacts e) (keyFacts memory)
    /\ SpecWords.MostConfidentFirst (keyFacts e)
    /\ (StronglySorted (fun a b => timestamp b < timestamp a) (interactions memory) ->
        interactions e = map ContactMemoryManager.normalise (interactions memory)).
Proof.
  intros H. apply storeContactMemory_Ok in H. destruct H as [d [-> ->]].
  rewrite getContactMemory_eq, selectContact_stored.
  eexists. split; [reflexivity|].
  unfold ContactMemoryManager.entryOfRow.
  cbn [contactId locationId lastUpdated metadata preferences esentiment
       interactions keyFacts ContactMemoryManager.contactRow
       Schema.contact_id Schema.location_id Schema.last_updated
       Schema.rmetadata Schema.rpreferences Schema.rsentiment].
  repeat (split; [reflexivity|]).
  rewrite selectInteractions_stored, selectKeyFacts_stored.
  split; [symmetry; apply sort_Permutation|].
  split; [apply sort_sorted; intros x y; rewrite Z.ltb_lt; lia|].
  split; [symmetry; apply sort_Permutation|].
  split; [apply confidence_sorted|].
  intros Hs. apply sort_stable. apply strictly_newest_first_stable. exact Hs.
Qed.

Lemma write_then_read_entry_witness :
  exists e,
    ContactMemoryManager.getContactMemory (contactId Sample.entry)
      (Some (ContactMemoryManager.stored Sample.entry (Sample.emptyDb true)))
    = (ContactMemoryManager.Ok (Some e),
       Some (ContactMemoryManager.stored Sample.entry (Sample.emptyDb true)))
    /\ contactId e = contactId Sample.entry
    /\ locationId e = locationId Sample.entry
    /\ lastUpdated e = lastUpdated Sample.entry
    /\ metadata e = metadata Sample.entry
    /\ preferences e = preferences Sample.entry
    /\ esentiment e = esentiment Sample.entry
    /\ Permutation (interactions e)
                   (map ContactMemoryManager.normalise (interactions Sample.entry))
    /\ SpecWords.NewestFirst timestamp (interactions e)
    /\ Permutation (keyFacts e) (keyFacts Sample.entry)
    /\ SpecWords.MostConfidentFirst (keyFacts e)
    /\ (StronglySorted (fun a b => timestamp b < timestamp a)
                       (interactions Sample.entry) ->
        interactions e
        = map ContactMemoryManager.normalise (interactions Sample.entry)).
Proof.
  apply (@write_then_read_entry Sample.entry (Some (Sample.emptyDb true))).
  vm_compute. reflexivity.
Defined.

(** X19.  Whatever the database holds, a read does not change it, and the
    entry it returns for a contact carries that contact's id, its
    interactions newest first and its key facts most confident first. *)
Theorem getContactMemory_order (cid : string) (d : Schema.Database)
        (e : ContactMemoryEntry) (s' : option Schema.Database) :
  ContactMemoryManager.getContactMemory cid (Some d)
  = (ContactMemoryManager.Ok (Some e), s') ->
  s' = Some d
  /\ contactId e = cid
  /\ SpecWords.NewestFirst timestamp (interactions e)
  /\ SpecWords.MostConfidentFirst (keyFacts e).
Proof.
  rewrite getContactMemory_eq. intros H.
  destruct (Schema.selectContact cid d) as [row|] eqn:E; inversion H; subst.
  split; [reflexivity|]. split.
  - apply find_some_key in E. destruct E as [_ E]. cbn.
    apply String.eqb_eq. exact E.
  - split; [apply newest_rows_sorted | apply confident_rows_sorted].
Qed.

Lemma getContactMemory_order_witness :
  exists e,
    ContactMemoryManager.getContactMemory "c1"
      (Some (ContactMemoryManager.stored Sample.entry (Sample.emptyDb true)))
    = (ContactMemoryManager.Ok (Some e),
       Some (ContactMemoryManager.stored Sample.entry (Sample.emptyDb true)))
    /\ contactId e = "c1"
    /\ SpecWords.NewestFirst timestamp (interactions e)
    /\ SpecWords.MostConfidentFirst (keyFacts e).
Proof.
  eexists. split; [vm_compute; reflexivity|].
  eapply (@getContactMemory_order "c1"
            (ContactMemoryManager.stored Sample.entry (Sample.emptyDb true))).
  vm_compute. reflexivity.
Defined.

Section AppendFacts.

Import Schema ContactMemoryManager.

(** The database that a completed [addInteraction] leaves. *)
Lemma addInteraction_Ok (now : Z) (cid : string) (i : Interaction) (d : Database) :
  hasContact cid d = true ->
  (forall r, In r (interactionsT d) -> iid r <> id i) ->
  addInteraction now cid i (Some d) =
  (Ok tt,
   Some {| foreign_keys := foreign_keys d;
           contact_memory :=
             map (fun r =>
                    if String.eqb (contact_id r) cid
                    then {| contact_id := contact_id r;
                            location_id := location_id r;
                            last_updated := now;
                            rmetadata := rmetadata r;
                            rpreferences := rpreferences r;
                            rsentiment := rsentiment r;
                            created_at := created_at r |}
                    else r)
                 (contact_memory d);
           interactionsT := interactionsT d ++ [interactionRow cid i];
           key_facts := key_facts d |}).
Proof.
  intros Hc Hfresh. unfold addInteraction.
  unfold bind at 1. cbn [requireDb].
  unfold bind at 1. unfold run at 1, insertInteraction.
  rewrite existsb_none.
  2:{ intros r Hr. cbn [iid interactionRow]. apply String.eqb_neq.
      apply Hfresh, Hr. }
  cbn [icontact_id interactionRow]. rewrite Hc, andb_false_r.
  reflexivity.
Qed.

Lemma find_touched (now : Z) (cid : string) (l : list ContactMemoryRow) :
  find (fun r => String.eqb (contact_id r) cid)
       (map (fun r =>
               if String.eqb (contact_id r) cid
               then {| contact_id := contact_id r;
                       location_id := location_id r;
                       last_updated := now;
                       rmetadata := rmetadata r;
                       rpreferences := rpreferences r;
                       rsentiment := rsentiment r;
                       created_at := created_at r |}
               else r) l)
  = match find (fun r => String.eqb (contact_id r) cid) l with
    | Some r => Some {| contact_id := contact_id r;
                        location_id := location_id r;
                        last_updated := now;
                        rmetadata := rmetadata r;
                        rpreferences := rpreferences r;
                        rsentiment := rsentiment r;
                        created_at := created_at r |}
    | None => None
    end.
Proof.
  induction l as [|r l IH]; [reflexivity|].
  cbn [map find]. destruct (String.eqb (contact_id r) cid) eqn:E.
  - cbn [contact_id]. rewrite E. reflexivity.
  - rewrite E. exact IH.
Qed.

Lemma hasContact_selectContact (cid : string) (d : Database) :
  hasContact cid d = true -> exists row, selectContact cid d = Some row.
Proof.
  unfold hasContact, selectContact. intros H.
  apply existsb_exists in H. destruct H as [r [Hr E]].
  destruct (find _ (contact_memory d)) as [row|] eqn:F; [exists row; reflexivity|].
  pose proof (List.find_none _ _ F r Hr) as N. cbn beta in N. congruence.
Qed.

End AppendFacts.

(** X20.  On a contact that has an entry, [addInteraction] with an id that
    is not in use completes, and the next read returns the entry with
    [lastUpdated] set to the time of the call and the interaction added
    (an empty content absent), newest first; the key facts, the sentiment,
    the preferences and the metadata, [lastSeen] included, are what they
    were. *)
Theorem addInteraction_existing (now : Z) (cid : string) (i : Interaction)
        (d : Schema.Database) :
  Schema.hasContact cid d = true ->
  (forall r, In r (Schema.interactionsT d) -> Schema.iid r <> id i) ->
  exists d' e e',
    ContactMemoryManager.addInteraction now cid i (Some d)
    = (ContactMemoryManager.Ok tt, Some d')
    /\ ContactMemoryManager.getContactMemory cid (Some d)
       = (ContactMemoryManager.Ok (Some e), Some d)
    /\ ContactMemoryManager.getContactMemory cid (Some d')
       = (ContactMemoryManager.Ok (Some e'), Some d')
    /\ lastUpdated e' = now
    /\ Permutation (interactions e')
                   (ContactMemoryManager.normalise i :: interactions e)
    /\ SpecWords.NewestFirst timestamp (interactions e')
    /\ keyFacts e' = keyFacts e
    /\ esentiment e' = esentiment e
    /\ preferences e' = preferences e
    /\ metadata e' = metadata e
    /\ contactId e' = contactId e
    /\ locationId e' = locationId e.
Proof.
  intros Hc Hfresh.
  destruct (hasContact_selectContact cid d Hc) as [row Hrow].
  eexists. exists (ContactMemoryManager.entryOfRow row cid d). eexists.
  split; [apply addInteraction_Ok; assumption|].
  split; [rewrite getContactMemory_eq, Hrow; reflexivity|].
  split.
  { rewrite getContactMemory_eq. unfold Schema.selectContact.
    cbn [Schema.contact_memory]. rewrite find_touched.
    unfold Schema.selectContact in Hrow. rewrite Hrow. reflexivity. }
  unfold ContactMemoryManager.entryOfRow.
  cbn [lastUpdated interactions keyFacts esentiment preferences metadata
       contactId locationId Schema.contact_id Schema.location_id
       Schema.last_updated Schema.rmetadata Schema.rpreferences
       Schema.rsentiment].
  split; [reflexivity|].
  split.
  { unfold Schema.selectInteractions. cbn [Schema.interactionsT].
    rewrite filter_app. cbn [filter Schema.icontact_id
                               ContactMemoryManager.interactionRow].
    rewrite String.eqb_refl.
    change (ContactMemoryManager.normalise i)
      with (ContactMemoryManager.interactionOfRow
              (ContactMemoryManager.interactionRow cid i)).
    rewrite <- map_cons. apply Permutation_map.
    rewrite <- sort_Permutation. rewrite <- sort_Permutation.
    rewrite Permutation_app_comm. reflexivity. }
  split; [apply newest_rows_sorted|].
  repeat split; reflexivity.
Qed.

Lemma addInteraction_existing_witness :
  exists d' e e',
    ContactMemoryManager.addInteraction (Sample.now + 5) "c1" Sample.callback
      (Some (ContactMemoryManager.stored Sample.entry (Sample.emptyDb true)))
    = (ContactMemoryManager.Ok tt, Some d')
    /\ ContactMemoryManager.getContactMemory "c1"
         (Some (ContactMemoryManager.stored Sample.entry (Sample.emptyDb true)))
       = (ContactMemoryManager.Ok (Some e),
          Some (ContactMemoryManager.stored Sample.entry (Sample.emptyDb true)))
    /\ ContactMemoryManager.getContactMemory "c1" (Some d')
       = (ContactMemoryManager.Ok (Some e'), Some d')
    /\ lastUpdated e' = Sample.now + 5
    /\ Permutation (interactions e')
                   (ContactMemoryManager.normalise Sample.callback :: interactions e)
    /\ SpecWords.NewestFirst timestamp (interactions e')
    /\ keyFacts e' = keyFacts e
    /\ esentiment e' = esentiment e
    /\ preferences e' = preferences e
    /\ metadata e' = metadata e
    /\ contactId e' = contactId e
    /\ locationId e' = locationId e.
Proof.
  apply (@addInteraction_existing (Sample.now + 5) "c1" Sample.callback
           (ContactMemoryManager.stored Sample.entry (Sample.emptyDb true))).
  - vm_compute. reflexivity.
  - intros r Hr. vm_compute in Hr.
    destruct Hr as [<- | [<- | []]]; vm_compute; discriminate.
Defined.

(** X21.  After [close] every operation of the manager throws "Database not
    initialized" and leaves the manager closed; closing again does nothing,
    and [initialize] opens the database again. *)
Theorem closed_manager (s : option Schema.Database)
        (memory : ContactMemoryEntry) (cid locId query : string)
        (i : Interaction) (now : Z) (limit : option Z)
        (clock : MemoryRetrieval.ContextClock)
        (o : option MemoryRetrieval.MemoryQueryOptions)
        (ghl : ContactMemoryManager.GHLAnswer) (nanoid : nat -> string)
        (syncClock : ContactMemoryManager.SyncClock)
        (onDisk : Schema.Database) :
  let closed := snd (ContactMemoryManager.close s) in
  ContactMemoryManager.storeContactMemory memory closed
  = (ContactMemoryManager.Throw ContactMemoryManager.DatabaseNotInitialized, None)
  /\ ContactMemoryManager.getContactMemory cid closed
     = (ContactMemoryManager.Throw ContactMemoryManager.DatabaseNotInitialized, None)
  /\ ContactMemoryManager.getContactContext clock cid o closed
     = (ContactMemoryManager.Throw ContactMemoryManager.DatabaseNotInitialized, None)
  /\ ContactMemoryManager.addInteraction now cid i closed
     = (ContactMemoryManager.Throw ContactMemoryManager.DatabaseNotInitialized, None)
  /\ ContactMemoryManager.searchContacts query limit closed
     = (ContactMemoryManager.Throw ContactMemoryManager.DatabaseNotInitialized, None)
  /\ ContactMemoryManager.syncContactFromGHL ghl nanoid syncClock locId cid closed
     = (ContactMemoryManager.Throw ContactMemoryManager.DatabaseNotInitialized, None)
  /\ ContactMemoryManager.close closed = (ContactMemoryManager.Ok tt, None)
  /\ ContactMemoryManager.initialize None onDisk closed
     = (ContactMemoryManager.Ok tt, Some onDisk).
Proof.
  cbn. repeat split; reflexivity.
Qed.

Section SyncMore.

Import Schema ContactMemoryManager ContactMemoryIndexer.

(** Where a fact of [extractKeyFacts] comes from. *)
Lemma extractKeyFacts_source (nanoid : nat -> string) (l : list Interaction)
      (cid : string) (f : KeyFact) :
  In f (extractKeyFacts nanoid l cid) ->
  exists i, In i l /\ source f = id i /\ ktimestamp f = timestamp i.
Proof.
  unfold extractKeyFacts. intros H.
  apply assignIds_In in H. destruct H as [p [k [Hp ->]]].
  apply in_flat_map in Hp. destruct Hp as [i [Hi Hp]]. exists i. split; [exact Hi|].
  unfold interactionFacts in Hp. rewrite !in_app_iff in Hp.
  destruct Hp as [Hp | [Hp | Hp]].
  - apply commitmentFacts_In in Hp. destruct Hp as [pattern [c [_ [_ [_ ->]]]]].
    split; reflexivity.
  - apply preferenceFacts_In in Hp. destruct Hp as [pattern [c [_ [_ [_ ->]]]]].
    split; reflexivity.
  - destruct (objectionFacts_cases i) as [E | [w [_ E]]];
      rewrite E in Hp; [destruct Hp|].
    destruct Hp as [<- | []]. split; reflexivity.
Qed.

Lemma sentimentHistory_length (l : list Interaction) :
  (length (sentimentHistory l) <= 20)%nat.
Proof. unfold sentimentHistory, JS.slice0. apply firstn_le_length. Qed.

Lemma sentimentHistory_In (l : list Interaction) (h : SentimentEntry) :
  In h (sentimentHistory l) ->
  exists i, In i l /\ sentiment i = Some (hsentiment h)
            /\ htimestamp h = timestamp i
            /\ hscore h = scoreOf (hsentiment h).
Proof.
  unfold sentimentHistory, JS.slice0. intros H. apply firstn_subset in H.
  apply in_flat_map in H. destruct H as [i [Hi H]]. exists i. split; [exact Hi|].
  destruct (sentiment i) as [s|]; [|destruct H].
  destruct H as [<- | []]. cbn. repeat split; reflexivity.
Qed.

End SyncMore.

(** X22.  After a sync that completed, the read of the contact returns the
    name and the preferences that the source gave, the location and the
    clock readings of the sync, and no email, phone or tag.  Its key facts
    are the facts extracted from all messages of the contact, each with the
    id and the time of the message it was found in, also when the
    compaction has dropped that message from the interactions; the
    sentiment history holds at most 20 entries, each the sentiment of a
    message with its score. *)
Theorem sync_then_read (ghl : ContactMemoryManager.GHLAnswer)
        (nanoid : nat -> string) (clock : ContactMemoryManager.SyncClock)
        (locId cid : string) (s s' : option Schema.Database) :
  ContactMemoryManager.syncContactFromGHL ghl nanoid clock locId cid s
  = (ContactMemoryManager.Ok tt, s') ->
  let messages :=
    GHLConversations.getAllContactMessages (ContactMemoryManager.conversations ghl) in
  exists contactName prefs e,
    ContactMemoryManager.contactContext ghl = Some (contactName, prefs)
    /\ ContactMemoryManager.getContactMemory cid s'
       = (ContactMemoryManager.Ok (Some e), s')
    /\ contactId e = cid
    /\ locationId e = locId
    /\ lastUpdated e = ContactMemoryManager.atLastUpdated clock
    /\ metadata e = {| name := contactName; memail := None; mphone := None;
                       tags := []; msource := "ghl";
                       firstSeen := ContactMemoryManager.atFirstSeen clock;
                       lastSeen := ContactMemoryManager.atLastSeen clock |}
    /\ preferences e = prefs
    /\ Permutation (keyFacts e)
         (ContactMemoryIndexer.extractKeyFacts
            nanoid (ContactMemoryIndexer.indexMessages messages) cid)
    /\ (forall f, In f (keyFacts e) ->
          exists m, In m (concat (ContactMemoryManager.conversations ghl))
                    /\ source f = gid m /\ ktimestamp f = dateAdded m)
    /\ (length (history (esentiment e)) <= 20)%nat
    /\ (forall h, In h (history (esentiment e)) ->
          exists m, In m (concat (ContactMemoryManager.conversations ghl))
                    /\ htimestamp h = dateAdded m
                    /\ hsentiment h = ContactMemoryIndexer.analyzeSentiment (body m)
                    /\ hscore h = ContactMemoryManager.scoreOf (hsentiment h)).
Proof.
  unfold ContactMemoryManager.syncContactFromGHL. intros H. cbn zeta.
  apply bind_Ok in H. destruct H as [d [s1 [H0 H]]].
  apply requireDb_Ok in H0. destruct H0 as [-> ->].
  destruct (ContactMemoryManager.contactContext ghl) as [[contactName prefs]|];
    [|discriminate].
  apply storeContactMemory_Ok in H. destruct H as [d0 [E0 ->]].
  inversion E0; subst d0. clear E0.
  exists contactName, prefs.
  match goal with
  | |- context [ContactMemoryManager.stored ?m d] => set (memory := m)
  end.
  change cid with (contactId memory) at 1.
  rewrite getContactMemory_eq, selectContact_stored.
  eexists. split; [reflexivity|]. split; [reflexivity|].
  unfold ContactMemoryManager.entryOfRow.
  cbn [contactId locationId lastUpdated metadata preferences esentiment
       interactions keyFacts ContactMemoryManager.contactRow
       Schema.contact_id Schema.location_id Schema.last_updated
       Schema.rmetadata Schema.rpreferences Schema.rsentiment].
  repeat (split; [reflexivity|]).
  rewrite selectKeyFacts_stored.
  split; [symmetry; apply sort_Permutation|].
  split.
  { intros f Hf. apply sort_In in Hf. subst memory. cbn [keyFacts] in Hf.
    apply extractKeyFacts_source in Hf. destruct Hf as [i [Hi [E1 E2]]].
    apply in_map_iff in Hi. destruct Hi as [m [<- Hm]].
    apply sort_In in Hm. exists m. repeat split; assumption. }
  subst memory. cbn [esentiment history].
  split; [apply sentimentHistory_length|].
  intros h Hh. apply sentimentHistory_In in Hh.
  destruct Hh as [i [Hi [E1 [E2 E3]]]].
  apply in_map_iff in Hi. destruct Hi as [m [<- Hm]].
  apply sort_In in Hm. exists m. cbn in E1. injection E1 as E4.
  split; [exact Hm|]. split; [exact E2|]. split; [symmetry; exact E4 | exact E3].
Qed.

Lemma sync_then_read_witness :
  exists contactName prefs e,
    ContactMemoryManager.contactContext Sample.busyAnswer = Some (contactName, prefs)
    /\ ContactMemoryManager.getContactMemory "c1" Sample.afterBusySync
       = (ContactMemoryManager.Ok (Some e), Sample.afterBusySync)
    /\ contactId e = "c1".
Proof.
  destruct (@sync_then_read Sample.busyAnswer Sample.nanoid Sample.clock
              "loc" "c1" (Some (Sample.emptyDb true)) Sample.afterBusySync)
    as [contactName [prefs [e [H1 [H2 [H3 _]]]]]].
  - vm_compute. reflexivity.
  - exists contactName, prefs, e. repeat split; assumption.
Defined.

Section SearchFacts.

Import Schema ContactMemoryManager.










Lemma list_ascii_app (a b : string) :
  list_ascii_of_string (a +++ b)
  = list_ascii_of_string a ++ list_ascii_of_string b.
Proof. induction a as [|c a IH]; simpl; congruence. Qed.



End SearchFacts.





Section TrimFacts.

Lemma rev_app (a b : string) : JS.rev (a +++ b) = JS.rev b +++ JS.rev a.
Proof.
  induction a as [|c a IH]; simpl.
  - rewrite append_empty_r. reflexivity.
  - rewrite IH, append_assoc. reflexivity.
Qed.

Lemma trimStart_snoc (r : string) (c : ascii) :
  JS.isSpace c = false ->
  JS.trimStart (r +++ String c "") = JS.trimStart r +++ String c "".
Proof.
  intros H. induction r as [|x r IH]; simpl.
  - rewrite H. reflexivity.
  - destruct (JS.isSpace x); [exact IH | reflexivity].
Qed.

(** A character that is no white space stays where it is when the end of
    the string is trimmed. *)
Lemma trimEnd_cons (c : ascii) (s : string) :
  JS.isSpace c = false ->
  JS.rev (JS.trimStart (JS.rev (String c s)))
  = String c (JS.rev (JS.trimStart (JS.rev s))).
Proof.
  intros H. cbn [JS.rev]. rewrite trimStart_snoc by exact H.
  rewrite rev_app. reflexivity.
Qed.

Lemma trim_cons (c : ascii) (s : string) :
  JS.isSpace c = false ->
  JS.trim (String c s) = String c (JS.rev (JS.trimStart (JS.rev s))).
Proof.
  intros H. unfold JS.trim. cbn [JS.trimStart]. rewrite H.
  apply trimEnd_cons. exact H.
Qed.

End TrimFacts.

(** X25.  The name that [indexContact] gives a contact is never empty, and
    it is the contact name of the source when that is not empty.  For a
    contact with no contact name and no first name it begins with the text
    undefined, which the template string makes of the absent first name,
    and the fallback Unknown is not reached. *)
Theorem indexContact_name (now : Z) (contact : GHLContact) :
  let n := name (ContactMemoryIndexer.xMetadata
                   (ContactMemoryIndexer.indexContact now contact)) in
  n <> ""
  /\ (forall c v, contactName contact = Some (String c v) -> n = String c v)
  /\ ((contactName contact = None \/ contactName contact = Some "") ->
      firstName contact = None ->
      String.prefix "undefined" n = true /\ n <> "Unknown").
Proof.
  cbn [ContactMemoryIndexer.indexContact ContactMemoryIndexer.xMetadata name].
  unfold ContactMemoryIndexer.contactDisplayName. cbn zeta.
  split; [|split].
  - destruct (contactName contact) as [[|c v]|]; cbn [ContactMemoryIndexer.orElse];
      try discriminate;
      destruct (JS.trim _); discriminate.
  - intros c v ->. reflexivity.
  - intros Hname Hfirst. rewrite Hfirst.
    assert (ContactMemoryIndexer.orElse (contactName contact)
              (ContactMemoryIndexer.orElse
                 (Some (JS.trim (ContactMemoryIndexer.render None +++ " "
                                 +++ ContactMemoryIndexer.render (lastName contact))))
                 "Unknown")
            = ContactMemoryIndexer.orElse
                (Some (JS.trim (ContactMemoryIndexer.render None +++ " "
                                +++ ContactMemoryIndexer.render (lastName contact))))
                "Unknown") as ->
      by (destruct Hname as [-> | ->]; reflexivity).
    cbn [ContactMemoryIndexer.render String.append].
    rewrite trim_cons by reflexivity.
    rewrite !trimEnd_cons by reflexivity.
    cbn [ContactMemoryIndexer.orElse].
    split; [apply (@prefix_refl_app "undefined") | discriminate].
Qed.

Lemma indexContact_name_witness :
  String.prefix "undefined"
    (name (ContactMemoryIndexer.xMetadata
             (ContactMemoryIndexer.indexContact 0
                {| cid := "c1"; clocationId := "loc"; contactName := None;
                   firstName := None; lastName := Some "Lovelace";
                   cemail := None; cphone := None; ctags := None;
                   customFields := None; csource := None;
                   cdateAdded := None; cdateUpdated := None |}))) = true
  /\ name (ContactMemoryIndexer.xMetadata
             (ContactMemoryIndexer.indexContact 0
                {| cid := "c1"; clocationId := "loc"; contactName := None;
                   firstName := None; lastName := Some "Lovelace";
                   cemail := None; cphone := None; ctags := None;
                   customFields := None; csource := None;
                   cdateAdded := None; cdateUpdated := None |})) <> "Unknown".
Proof.
  apply (indexContact_name 0
           {| cid := "c1"; clocationId := "loc"; contactName := None;
              firstName := None; lastName := Some "Lovelace";
              cemail := None; cphone := None; ctags := None;
              customFields := None; csource := None;
              cdateAdded := None; cdateUpdated := None |}).
  - left. reflexivity.
  - reflexivity.
Defined.

Section WeekKeyFacts.

(** The digits of a number hold no letter. *)
Local Abbreviation noW s :=
  (forall c, In c (list_ascii_of_string s) -> c <> "W"%char).

Lemma string_of_uint_noW (d : Decimal.uint) : noW (NilEmpty.string_of_uint d).
Proof.
  induction d as [|d IHd|d IHd|d IHd|d IHd|d IHd|d IHd|d IHd|d IHd|d IHd|d IHd];
    cbn; intros c H; [destruct H | | | | | | | | | |];
    (destruct H as [<- | H]; [discriminate | apply IHd, H]).
Qed.

Lemma ofZ_noW (z : Z) : noW (JS.ofZ z).
Proof.
  unfold JS.ofZ, NilZero.string_of_int, NilZero.string_of_uint.
  destruct (Z.to_int z) as [d | d].
  - destruct d; try apply string_of_uint_noW.
    intros c [<- | []]. discriminate.
  - intros c [<- | H]; [discriminate|]. revert c H.
    destruct d; try apply string_of_uint_noW.
    intros c [<- | []]. discriminate.
Qed.

Lemma noW_app (a b : string) : noW a -> noW b -> noW (a +++ b).
Proof.
  intros Ha Hb c H. rewrite list_ascii_app in H.
  apply in_app_iff in H. destruct H; auto.
Qed.

(** Two texts are cut alike at their first [W]. *)
Lemma split_at_W (a1 a2 r1 r2 : string) :
  noW a1 -> noW a2 ->
  a1 +++ String "W" r1 = a2 +++ String "W" r2 -> a1 = a2 /\ r1 = r2.
Proof.
  revert a2. induction a1 as [|c a1 IH]; intros [|c' a2] H1 H2 E; cbn in E.
  - inversion E. split; reflexivity.
  - inversion E; subst. exfalso. apply (H2 "W"%char); [left|]; reflexivity.
  - inversion E; subst. exfalso. apply (H1 "W"%char); [left|]; reflexivity.
  - inversion E; subst. destruct (IH a2) as [-> ->]; try assumption.
    + intros x Hx. apply H1. right. exact Hx.
    + intros x Hx. apply H2. right. exact Hx.
    + split; reflexivity.
Qed.

Lemma append_cancel_last (a b : string) (c : ascii) :
  a +++ String c "" = b +++ String c "" -> a = b.
Proof.
  revert b. induction a as [|x a IH]; intros [|y b] E; cbn in E.
  - reflexivity.
  - inversion E as [[E1 E2]]. destruct b; discriminate.
  - inversion E as [[E1 E2]]. destruct a; discriminate.
  - inversion E; subst. f_equal. apply IH. assumption.
Qed.

Lemma ofZ_read (z : Z) :
  exists d, NilZero.int_of_string (JS.ofZ z) = Some d /\ Z.of_int d = z.
Proof.
  unfold JS.ofZ.
  assert (forall d, exists d', NilZero.int_of_string (NilZero.string_of_int d) = Some d'
                               /\ Z.of_int d' = Z.of_int d) as H.
  { intros [[| | | | | | | | | |]|[| | | | | | | | | |]];
      try (eexists; split; [apply NilZero.isi; discriminate | reflexivity]).
    - eexists. split; [apply NilZero.isi_posnil | reflexivity].
    - eexists. split; [apply NilZero.isi_negnil | reflexivity]. }
  destruct (H (Z.to_int z)) as [d [E1 E2]]. exists d. split; [exact E1|].
  rewrite E2. apply DecimalZ.of_to.
Qed.

Lemma ofZ_injective (a b : Z) : JS.ofZ a = JS.ofZ b -> a = b.
Proof.
  intros E. destruct (ofZ_read a) as [da [Ha <-]]. destruct (ofZ_read b) as [db [Hb <-]].
  rewrite E in Ha. congruence.
Qed.

(** A week key tells the year and the number of the week. *)
Lemma getWeekKey_injective (a b : Z) :
  MemoryCompactor.getWeekKey a = MemoryCompactor.getWeekKey b ->
  JS.getFullYear a = JS.getFullYear b
  /\ MemoryCompactor.weekOf a = MemoryCompactor.weekOf b.
Proof.
  unfold MemoryCompactor.getWeekKey. intros E.
  change (JS.ofZ (JS.getFullYear a) +++ "-" +++ String "W" (JS.ofZ (MemoryCompactor.weekOf a))
          = JS.ofZ (JS.getFullYear b) +++ "-" +++ String "W" (JS.ofZ (MemoryCompactor.weekOf b)))
    in E.
  rewrite <- !append_assoc in E.
  apply split_at_W in E.
  - destruct E as [E1 E2]. apply append_cancel_last in E1.
    split; apply ofZ_injective; assumption.
  - apply noW_app; [apply ofZ_noW|]. intros c [<- | []]. discriminate.
  - apply noW_app; [apply ofZ_noW|]. intros c [<- | []]. discriminate.
Qed.

Lemma same_week_span (a b : Z) :
  JS.getFullYear a = JS.getFullYear b ->
  MemoryCompactor.weekOf a = MemoryCompactor.weekOf b ->
  Z.abs (a - b) < 7 * JS.msPerDay.
Proof.
  unfold MemoryCompactor.weekOf, JS.msPerDay. intros -> E.
  set (y := JS.yearStart (JS.getFullYear b)) in *.
  pose proof (Z.div_mod (a - y) (7 * 24 * 60 * 60 * 1000)).
  pose proof (Z.div_mod (b - y) (7 * 24 * 60 * 60 * 1000)).
  pose proof (Z.mod_pos_bound (a - y) (7 * 24 * 60 * 60 * 1000)).
  pose proof (Z.mod_pos_bound (b - y) (7 * 24 * 60 * 60 * 1000)).
  lia.
Qed.

End WeekKeyFacts.

(** X26.  The members of a week group of a compaction lie in one calendar
    year and less than seven days apart, so that a summary never stands for
    more than a week of interactions. *)
Theorem weekGroup_span (now : Z) (l : list Interaction) (k : string)
        (g : list Interaction) (i j : Interaction) :
  In (k, g) (MemoryCompactor.weekGroups now l) ->
  In i g -> In j g ->
  JS.getFullYear (timestamp i) = JS.getFullYear (timestamp j)
  /\ Z.abs (timestamp i - timestamp j) < 7 * JS.msPerDay.
Proof.
  unfold MemoryCompactor.weekGroups. intros Hg Hi Hj.
  apply groupByWeek_member in Hg. destruct Hg as [-> _].
  apply filter_In in Hi. destruct Hi as [_ Hi]. apply String.eqb_eq in Hi.
  apply filter_In in Hj. destruct Hj as [_ Hj]. apply String.eqb_eq in Hj.
  assert (MemoryCompactor.getWeekKey (timestamp i)
          = MemoryCompactor.getWeekKey (timestamp j)) as E by congruence.
  apply getWeekKey_injective in E. destruct E as [E1 E2].
  split; [exact E1 | apply same_week_span; assumption].
Qed.

Lemma weekGroup_span_witness :
  JS.getFullYear (timestamp Sample.thursday) = JS.getFullYear (timestamp Sample.tuesday)
  /\ Z.abs (timestamp Sample.thursday - timestamp Sample.tuesday) < 7 * JS.msPerDay.
Proof.
  apply (@weekGroup_span Sample.now Sample.withWeek4 "2024-W4"
           [Sample.thursday; Sample.wednesday; Sample.tuesday]).
  - vm_compute. left. reflexivity.
  - left. reflexivity.
  - right. right. left. reflexivity.
Defined.

Section SentimentFacts.

Lemma countUp (f : string -> bool) (l : list string) (a : Z) :
  fold_left (fun score w => if f w then score + 1 else score) l a
  = a + Z.of_nat (length (filter f l)).
Proof.
  revert a. induction l as [|w l IH]; intros a; cbn [fold_left filter].
  - cbn. lia.
  - rewrite IH. destruct (f w); cbn [length]; lia.
Qed.

Lemma countDown (f : string -> bool) (l : list string) (a : Z) :
  fold_left (fun score w => if f w then score - 1 else score) l a
  = a - Z.of_nat (length (filter f l)).
Proof.
  revert a. induction l as [|w l IH]; intros a; cbn [fold_left filter].
  - cbn. lia.
  - rewrite IH. destruct (f w); cbn [length]; lia.
Qed.

End SentimentFacts.

(** X27.  The sentiment of a text is a vote of the listed words that occur
    in the lowered text, each word counting once however often it occurs:
    positive when more positive than negative words occur, negative when
    more negative than positive ones do, neutral otherwise.  A text in
    which no listed word occurs is neutral, and a positive text holds a
    positive word. *)
Theorem analyzeSentiment_vote (text : string) :
  let hits := filter (JS.includes (JS.toLowerCase text)) in
  let p := length (hits ContactMemoryIndexer.positiveWords) in
  let n := length (hits ContactMemoryIndexer.negativeWords) in
  (ContactMemoryIndexer.analyzeSentiment text = positive <-> (n < p)%nat)
  /\ (ContactMemoryIndexer.analyzeSentiment text = negative <-> (p < n)%nat)
  /\ (ContactMemoryIndexer.analyzeSentiment text = neutral <-> p = n)
  /\ (ContactMemoryIndexer.analyzeSentiment text = positive ->
      exists w, In w ContactMemoryIndexer.positiveWords
                /\ JS.includes (JS.toLowerCase text) w = true)
  /\ (ContactMemoryIndexer.analyzeSentiment text = negative ->
      exists w, In w ContactMemoryIndexer.negativeWords
                /\ JS.includes (JS.toLowerCase text) w = true).
Proof.
  cbn zeta. unfold ContactMemoryIndexer.analyzeSentiment. cbn zeta.
  rewrite countDown, countUp.
  set (p := length (filter (JS.includes (JS.toLowerCase text))
                           ContactMemoryIndexer.positiveWords)).
  set (n := length (filter (JS.includes (JS.toLowerCase text))
                           ContactMemoryIndexer.negativeWords)).
  assert ((0 < p)%nat ->
          exists w, In w ContactMemoryIndexer.positiveWords
                    /\ JS.includes (JS.toLowerCase text) w = true) as Hp.
  { subst p. intros H.
    destruct (filter (JS.includes (JS.toLowerCase text))
                     ContactMemoryIndexer.positiveWords) as [|w ws] eqn:E;
      [cbn in H; lia|].
    assert (In w (filter (JS.includes (JS.toLowerCase text))
                         ContactMemoryIndexer.positiveWords)) as Hw
      by (rewrite E; left; reflexivity).
    apply filter_In in Hw. exists w. exact Hw. }
  assert ((0 < n)%nat ->
          exists w, In w ContactMemoryIndexer.negativeWords
                    /\ JS.includes (JS.toLowerCase text) w = true) as Hn.
  { subst n. intros H.
    destruct (filter (JS.includes (JS.toLowerCase text))
                     ContactMemoryIndexer.negativeWords) as [|w ws] eqn:E;
      [cbn in H; lia|].
    assert (In w (filter (JS.includes (JS.toLowerCase text))
                         ContactMemoryIndexer.negativeWords)) as Hw
      by (rewrite E; left; reflexivity).
    apply filter_In in Hw. exists w. exact Hw. }
  clearbody p n.
  destruct (0 <? 0 + Z.of_nat p - Z.of_nat n) eqn:E1;
    [apply Z.ltb_lt in E1 | apply Z.ltb_ge in E1;
     destruct (0 + Z.of_nat p - Z.of_nat n <? 0) eqn:E2;
     [apply Z.ltb_lt in E2 | apply Z.ltb_ge in E2]].
  - repeat split; intros; try discriminate; try lia; try reflexivity.
    apply Hp. lia.
  - repeat split; intros; try discriminate; try lia; try reflexivity.
    apply Hn. lia.
  - repeat split; intros; try discriminate; try lia; try reflexivity.
Qed.

Section DueDateFacts.

Import TranscriptProcessor.

Lemma weekDay_range (t : Z) : 0 <= JS.weekDay t < 7.
Proof. unfold JS.weekDay. apply Z.mod_pos_bound. lia. Qed.

Lemma weekDay_next (t : Z) :
  JS.weekDay (t + JS.msPerDay) = (JS.weekDay t + 1) mod 7.
Proof.
  unfold JS.weekDay.
  replace (t + JS.msPerDay) with (t + 1 * JS.msPerDay) by lia.
  rewrite Z.div_add by (unfold JS.msPerDay; lia).
  replace (t / JS.msPerDay + 1 + 4) with (t / JS.msPerDay + 4 + 1) by lia.
  rewrite Zplus_mod_idemp_l. reflexivity.
Qed.

Lemma weekdaysAfter_next (local : Z) (j : nat) :
  SpecWords.weekdaysAfter local (S j) =
  (SpecWords.weekdaysAfter local j
   + if SpecWords.isWeekday (local + Z.of_nat (S j) * JS.msPerDay) then 1 else 0)%nat.
Proof.
  unfold SpecWords.weekdaysAfter. rewrite seq_S, filter_app, length_app.
  cbn [filter Nat.add]. destruct (SpecWords.isWeekday _); reflexivity.
Qed.

Lemma weekdaysAfter_le (local : Z) (k : nat) :
  (SpecWords.weekdaysAfter local k <= k)%nat.
Proof.
  unfold SpecWords.weekdaysAfter.
  etransitivity; [apply filter_length_le|]. rewrite length_seq. lia.
Qed.

Variable zone : JS.Zone.
Variable now : Z.

(** The local time at which the loop starts. *)
Let local : Z := JS.localTime zone now.

(** The loop from its [j]-th turn on: [date] stands at the local time of
    day of [now], [j] days later, and the local times of the turns to come
    exist in the zone. *)
Lemma dueDateLoop_exits (days : Z) (fuel j : nat) (date : Z) :
  JS.localTime zone date = local + Z.of_nat j * JS.msPerDay ->
  (forall i : nat,
     (j < i <= j + fuel)%nat ->
     JS.localTime zone (JS.utcOf zone (local + Z.of_nat i * JS.msPerDay))
     = local + Z.of_nat i * JS.msPerDay) ->
  Z.of_nat (SpecWords.weekdaysAfter local j) <= days ->
  SpecWords.turnsLeft (JS.weekDay (local + Z.of_nat j * JS.msPerDay))
                      (days - Z.of_nat (SpecWords.weekdaysAfter local j))
  <= Z.of_nat fuel ->
  exists (k : nat) (due : Z),
    (j <= k <= j + fuel)%nat
    /\ dueDateLoop zone fuel date
                   (Z.of_nat (SpecWords.weekdaysAfter local j)) days
       = Some due
    /\ JS.localTime zone due = local + Z.of_nat k * JS.msPerDay
    /\ (k = j -> due = date)
    /\ ((j < k)%nat ->
        due = JS.utcOf zone (local + Z.of_nat k * JS.msPerDay))
    /\ Z.of_nat (SpecWords.weekdaysAfter local k) = days
    /\ ((j < k)%nat ->
        SpecWords.isWeekday (local + Z.of_nat k * JS.msPerDay) = true).
Proof.
  revert j date. induction fuel as [|fuel IH]; intros j date Hdate Hexist Hle Hfuel.
  - cbn [dueDateLoop].
    destruct (Z.of_nat (SpecWords.weekdaysAfter local j) <? days) eqn:E.
    + apply Z.ltb_lt in E. exfalso. unfold SpecWords.turnsLeft in Hfuel.
      destruct (_ =? 6); [|destruct (_ =? 0)]; lia.
    + apply Z.ltb_ge in E. exists j, date.
      repeat split; try lia; try reflexivity; try assumption; intros; lia.
  - cbn [dueDateLoop].
    destruct (Z.of_nat (SpecWords.weekdaysAfter local j) <? days) eqn:E.
    2:{ apply Z.ltb_ge in E. exists j, date.
        repeat split; try lia; try reflexivity; try assumption; intros; lia. }
    apply Z.ltb_lt in E. cbn zeta.
    assert (local + Z.of_nat j * JS.msPerDay + JS.msPerDay
            = local + Z.of_nat (S j) * JS.msPerDay) as Enext by lia.
    assert (JS.setDateNext zone date
            = JS.utcOf zone (local + Z.of_nat (S j) * JS.msPerDay)) as Eset
      by (unfold JS.setDateNext; rewrite Hdate, Enext; reflexivity).
    assert (JS.localTime zone (JS.setDateNext zone date)
            = local + Z.of_nat (S j) * JS.msPerDay) as Hdate'
      by (rewrite Eset; apply Hexist; lia).
    unfold JS.getDay. rewrite Hdate'.
    pose proof (weekDay_next (local + Z.of_nat j * JS.msPerDay)) as Hday.
    rewrite Enext in Hday.
    pose proof (weekDay_range (local + Z.of_nat j * JS.msPerDay)) as Hr.
    pose proof (weekDay_range (local + Z.of_nat (S j) * JS.msPerDay)) as Hr'.
    pose proof (weekdaysAfter_next local j) as Hcount.
    unfold SpecWords.isWeekday in Hcount.
    set (w := JS.weekDay (local + Z.of_nat j * JS.msPerDay)) in *.
    set (w' := JS.weekDay (local + Z.of_nat (S j) * JS.msPerDay)) in *.
    assert (w' = w + 1 \/ (w = 6 /\ w' = 0)) as Hw.
    { rewrite Hday. destruct (Z.eq_dec w 6) as [-> | Hne].
      - right. split; reflexivity.
      - left. apply Z.mod_small. lia. }
    assert (forall i : nat,
              (S j < i <= S j + fuel)%nat ->
              JS.localTime zone (JS.utcOf zone (local + Z.of_nat i * JS.msPerDay))
              = local + Z.of_nat i * JS.msPerDay) as Hexist'
      by (intros i Hi; apply Hexist; lia).
    destruct (negb (w' =? 0) && negb (w' =? 6)) eqn:Eweek.
    + assert (Z.of_nat (SpecWords.weekdaysAfter local j) + 1
              = Z.of_nat (SpecWords.weekdaysAfter local (S j))) as Eadd by lia.
      rewrite Eadd.
      destruct (IH (S j) (JS.setDateNext zone date) Hdate' Hexist')
        as [k [due [Hk [Hloop [Hlocal [Hsame [Hlater [Hdone Hweek]]]]]]]].
      * lia.
      * fold w'. unfold SpecWords.turnsLeft in *.
        apply andb_true_iff in Eweek. destruct Eweek as [E0 E6].
        apply negb_true_iff in E0, E6. rewrite E0, E6.
        destruct (w =? 6); [|destruct (w =? 0)]; lia.
      * exists k, due. split; [lia|]. split; [exact Hloop|].
        split; [exact Hlocal|]. split; [intros; lia|].
        destruct (Nat.eq_dec k (S j)) as [-> | Hne].
        -- split; [intros _; rewrite (Hsame eq_refl); exact Eset|].
           split; [exact Hdone|]. intros _.
           unfold SpecWords.isWeekday. fold w'. exact Eweek.
        -- split; [intros _; apply Hlater; lia|].
           split; [exact Hdone|]. intros _. apply Hweek. lia.
    + assert (SpecWords.weekdaysAfter local (S j) = SpecWords.weekdaysAfter local j)
        as Esame by lia.
      rewrite <- Esame.
      destruct (IH (S j) (JS.setDateNext zone date) Hdate' Hexist')
        as [k [due [Hk [Hloop [Hlocal [Hsame [Hlater [Hdone Hweek]]]]]]]].
      * lia.
      * fold w'. rewrite Esame. unfold SpecWords.turnsLeft in *.
        apply andb_false_iff in Eweek.
        destruct Eweek as [E0 | E6].
        -- apply negb_false_iff, Z.eqb_eq in E0.
           assert (w = 6) as Ew by lia.
           rewrite E0, Ew in *. cbn in *. lia.
        -- apply negb_false_iff, Z.eqb_eq in E6.
           assert (w = 5) as Ew by lia.
           rewrite E6, Ew in *. cbn in *. lia.
      * assert (k <> S j) as Hne by (intros ->; rewrite Esame in Hdone; lia).
        exists k, due. split; [lia|]. split; [exact Hloop|].
        split; [exact Hlocal|]. split; [intros; lia|].
        split; [intros _; apply Hlater; lia|].
        split; [exact Hdone|]. intros _. apply Hweek. lia.
Qed.

(** The whole loop, from [now]. *)
Lemma dueTime_exits (days : Z) :
  0 <= days ->
  SpecWords.WallTimesExist zone now (3 * days) ->
  exists (k : nat) (due : Z),
    dueTime zone now days = Some due
    /\ JS.localTime zone due = local + Z.of_nat k * JS.msPerDay
    /\ (k = 0%nat -> due = now)
    /\ ((0 < k)%nat -> due = JS.utcOf zone (local + Z.of_nat k * JS.msPerDay))
    /\ days <= Z.of_nat k <= 3 * days
    /\ Z.of_nat (SpecWords.weekdaysAfter local k) = days
    /\ (0 < days -> SpecWords.isWeekday (local + Z.of_nat k * JS.msPerDay) = true).
Proof.
  intros Hdays Hexist.
  destruct (@dueDateLoop_exits days (Z.to_nat (3 * days)) 0 now)
    as [k [due [Hk [Hloop [Hlocal [Hsame [Hlater [Hdone Hweek]]]]]]]].
  - unfold local. lia.
  - intros i Hi. apply Hexist; lia.
  - cbn. exact Hdays.
  - cbn [SpecWords.weekdaysAfter seq filter length]. unfold SpecWords.turnsLeft.
    destruct (_ =? 6); [|destruct (_ =? 0)]; lia.
  - exists k, due.
    cbn [SpecWords.weekdaysAfter seq filter length] in Hloop.
    change (Z.of_nat 0) with 0 in Hloop.
    split; [exact Hloop|]. split; [exact Hlocal|]. split; [exact Hsame|].
    split; [exact Hlater|].
    split; [pose proof (weekdaysAfter_le local k); lia|].
    split; [exact Hdone|].
    intros Hpos. apply Hweek.
    destruct k as [|k]; [|lia]. cbn in Hdone. lia.
Qed.

End DueDateFacts.

(** X30.  [getDefaultDueDate] works on the calendar of the host's zone.
    For every zone, every clock and every number of days that is not
    negative, provided that the zone skips none of the local times that the
    loop sets (the local time of day of the clock on the days that follow),
    the loop ends within three turns for each day, and the date returned
    shows the local time of day of the clock on a later local day: exactly
    [days] of the local days passed over are weekdays, and, when [days] is
    positive, the day reached is itself a weekday of the local calendar,
    never a Saturday or a Sunday.  The instant returned is the one that this
    local time stands for, which across a change of the clocks is not a
    whole number of 24 hours after the clock. *)
Theorem getDefaultDueDate_business_days (zone : JS.Zone) (now days : Z) :
  0 <= days ->
  SpecWords.WallTimesExist zone now (3 * days) ->
  exists (k : nat) (due : Z),
    TranscriptProcessor.getDefaultDueDate zone now days
    = Some (JS.toISOString due)
    /\ JS.localTime zone due
       = JS.localTime zone now + Z.of_nat k * JS.msPerDay
    /\ (k = 0%nat -> due = now)
    /\ ((0 < k)%nat ->
        due = JS.utcOf zone (JS.localTime zone now + Z.of_nat k * JS.msPerDay))
    /\ days <= Z.of_nat k <= 3 * days
    /\ Z.of_nat (SpecWords.weekdaysAfter (JS.localTime zone now) k) = days
    /\ (0 < days ->
        SpecWords.isWeekday (JS.localTime zone due) = true
        /\ JS.getDay zone due <> 0 /\ JS.getDay zone due <> 6).
Proof.
  intros Hdays Hexist.
  destruct (@dueTime_exits zone now days Hdays Hexist)
    as [k [due [Hloop [Hlocal [Hsame [Hlater [Hk [Hdone Hweek]]]]]]]].
  exists k, due.
  split.
  { unfold TranscriptProcessor.getDefaultDueDate. rewrite Hloop. reflexivity. }
  split; [exact Hlocal|]. split; [exact Hsame|]. split; [exact Hlater|].
  split; [exact Hk|]. split; [exact Hdone|].
  intros Hpos. specialize (Hweek Hpos). rewrite <- Hlocal in Hweek.
  split; [exact Hweek|].
  unfold SpecWords.isWeekday in Hweek. unfold JS.getDay.
  apply andb_true_iff in Hweek. destruct Hweek as [H0 H6].
  apply negb_true_iff, Z.eqb_neq in H0, H6. split; assumption.
Qed.

Lemma eastern_wall_times :
  SpecWords.WallTimesExist Sample.eastern Sample.now (3 * 3).
Proof.
  intros j H1 H9.
  assert (j = 1 \/ j = 2 \/ j = 3 \/ j = 4 \/ j = 5 \/ j = 6 \/ j = 7 \/ j = 8
          \/ j = 9)%nat as Hj by lia.
  destruct Hj as [-> | [-> | [-> | [-> | [-> | [-> | [-> | [-> | ->]]]]]]]];
    vm_compute; reflexivity.
Qed.

Lemma getDefaultDueDate_business_days_witness :
  TranscriptProcessor.getDefaultDueDate Sample.eastern Sample.now 3
  = Some "2024-03-13T15:00:00.000Z"
  /\ exists (k : nat) (due : Z),
       TranscriptProcessor.getDefaultDueDate Sample.eastern Sample.now 3
       = Some (JS.toISOString due)
       /\ JS.localTime Sample.eastern due
          = JS.localTime Sample.eastern Sample.now + Z.of_nat k * JS.msPerDay
       /\ (k = 0%nat -> due = Sample.now)
       /\ ((0 < k)%nat ->
           due = JS.utcOf Sample.eastern
                   (JS.localTime Sample.eastern Sample.now
                    + Z.of_nat k * JS.msPerDay))
       /\ 3 <= Z.of_nat k <= 3 * 3
       /\ Z.of_nat (SpecWords.weekdaysAfter
                      (JS.localTime Sample.eastern Sample.now) k) = 3
       /\ (0 < 3 ->
           SpecWords.isWeekday (JS.localTime Sample.eastern due) = true
           /\ JS.getDay Sample.eastern due <> 0
           /\ JS.getDay Sample.eastern due <> 6).
Proof.
  split; [vm_compute; reflexivity|].
  apply (@getDefaultDueDate_business_days Sample.eastern Sample.now 3).
  - lia.
  - exact eastern_wall_times.
Defined.

Section ProviderFacts.

Import ContactMemoryManager ContextProvider.

Lemma getContactContext_eq (clock : MemoryRetrieval.ContextClock) (cid : string)
      (d : Schema.Database) :
  getContactContext clock cid None (Some d) =
  (Ok (match Schema.selectContact cid d with
       | Some row =>
         Some (MemoryRetrieval.assembleContext clock (entryOfRow row cid d)
                 MemoryRetrieval.noOptions)
       | None => None
       end), Some d).
Proof.
  unfold getContactContext, bind. rewrite getContactMemory_eq.
  destruct (Schema.selectContact cid d); reflexivity.
Qed.

Lemma context_lengths (clock : MemoryRetrieval.ContextClock)
      (memory : ContactMemoryEntry) :
  (length (MemoryRetrieval.recentInteractions
             (MemoryRetrieval.assembleContext clock memory MemoryRetrieval.noOptions))
   <= 10)%nat
  /\ (length (MemoryRetrieval.cKeyFacts
                (MemoryRetrieval.assembleContext clock memory MemoryRetrieval.noOptions))
      <= 10)%nat.
Proof.
  cbn [MemoryRetrieval.assembleContext MemoryRetrieval.recentInteractions
       MemoryRetrieval.cKeyFacts]. split.
  - unfold MemoryRetrieval.selectInteractions.
    change (MemoryRetrieval.maxInteractionsOf MemoryRetrieval.noOptions) with 10.
    match goal with
    | |- (length (JS.sliceTo 10 ?l) <= 10)%nat =>
      pose proof (@sliceTo_length _ 10 l) as H
    end.
    assert (0 <= 10) as H0 by lia. specialize (H H0). lia.
  - unfold MemoryRetrieval.selectKeyFacts, JS.slice0. apply firstn_le_length.
Qed.

Lemma days_bound (clock : MemoryRetrieval.ContextClock) (now : Z)
      (memory : ContactMemoryEntry) :
  now - MemoryRetrieval.atFilter clock < MemoryRetrieval.msPerDay ->
  forall n,
    calculateDaysSince now
      (option_map timestamp
         (hd_error
            (MemoryRetrieval.recentInteractions
               (MemoryRetrieval.assembleContext clock memory
                  MemoryRetrieval.noOptions)))) = n ->
    n <= 30 \/ n = 999.
Proof.
  intros Hclock n <-.
  pose proof (@assembleContext_interactions_eligible clock memory
                MemoryRetrieval.noOptions) as He.
  destruct (MemoryRetrieval.recentInteractions _) as [|i rest];
    cbn [hd_error option_map calculateDaysSince]; [right; reflexivity|].
  destruct (timestamp i =? 0); [right; reflexivity|]. left.
  destruct (He i (or_introl eq_refl)) as [_ [Hage _]].
  assert (MemoryRetrieval.maxAgeOf MemoryRetrieval.noOptions <> 0) as Hne
    by discriminate.
  specialize (Hage Hne). cbn in Hage. unfold MemoryRetrieval.msPerDay in Hclock.
  assert ((now - timestamp i) / (24 * 60 * 60 * 1000) < 31) as Hlt
    by (apply Z.div_lt_upper_bound; lia).
  lia.
Qed.

End ProviderFacts.

(** X28.  [getContextForCall] never throws and leaves the store as it is.
    Without a contact id it greets a new caller; on a closed store it
    reports the load error and on an open store without an entry for the
    contact it reports no history; otherwise it hands over at most ten
    interactions and ten key facts, and, the clock of the day count being
    less than a day ahead of the clock of the age filter, a day count that
    is at most 30 or the 999 of a contact without a recent interaction. *)
Theorem getContextForCall_answers (clock : MemoryRetrieval.ContextClock) (now : Z)
        (contactId : option string) (s : option Schema.Database) :
  now - MemoryRetrieval.atFilter clock < MemoryRetrieval.msPerDay ->
  exists c,
    ContextProvider.getContextForCall clock now contactId s
    = (ContactMemoryManager.Ok c, s)
    /\ (length (ContextProvider.recent_interactions c) <= 10)%nat
    /\ (length (ContextProvider.key_facts c) <= 10)%nat
    /\ (contactId = None \/ contactId = Some "" -> c = ContextProvider.newCaller)
    /\ (forall ch cid, contactId = Some (String ch cid) ->
          (s = None -> c = ContextProvider.loadError)
          /\ (forall d, s = Some d ->
                Schema.hasContact (String ch cid) d = false ->
                c = ContextProvider.noHistory))
    /\ (forall n, ContextProvider.days_since_last_contact c = Some n ->
          n <= 30 \/ n = 999).
Proof.
  intros Hclock.
  destruct contactId as [[|ch cid]|].
  - exists ContextProvider.newCaller. cbn.
    repeat split; try lia; try discriminate.
  - destruct s as [d|].
    + unfold ContextProvider.getContextForCall. rewrite getContactContext_eq.
      destruct (Schema.selectContact (String ch cid) d) as [row|] eqn:Erow.
      * eexists. split; [reflexivity|].
        cbn [ContextProvider.formatted ContextProvider.recent_interactions
             ContextProvider.key_facts ContextProvider.days_since_last_contact].
        rewrite !length_map.
        destruct (context_lengths clock
                    (ContactMemoryManager.entryOfRow row (String ch cid) d))
          as [H1 H2].
        split; [exact H1|]. split; [exact H2|].
        split; [intros [H | H]; discriminate H|].
        split.
        { intros ch' cid' E. inversion E; subst. split; [discriminate|].
          intros d' Ed Hno. inversion Ed; subst d'.
          unfold Schema.hasContact in Hno. unfold Schema.selectContact in Erow.
          apply find_some in Erow. destruct Erow as [Hin Hid].
          assert (existsb (fun r => String.eqb (Schema.contact_id r) (String ch' cid'))
                          (Schema.contact_memory d) = true) as Hyes
            by (apply existsb_exists; exists row; tauto).
          congruence. }
        intros n Hn. injection Hn as En.
        exact (@days_bound clock now
                 (ContactMemoryManager.entryOfRow row (String ch cid) d) Hclock n En).
      * exists ContextProvider.noHistory. cbn.
        repeat split; try lia; try discriminate.
        intros [H | H]; discriminate H.
    + exists ContextProvider.loadError. cbn.
      repeat split; try lia; try discriminate.
      intros [H | H]; discriminate H.
  - exists ContextProvider.newCaller. cbn.
    repeat split; try lia; try discriminate.
Qed.

Lemma getContextForCall_answers_witness :
  exists c,
    ContextProvider.getContextForCall Sample.contextClock Sample.now (Some "c2")
      (Some (ContactMemoryManager.stored Sample.quiet (Sample.emptyDb true)))
    = (ContactMemoryManager.Ok c,
       Some (ContactMemoryManager.stored Sample.quiet (Sample.emptyDb true)))
    /\ (length (ContextProvider.recent_interactions c) <= 10)%nat
    /\ (length (ContextProvider.key_facts c) <= 10)%nat
    /\ (Some "c2" = None \/ Some "c2" = Some "" -> c = ContextProvider.newCaller)
    /\ (forall ch cid, Some "c2" = Some (String ch cid) ->
          (Some (ContactMemoryManager.stored Sample.quiet (Sample.emptyDb true)) = None
           -> c = ContextProvider.loadError)
          /\ (forall d,
                Some (ContactMemoryManager.stored Sample.quiet (Sample.emptyDb true))
                = Some d ->
                Schema.hasContact (String ch cid) d = false ->
                c = ContextProvider.noHistory))
    /\ (forall n, ContextProvider.days_since_last_contact c = Some n ->
          n <= 30 \/ n = 999).
Proof.
  apply (@getContextForCall_answers Sample.contextClock Sample.now (Some "c2")
           (Some (ContactMemoryManager.stored Sample.quiet (Sample.emptyDb true)))).
  vm_compute. reflexivity.
Defined.

Section ProcessorFacts.

Import Schema ContactMemoryManager TranscriptProcessor.

(** The three ways in which [addInteraction] ends on an open database. *)
Lemma addInteraction_cases (now : Z) (cid : string) (i : Interaction) (d : Database) :
  addInteraction now cid i (Some d) =
  if existsb (fun r => String.eqb (iid r) (id i)) (interactionsT d)
  then (Throw (Sqlite PrimaryKeyConstraint), Some d)
  else if foreign_keys d && negb (hasContact cid d)
  then (Throw (Sqlite ForeignKeyConstraint), Some d)
  else (Ok tt,
        Some {| foreign_keys := foreign_keys d;
                contact_memory :=
                  map (fun r =>
                         if String.eqb (contact_id r) cid
                         then {| contact_id := contact_id r;
                                 location_id := location_id r;
                                 last_updated := now;
                                 rmetadata := rmetadata r;
                                 rpreferences := rpreferences r;
                                 rsentiment := rsentiment r;
                                 created_at := created_at r |}
                         else r)
                      (contact_memory d);
                interactionsT := interactionsT d ++ [interactionRow cid i];
                key_facts := key_facts d |}).
Proof.
  unfold addInteraction.
  unfold bind at 1. cbn [requireDb].
  unfold bind at 1. unfold run at 1, insertInteraction.
  cbn [iid icontact_id interactionRow].
  destruct (existsb _ (interactionsT d)); [reflexivity|].
  destruct (foreign_keys d && negb (hasContact cid d)); reflexivity.
Qed.

Lemma getDefaultDueDate_some (zone : JS.Zone) (now days : Z) :
  0 <= days ->
  SpecWords.WallTimesExist zone now (3 * days) ->
  exists due, getDefaultDueDate zone now days = Some due.
Proof.
  intros Hdays Hexist.
  destruct (@dueTime_exits zone now days Hdays Hexist) as [k [due [Hloop _]]].
  unfold getDefaultDueDate. rewrite Hloop. eexists. reflexivity.
Qed.

Lemma WallTimesExist_fewer (zone : JS.Zone) (now n m : Z) :
  m <= n -> SpecWords.WallTimesExist zone now n ->
  SpecWords.WallTimesExist zone now m.
Proof. intros Hle H j H1 Hj. apply H; lia. Qed.

Lemma utc_wall_times (now n : Z) : SpecWords.WallTimesExist JS.utc now n.
Proof. intros j _ _. unfold JS.localTime. cbn. lia. Qed.

Lemma stamp_length (clock : nat -> Z) (n : nat) (l : list PendingRequest) :
  length (stamp clock n l) = length l.
Proof. revert n. induction l as [|p l IH]; intros n; simpl; congruence. Qed.

Lemma stamp_In (clock : nat -> Z) (n : nat) (l : list PendingRequest)
      (q : TaskRequest) :
  In q (stamp clock n l) -> exists p k, In p l /\ q = p (clock k).
Proof.
  revert n. induction l as [|p l IH]; intros n H; simpl in H; [destruct H|].
  destruct H as [<- | H].
  - exists p, n. split; [left|]; reflexivity.
  - destruct (IH _ H) as [p' [k [Hp E]]]. exists p', k. split; [right|]; assumption.
Qed.

Lemma pendingRequests_In (zone : JS.Zone) (cid transcript summary : string)
      (p : PendingRequest) :
  In p (pendingRequests zone cid transcript summary) ->
  forall now,
    tcontactId (p now) = cid
    /\ (SpecWords.WallTimesExist zone now 9 ->
        exists due, dueDate (p now) = Some due).
Proof.
  unfold pendingRequests. rewrite !in_app_iff, in_map_iff.
  intros [[c [<- _]] | [H | H]] now.
  - split; [reflexivity|]. intros Hw.
    apply getDefaultDueDate_some; [lia|].
    apply (@WallTimesExist_fewer zone now 9); [lia | exact Hw].
  - destruct (test callbackPattern transcript); [|destruct H].
    destruct H as [<- | []]. split; [reflexivity|]. intros Hw.
    apply getDefaultDueDate_some; [lia|].
    apply (@WallTimesExist_fewer zone now 9); [lia | exact Hw].
  - destruct (test informationPattern transcript); [|destruct H].
    destruct H as [<- | []]. split; [reflexivity|]. intros Hw.
    apply getDefaultDueDate_some; [lia|].
    apply (@WallTimesExist_fewer zone now 9); [lia | exact Hw].
Qed.

End ProcessorFacts.

(** X29.  [processCallTranscript] reports success exactly when the memory
    took the interaction of the call: the store is open, the new id is not
    in use, and the contact has an entry or the connection does not enforce
    the foreign key; what the GHL plugin answers does not matter.  Without
    success nothing is sent to GHL and nothing changes.  With success the
    interaction, on the phone channel, is the last row of the table, GHL
    has received the note and then one task request for each commitment of
    6 to 149 characters, one more for a callback and one more for
    information asked for, each for this contact and, in a zone that skips
    none of the local times that [getDefaultDueDate] sets (as a host in UTC
    never does), with a due date, and [tasksCreated] counts the requests
    that GHL answered with a task. *)
Theorem processCallTranscript_outcome (zone : JS.Zone) (reply : nat -> bool)
        (clock : TranscriptProcessor.CallClock)
        (newId locationId contactId transcript : string) (durationSeconds : Z)
        (w : TranscriptProcessor.World) :
  let r := fst (TranscriptProcessor.processCallTranscript
                  zone reply clock newId locationId contactId transcript
                  durationSeconds w) in
  let w' := snd (TranscriptProcessor.processCallTranscript
                   zone reply clock newId locationId contactId transcript
                   durationSeconds w) in
  (TranscriptProcessor.success r = true <->
   exists d, TranscriptProcessor.memoryDb w = Some d
     /\ (forall row, In row (Schema.interactionsT d) -> Schema.iid row <> newId)
     /\ (Schema.foreign_keys d = true -> Schema.hasContact contactId d = true))
  /\ (TranscriptProcessor.success r = false ->
      TranscriptProcessor.tasksCreated r = 0%nat /\ w' = w)
  /\ (TranscriptProcessor.success r = true ->
      exists d d' requests,
        TranscriptProcessor.memoryDb w = Some d
        /\ TranscriptProcessor.memoryDb w' = Some d'
        /\ Schema.interactionsT d'
           = Schema.interactionsT d
             ++ [ContactMemoryManager.interactionRow contactId
                   (TranscriptProcessor.callInteraction
                      newId (TranscriptProcessor.atInteraction clock) transcript)]
        /\ TranscriptProcessor.sent w'
           = TranscriptProcessor.sent w
             ++ TranscriptProcessor.CreateContactNote locationId contactId
                  (TranscriptProcessor.noteBody transcript durationSeconds)
                :: map (TranscriptProcessor.CreateTask locationId) requests
        /\ length requests
           = (length (TranscriptProcessor.commitments transcript)
              + (if TranscriptProcessor.test TranscriptProcessor.callbackPattern
                      transcript then 1 else 0)
              + (if TranscriptProcessor.test TranscriptProcessor.informationPattern
                      transcript then 1 else 0))%nat
        /\ (forall q, In q requests ->
              TranscriptProcessor.tcontactId q = contactId
              /\ ((forall n, SpecWords.WallTimesExist
                               zone (TranscriptProcessor.atDueDate clock n) 9) ->
                  exists due, TranscriptProcessor.dueDate q = Some due))
        /\ (TranscriptProcessor.tasksCreated r <= length requests)%nat
        /\ (TranscriptProcessor.tasksCreated r
            = length (filter reply (seq 1 (length requests))))).
Proof.
  cbn zeta. unfold TranscriptProcessor.processCallTranscript. cbn zeta.
  destruct w as [[d|] log]; cbn [TranscriptProcessor.memoryDb TranscriptProcessor.sent].
  2:{ cbn. split; [|split].
      - split; [discriminate | intros [d [E _]]; discriminate].
      - intros _. split; reflexivity.
      - discriminate. }
  rewrite addInteraction_cases.
  cbn [id TranscriptProcessor.callInteraction].
  destruct (existsb (fun r => String.eqb (Schema.iid r) newId)
                    (Schema.interactionsT d)) eqn:Eid.
  { cbn. split; [|split].
    - split; [discriminate|]. intros [d0 [E0 [Hfresh _]]]. inversion E0; subst d0.
      apply existsb_exists in Eid. destruct Eid as [row [Hrow Heq]].
      apply String.eqb_eq in Heq. exfalso. apply (Hfresh row Hrow Heq).
    - intros _. split; reflexivity.
    - discriminate. }
  destruct (Schema.foreign_keys d && negb (Schema.hasContact contactId d)) eqn:Efk.
  { cbn. split; [|split].
    - split; [discriminate|]. intros [d0 [E0 [_ Hfk]]]. inversion E0; subst d0.
      apply andb_true_iff in Efk. destruct Efk as [E1 E2].
      rewrite (Hfk E1) in E2. discriminate.
    - intros _. split; reflexivity.
    - discriminate. }
  cbn [fst snd TranscriptProcessor.success TranscriptProcessor.tasksCreated
       TranscriptProcessor.memoryDb TranscriptProcessor.sent].
  split; [|split].
  - split; [|reflexivity]. intros _. exists d. split; [reflexivity|]. split.
    + intros row Hrow Heq.
      pose proof (@existsb_false_In _ _ _ Eid row Hrow) as Hf. cbn beta in Hf.
      rewrite Heq, String.eqb_refl in Hf. discriminate.
    + intros Hfk. rewrite Hfk in Efk. cbn in Efk.
      apply negb_false_iff in Efk. exact Efk.
  - discriminate.
  - intros _. eexists d, _, _.
    split; [reflexivity|]. split; [reflexivity|].
    cbn [Schema.interactionsT].
    split; [reflexivity|]. split; [reflexivity|].
    unfold TranscriptProcessor.extractTasks.
    split.
    { rewrite stamp_length. unfold TranscriptProcessor.pendingRequests.
      rewrite !length_app, length_map.
      destruct (TranscriptProcessor.test TranscriptProcessor.callbackPattern transcript),
               (TranscriptProcessor.test TranscriptProcessor.informationPattern transcript);
        cbn [length]; lia. }
    split.
    { intros q Hq. apply stamp_In in Hq. destruct Hq as [p [k [Hp ->]]].
      destruct (@pendingRequests_In zone _ _ _ _ Hp
                  (TranscriptProcessor.atDueDate clock k)) as [H1 H2].
      split; [exact H1|]. intros Hw. apply H2, Hw. }
    split; [|reflexivity].
    unfold TranscriptProcessor.countCreated.
    etransitivity; [apply filter_length_le|]. rewrite length_seq. lia.
Qed.

Lemma processCallTranscript_outcome_witness :
  TranscriptProcessor.tasksCreated
    (fst (TranscriptProcessor.processCallTranscript
            JS.utc (fun _ => true) Sample.callClock "call2" "loc" "c1"
            Sample.transcript 125 Sample.world)) = 3%nat
  /\ exists requests,
       TranscriptProcessor.sent
         (snd (TranscriptProcessor.processCallTranscript
                 JS.utc (fun _ => true) Sample.callClock "call2" "loc" "c1"
                 Sample.transcript 125 Sample.world))
       = TranscriptProcessor.sent Sample.world
         ++ TranscriptProcessor.CreateContactNote "loc" "c1"
              (TranscriptProcessor.noteBody Sample.transcript 125)
            :: map (TranscriptProcessor.CreateTask "loc") requests
       /\ length requests = 3%nat
       /\ forall q, In q requests ->
            TranscriptProcessor.tcontactId q = "c1"
            /\ exists due, TranscriptProcessor.dueDate q = Some due.
Proof.
  split; [vm_compute; reflexivity|].
  destruct (proj2 (proj2 (processCallTranscript_outcome
                            JS.utc (fun _ => true) Sample.callClock "call2" "loc"
                            "c1" Sample.transcript 125 Sample.world)))
    as [d [d' [requests [_ [_ [_ [Hsent [Hlen [Hdue _]]]]]]]]].
  - vm_compute. reflexivity.
  - exists requests. split; [exact Hsent|].
    split; [rewrite Hlen; vm_compute; reflexivity|].
    intros q Hq. destruct (Hdue q Hq) as [H1 H2]. split; [exact H1|].
    apply H2. intros n. apply utc_wall_times.
Defined.

Lemma gap_advice_witness :
  In "It has been a while since last contact - acknowledge the gap"
     (MemoryRetrieval.recommendations
        (MemoryRetrieval.assembleContext Sample.contextClock Sample.quiet
           MemoryRetrieval.noOptions))
  /\ exists i,
       SpecWords.Eligible (MemoryRetrieval.atFilter Sample.contextClock)
         MemoryRetrieval.noOptions Sample.quiet i
       /\ 15 * MemoryRetrieval.msPerDay
          <= MemoryRetrieval.atRecommendations Sample.contextClock - timestamp i.
Proof.
  assert (In "It has been a while since last contact - acknowledge the gap"
             (MemoryRetrieval.recommendations
                (MemoryRetrieval.assembleContext Sample.contextClock Sample.quiet
                   MemoryRetrieval.noOptions))) as Hin
    by (vm_compute; right; left; reflexivity).
  split; [exact Hin|].
  exact (proj1 (proj2 (gap_advice Sample.contextClock Sample.quiet
                         MemoryRetrieval.noOptions)) Hin).
Defined.
